(** * axios-token-refresh: the refresh-token interceptor, embedded in Rocq

    The development follows [createRefreshTokenPlugin] of the package
    (the version with [authHeaderFormatter] and [refreshTimeout]).  The
    interceptor is an [async] function with a single [await]; it is embedded
    as two synchronous segments, [onRejected] (entry up to the [await] or a
    [return]) and [onRejected_resume] (from the settlement of the awaited
    race to the [return]), run by an event loop over an explicit world:
    the closure variables, the heap of request objects and retry promises,
    the host (console and the state the caller's callbacks act on), the
    clock, and a trace of the observable effects. *)

From stdpp Require Import base option list gmap strings.
From Stdlib Require Import NArith ZArith Lia.

Set Warnings "-register-all".
Open Scope string_scope.
Open Scope list_scope.

(** ** JavaScript values *)

(** [new Error(message)], with the [originalError] property the interceptor
    attaches to the errors it creates. *)
Inductive Error : Type :=
  mkError (message : string) (originalError : option Error).

Definition message (e : Error) : string :=
  match e with mkError m _ => m end.

Definition originalError (e : Error) : option Error :=
  match e with mkError _ o => o end.

(** Anything can be thrown or used as a rejection reason: an instance of
    [Error], or some other value (kept by its rendering). *)
Inductive Thrown : Type :=
| ThrownError (e : Error)
| ThrownValue (v : string).

(** [x instanceof Error ? x : new Error(fallback)] *)
Definition asError (x : Thrown) (fallback : string) : Error :=
  match x with
  | ThrownError e => e
  | ThrownValue _ => mkError fallback None
  end.

(** A completion: the value returned, or the value thrown. *)
Definition Res (A : Type) : Type := Thrown + A.

(** [string | null]: what [getAuthToken] returns and [refreshTokenFn]
    resolves with. *)
Abbreviation Token := (option string).

(** JavaScript truthiness on [string | null]: [null] and the empty string
    are falsy. *)
Definition truthy (t : Token) : bool :=
  match t with
  | Some s => negb (s =? "")
  | None => false
  end.

(** ** Requests, responses and failures *)

Abbreviation ReqRef := nat.
Abbreviation PromiseId := nat.

(** The request description [error.config]; axios always gives it a
    [headers] object.  [_retry] is the mark the interceptor sets. *)
Record Request : Type := {
  _retry : bool;
  headers : gmap string string;
  url : string
}.

Record Response : Type := { status : Z }.

Record AxiosError : Type := {
  config : option ReqRef;
  response : option Response;
  code : string
}.

Module Status.
Inductive t : Type := refreshing | success | failed | error.

Definition to_string (s : t) : string :=
    match s with
    | refreshing => "refreshing"
    | success => "success"
    | failed => "failed"
    | error => "error"
    end.
End Status.

(** ** The host and the caller's callbacks *)

Record Host (U : Type) : Type := {
  console : list string;
  user : U
}.
Arguments console {U} _.
Arguments user {U} _.

(** A callback runs on the host, may change it, and returns or throws. *)
Definition Callback (U A : Type) : Type := Host U -> Res A * Host U.

Definition console_write {U} (line : string) (h : Host U) : Host U :=
  {| console := console h ++ [line]; user := user h |}.

Record Options (U : Type) : Type := {
  refreshTokenFn : Callback U unit;
  getAuthToken : Callback U Token;
  shouldRefreshToken : AxiosError -> Request -> Callback U bool;
  onStatusChange : Status.t -> option Error -> Callback U unit;
  authHeaderFormatter : string -> Callback U string;
  refreshTimeout : N
}.
Arguments refreshTokenFn {U} _.
Arguments getAuthToken {U} _.
Arguments shouldRefreshToken {U} _.
Arguments onStatusChange {U} _.
Arguments authHeaderFormatter {U} _.
Arguments refreshTimeout {U} _.

(** An option as the caller passes it: a function, or a value whose
    [typeof] is something else ([undefined] when it is left out). *)
Inductive JsValue (F : Type) : Type :=
| js_function (f : F)
| js_other (typeof : string).
Arguments js_function {F} _.
Arguments js_other {F} _.

(** The options object before destructuring; [None] is [undefined], which
    is what makes a default parameter apply. *)
Record RawOptions (U : Type) : Type := {
  raw_refreshTokenFn : JsValue (Callback U unit);
  raw_getAuthToken : JsValue (Callback U Token);
  raw_shouldRefreshToken : option (AxiosError -> Request -> Callback U bool);
  raw_onStatusChange : option (Status.t -> option Error -> Callback U unit);
  raw_authHeaderFormatter : option (string -> Callback U string);
  raw_refreshTimeout : option N
}.
Arguments raw_refreshTokenFn {U} _.
Arguments raw_getAuthToken {U} _.
Arguments raw_shouldRefreshToken {U} _.
Arguments raw_onStatusChange {U} _.
Arguments raw_authHeaderFormatter {U} _.
Arguments raw_refreshTimeout {U} _.

(** ** The world *)

(** An entry of [pendingRequests]: [{ request, resolve, reject }], where
    [resolve] and [reject] are the two settlers of one retry promise. *)
Record PendingRequest : Type := {
  request : ReqRef;
  promise : PromiseId
}.

(** [const pendingRequests = []; let isRefreshing = false;
    let refreshPromise = null;] *)
Record Closure : Type := {
  pendingRequests : list PendingRequest;
  isRefreshing : bool;
  refreshPromise : option nat
}.

(** A retry promise is pending, resolved with the promise of a replay
    ([resolve(axios(request))]), or rejected. *)
Inductive PromiseState : Type :=
| Pending
| Resolved (replay : nat)
| Rejected (reason : Error).

(** A call of a settler, whether or not it changed the promise. *)
Inductive Settle : Type :=
| CallResolve (replay : nat)
| CallReject (reason : Error).

(** The state a settler puts a pending promise in. *)
Definition state_of (s : Settle) : PromiseState :=
  match s with
  | CallResolve replay => Resolved replay
  | CallReject reason => Rejected reason
  end.

(** A call [axios(request)]: the object passed and its content then. *)
Record Replay : Type := {
  replayed : ReqRef;
  sent : Request
}.

(** What an invocation of the interceptor hands back to the transport. *)
Inductive Outcome : Type :=
| ReturnRetryPromise (retryPromise : PromiseId)
| RejectOriginal (error : AxiosError)
| Uncaught (t : Thrown).

(** The locals of an invocation suspended at [await refreshPromise]. *)
Record Frame : Type := {
  f_error : AxiosError;
  f_originalRequest : ReqRef;
  f_retryPromise : PromiseId
}.

(** A [timeoutPromise] with its timer, and the invocation (if any) that
    awaits the race it takes part in. *)
Record Session : Type := {
  deadline : N;
  waiter : option Frame
}.

Record World (U : Type) : Type := {
  closure : Closure;
  requests : ReqRef -> Request;
  promises : list PromiseState;
  host : Host U;
  now : N;
  sessions : list Session;
  notified : list (Status.t * option Error);
  refreshCalls : nat;
  replays : list Replay;
  settlements : list (PromiseId * Settle);
  returned : list (AxiosError * Outcome)
}.
Arguments closure {U} _.
Arguments requests {U} _.
Arguments promises {U} _.
Arguments host {U} _.
Arguments now {U} _.
Arguments sessions {U} _.
Arguments notified {U} _.
Arguments refreshCalls {U} _.
Arguments replays {U} _.
Arguments settlements {U} _.
Arguments returned {U} _.

Section Updates.
Context {U : Type}.
Implicit Type w : World U.

Definition set_closure (c : Closure) w : World U :=
    {| closure := c; requests := requests w; promises := promises w;
       host := host w; now := now w; sessions := sessions w;
       notified := notified w; refreshCalls := refreshCalls w;
       replays := replays w; settlements := settlements w;
       returned := returned w |}.

Definition set_requests (r : ReqRef -> Request) w : World U :=
    {| closure := closure w; requests := r; promises := promises w;
       host := host w; now := now w; sessions := sessions w;
       notified := notified w; refreshCalls := refreshCalls w;
       replays := replays w; settlements := settlements w;
       returned := returned w |}.

Definition set_promises (p : list PromiseState) w : World U :=
    {| closure := closure w; requests := requests w; promises := p;
       host := host w; now := now w; sessions := sessions w;
       notified := notified w; refreshCalls := refreshCalls w;
       replays := replays w; settlements := settlements w;
       returned := returned w |}.

Definition set_host (h : Host U) w : World U :=
    {| closure := closure w; requests := requests w; promises := promises w;
       host := h; now := now w; sessions := sessions w;
       notified := notified w; refreshCalls := refreshCalls w;
       replays := replays w; settlements := settlements w;
       returned := returned w |}.

Definition set_now (t : N) w : World U :=
    {| closure := closure w; requests := requests w; promises := promises w;
       host := host w; now := t; sessions := sessions w;
       notified := notified w; refreshCalls := refreshCalls w;
       replays := replays w; settlements := settlements w;
       returned := returned w |}.

Definition set_sessions (s : list Session) w : World U :=
    {| closure := closure w; requests := requests w; promises := promises w;
       host := host w; now := now w; sessions := s;
       notified := notified w; refreshCalls := refreshCalls w;
       replays := replays w; settlements := settlements w;
       returned := returned w |}.

Definition set_notified (n : list (Status.t * option Error)) w : World U :=
    {| closure := closure w; requests := requests w; promises := promises w;
       host := host w; now := now w; sessions := sessions w;
       notified := n; refreshCalls := refreshCalls w;
       replays := replays w; settlements := settlements w;
       returned := returned w |}.

Definition set_refreshCalls (n : nat) w : World U :=
    {| closure := closure w; requests := requests w; promises := promises w;
       host := host w; now := now w; sessions := sessions w;
       notified := notified w; refreshCalls := n;
       replays := replays w; settlements := settlements w;
       returned := returned w |}.

Definition set_replays (r : list Replay) w : World U :=
    {| closure := closure w; requests := requests w; promises := promises w;
       host := host w; now := now w; sessions := sessions w;
       notified := notified w; refreshCalls := refreshCalls w;
       replays := r; settlements := settlements w;
       returned := returned w |}.

Definition set_settlements (s : list (PromiseId * Settle)) w : World U :=
    {| closure := closure w; requests := requests w; promises := promises w;
       host := host w; now := now w; sessions := sessions w;
       notified := notified w; refreshCalls := refreshCalls w;
       replays := replays w; settlements := s;
       returned := returned w |}.

Definition set_returned (r : list (AxiosError * Outcome)) w : World U :=
    {| closure := closure w; requests := requests w; promises := promises w;
       host := host w; now := now w; sessions := sessions w;
       notified := notified w; refreshCalls := refreshCalls w;
       replays := replays w; settlements := settlements w;
       returned := r |}.
End Updates.

(** ** The interceptor's monad: world passing with exceptions *)

Definition M (U A : Type) : Type := World U -> Res A * World U.

Section Monad.
Context {U : Type}.

Definition ret {A} (a : A) : M U A := fun w => (inr a, w).

Definition throw {A} (t : Thrown) : M U A := fun w => (inl t, w).

Definition bind {A B} (m : M U A) (k : A -> M U B) : M U B :=
    fun w =>
      match m w with
      | (inl t, w1) => (inl t, w1)
      | (inr a, w1) => k a w1
      end.

  (** [try { body } catch (x) { handler x }] *)
Definition try_catch {A} (body : M U A) (handler : Thrown -> M U A)
    : M U A :=
    fun w =>
      match body w with
      | (inl t, w1) => handler t w1
      | (inr a, w1) => (inr a, w1)
      end.

  (** [try { body } catch (x) { handler x } finally { final }]: [final]
      runs whatever the completion of the first two blocks is, and that
      completion stands unless [final] throws. *)
Definition try_catch_finally {A} (body : M U A) (handler : Thrown -> M U A)
      (final : M U unit) : M U A :=
    fun w =>
      let (r, w1) := try_catch body handler w in
      match final w1 with
      | (inl t, w2) => (inl t, w2)
      | (inr _, w2) => (r, w2)
      end.

Definition gets {A} (f : World U -> A) : M U A := fun w => (inr (f w), w).

Definition modify (f : World U -> World U) : M U unit :=
    fun w => (inr tt, f w).

  (** Calling one of the caller's functions. *)
Definition call {A} (f : Callback U A) : M U A :=
    fun w => let (r, h) := f (host w) in (r, set_host h w).

  (** [array.forEach(f)]: stops at the first exception. *)
Fixpoint forEach {A} (l : list A) (f : A -> M U unit) : M U unit :=
    match l with
    | [] => ret tt
    | x :: l' => bind (f x) (fun _ => forEach l' f)
    end.
End Monad.

Declare Scope js_scope.
Delimit Scope js_scope with js.
Notation "'let*' x := m 'in' k" := (bind m (fun x => k))
  (at level 10, x name, m at level 100, k at level 200) : js_scope.
Notation "m ;;; k" := (bind m (fun _ => k))
  (at level 100, k at level 200, right associativity) : js_scope.
Open Scope js_scope.

(** ** Primitive operations on the world *)

Section Primitives.
Context {U : Type}.

Definition set_pendingRequests (l : list PendingRequest) (c : Closure)
  : Closure :=
  {| pendingRequests := l; isRefreshing := isRefreshing c;
     refreshPromise := refreshPromise c |}.

Definition set_isRefreshing (b : bool) (c : Closure) : Closure :=
  {| pendingRequests := pendingRequests c; isRefreshing := b;
     refreshPromise := refreshPromise c |}.

Definition set_refreshPromise (p : option nat) (c : Closure) : Closure :=
  {| pendingRequests := pendingRequests c; isRefreshing := isRefreshing c;
     refreshPromise := p |}.

Definition update_closure (f : Closure -> Closure) : M U unit :=
  modify (fun w => set_closure (f (closure w)) w).

(** [request[field] = value] on the heap of request objects. *)
Definition store_request (r : ReqRef) (f : Request -> Request)
    (heap : ReqRef -> Request) : ReqRef -> Request :=
  fun r' => if decide (r' = r) then f (heap r) else heap r'.

Definition mark_retry (q : Request) : Request :=
  {| _retry := true; headers := headers q; url := url q |}.

Definition set_header (name value : string) (q : Request) : Request :=
  {| _retry := _retry q; headers := <[name := value]> (headers q);
     url := url q |}.

Definition update_request (r : ReqRef) (f : Request -> Request) : M U unit :=
  modify (fun w => set_requests (store_request r f (requests w)) w).

(** A settler changes its promise only while the promise is pending. *)
Definition settle_promise (p : PromiseId) (s : PromiseState)
    (ps : list PromiseState) : list PromiseState :=
  match ps !! p with
  | Some Pending => <[p := s]> ps
  | _ => ps
  end.

(** Calling a settler of promise [p]; the call is recorded. *)
Definition settle (p : PromiseId) (s : Settle) : M U unit :=
  modify (fun w =>
    set_settlements (settlements w ++ [(p, s)])
      (set_promises (settle_promise p (state_of s) (promises w)) w)).

Definition resolve (p : PromiseId) (replay : nat) : M U unit :=
  settle p (CallResolve replay).

Definition reject (p : PromiseId) (reason : Error) : M U unit :=
  settle p (CallReject reason).

(** [new Promise((resolve, reject) => ...)]: a fresh pending promise. *)
Definition new_promise : M U PromiseId :=
  fun w => (inr (length (promises w)),
            set_promises (promises w ++ [Pending]) w).

(** [axios(request)]: the transport takes the request as it is now and
    returns the promise of the replay. *)
Definition axios (r : ReqRef) : M U nat :=
  fun w => (inr (length (replays w)),
            set_replays
              (replays w ++ [{| replayed := r; sent := requests w r |}]) w).

(** [setTimeout(() => reject(new Error("Token refresh timeout")), ms)]
    inside [new Promise]: a timeout promise with its timer. *)
Definition new_timeoutPromise (ms : N) : M U nat :=
  fun w => (inr (length (sessions w)),
            set_sessions
              (sessions w ++ [{| deadline := (now w + ms)%N;
                                 waiter := None |}]) w).

(** The invocation parks at [await] on the race of session [s]. *)
Definition park (s : nat) (fr : Frame) : M U unit :=
  modify (fun w =>
    set_sessions
      (alter (fun x => {| deadline := deadline x; waiter := Some fr |})
         s (sessions w)) w).

Definition console_error (line : string) : M U unit :=
  modify (fun w => set_host (console_write line (host w)) w).
End Primitives.

(** ** createRefreshTokenPlugin *)

Section Plugin.
Context {U : Type}.

(** The default of [shouldRefreshToken]:
    [const statusCode = error?.response ? error.response.status
                                        : "Network Error";
     return (statusCode === 401 || statusCode === "Network Error")
            && !!getAuthToken();] *)
Definition default_shouldRefreshToken (getAuthToken : Callback U Token)
    (error : AxiosError) (originalRequest : Request) : Callback U bool :=
  fun h =>
    let statusCode : option Z :=
      match response error with
      | Some r => Some (status r)
      | None => None (* "Network Error" *)
      end in
    if match statusCode with
       | Some c => (c =? 401)%Z
       | None => true
       end
    then
      match getAuthToken h with
      | (inr token, h') => (inr (truthy token), h')
      | (inl t, h') => (inl t, h')
      end
    else (inr false, h).

(** [(status) => { console.log(`Token refresh status: ${status}`); }] *)
Definition default_onStatusChange (status : Status.t) (_ : option Error)
  : Callback U unit :=
  fun h =>
    (inr tt,
     console_write ("Token refresh status: " +:+ Status.to_string status) h).

(** [(token) => `Bearer ${token}`] *)
Definition default_authHeaderFormatter (token : string) : Callback U string :=
  fun h => (inr ("Bearer " +:+ token), h).

Definition default_refreshTimeout : N := 10000.

(** Destructuring with defaults, then the two [typeof] checks. *)
Definition resolve_options (o : RawOptions U) : Error + Options U :=
  match raw_refreshTokenFn o with
  | js_other _ => inl (mkError "refreshTokenFn must be a function" None)
  | js_function refreshTokenFn =>
    match raw_getAuthToken o with
    | js_other _ => inl (mkError "getAuthToken must be a function" None)
    | js_function getAuthToken =>
      inr {| refreshTokenFn := refreshTokenFn;
             getAuthToken := getAuthToken;
             shouldRefreshToken :=
               default (default_shouldRefreshToken getAuthToken)
                       (raw_shouldRefreshToken o);
             onStatusChange :=
               default default_onStatusChange (raw_onStatusChange o);
             authHeaderFormatter :=
               default default_authHeaderFormatter
                       (raw_authHeaderFormatter o);
             refreshTimeout :=
               default default_refreshTimeout (raw_refreshTimeout o) |}
    end
  end.

Definition initial_closure : Closure :=
  {| pendingRequests := []; isRefreshing := false; refreshPromise := None |}.
End Plugin.

(** ** The response interceptor *)

(** How the [try] block of the interceptor is left when it does not throw:
    by [return retryPromise], by parking at [await refreshPromise], or by
    falling out of the [if]. *)
Inductive TryExit : Type :=
| ReturnsRetryPromise (retryPromise : PromiseId)
| Suspends
| FallsThrough.

Section Interceptor.
Context {U : Type}.
Variable cfg : Options U.

(** [onStatusChange(status, error)]; the call is recorded before the
    observer runs. *)
Definition notify (status : Status.t) (error : option Error) : M U unit :=
  modify (fun w => set_notified (notified w ++ [(status, error)]) w) ;;;
  call (onStatusChange cfg status error).

(** [refreshTokenFn()], counted. *)
Definition call_refreshTokenFn : M U unit :=
  modify (fun w => set_refreshCalls (S (refreshCalls w)) w) ;;;
  call (refreshTokenFn cfg).

(** [const newToken = await refreshPromise]: the settled race gives its
    value or throws its reason. *)
Definition await (settled : Res Token) : M U Token :=
  match settled with
  | inr newToken => ret newToken
  | inl reason => throw reason
  end.

(** The body of [pendingRequests.forEach(({ request, resolve }) => ...)]. *)
Definition replay_entry (newToken : Token) (entry : PendingRequest)
  : M U unit :=
  (if truthy newToken then
     match newToken with
     | Some token =>
       let* value := call (authHeaderFormatter cfg token) in
       update_request (request entry) (set_header "Authorization" value)
     | None => ret tt
     end
   else ret tt) ;;;
  let* replay := axios (request entry) in
  resolve (promise entry) replay.

(** The rest of the inner [try] block after the [await]. *)
Definition fanOutSuccess (newToken : Token) : M U unit :=
  notify Status.success None ;;;
  let* pending := gets (fun w => pendingRequests (closure w)) in
  forEach pending (replay_entry newToken) ;;;
  update_closure (set_pendingRequests []).

(** The body of [pendingRequests.forEach(({ reject }) => ...)] in the inner
    [catch]. *)
Definition reject_entry (error : Error) (entry : PendingRequest) : M U unit :=
  let refreshFailedError := mkError "Token refresh failed" (Some error) in
  reject (promise entry) refreshFailedError.

(** [catch (refreshError) { ... }] *)
Definition fanOutFailure (refreshError : Thrown) : M U unit :=
  let error := asError refreshError "Token refresh failed" in
  notify Status.failed (Some error) ;;;
  let* pending := gets (fun w => pendingRequests (closure w)) in
  forEach pending (reject_entry error) ;;;
  update_closure (set_pendingRequests []).

(** [finally { isRefreshing = false; refreshPromise = null; }] *)
Definition finallyReset : M U unit :=
  update_closure (set_isRefreshing false) ;;;
  update_closure (set_refreshPromise None).

(** [catch (interceptorError) { ... }] *)
Definition interceptorCatch (interceptorError : Thrown) : M U unit :=
  let error :=
    asError interceptorError "Unknown error in refresh token interceptor" in
  console_error ("Error in refresh token interceptor: " +:+ message error) ;;;
  let* refreshing := gets (fun w => isRefreshing (closure w)) in
  if refreshing then
    notify Status.error (Some error) ;;;
    let* pending := gets (fun w => pendingRequests (closure w)) in
    forEach pending (fun entry => reject (promise entry) error) ;;;
    update_closure (set_pendingRequests []) ;;;
    update_closure (set_isRefreshing false) ;;;
    update_closure (set_refreshPromise None)
  else ret tt.

(** After the outer [try]/[catch]: [return retryPromise] has already
    returned, everything else reaches [return Promise.reject(error)]. *)
Definition epilogue (error : AxiosError) (exit : TryExit) : option Outcome :=
  match exit with
  | ReturnsRetryPromise retryPromise => Some (ReturnRetryPromise retryPromise)
  | Suspends => None
  | FallsThrough => Some (RejectOriginal error)
  end.

(** The outer [try] block up to [await refreshPromise]. *)
Definition tryBlock (error : AxiosError) (originalRequest : ReqRef)
  : M U TryExit :=
  let* config := gets (fun w => requests w originalRequest) in
  let* should := call (shouldRefreshToken cfg error config) in
  if should && negb (_retry config) then
    update_request originalRequest mark_retry ;;;
    let* retryPromise := new_promise in
    update_closure (fun c =>
      set_pendingRequests
        (pendingRequests c ++
           [{| request := originalRequest; promise := retryPromise |}]) c) ;;;
    let* refreshing := gets (fun w => isRefreshing (closure w)) in
    if negb refreshing then
      update_closure (set_isRefreshing true) ;;;
      notify Status.refreshing None ;;;
      let* timeoutPromise := new_timeoutPromise (refreshTimeout cfg) in
      call_refreshTokenFn ;;;
      update_closure (set_refreshPromise (Some timeoutPromise)) ;;;
      park timeoutPromise
        {| f_error := error; f_originalRequest := originalRequest;
           f_retryPromise := retryPromise |} ;;;
      ret Suspends
    else ret (ReturnsRetryPromise retryPromise)
  else ret FallsThrough.

(** [async (error) => { ... }], from its entry to the [await] or to a
    [return]; [None] when it parks at the [await]. *)
Definition onRejected (error : AxiosError) : M U (option Outcome) :=
  match config error with
  | None => ret (Some (RejectOriginal error))
  | Some originalRequest =>
    let* exit :=
      try_catch (tryBlock error originalRequest)
        (fun interceptorError =>
           interceptorCatch interceptorError ;;; ret FallsThrough) in
    ret (epilogue error exit)
  end.

(** The same function from the settlement of the awaited race on. *)
Definition onRejected_resume (fr : Frame) (settled : Res Token)
  : M U (option Outcome) :=
  let* exit :=
    try_catch
      (try_catch_finally
         (let* newToken := await settled in fanOutSuccess newToken)
         fanOutFailure
         finallyReset ;;;
       ret (ReturnsRetryPromise (f_retryPromise fr)))
      (fun interceptorError =>
         interceptorCatch interceptorError ;;; ret FallsThrough) in
  ret (epilogue (f_error fr) exit).

(** [(response) => response] *)
Definition onFulfilled (response : Response) : Response := response.

(** ** The event loop *)

Inductive Event : Type :=
| ResponseError (error : AxiosError)
| RefreshSettled (s : nat) (settled : Res Token)
| TimeoutFired (s : nat)
| Elapse (ms : N).

(** The promise of an invocation of the [async] function settles when the
    function returns or throws; nothing is handed back while it is parked. *)
Definition deliver (error : AxiosError)
    (r : Res (option Outcome) * World U) : World U :=
  match r with
  | (inl t, w) => set_returned (returned w ++ [(error, Uncaught t)]) w
  | (inr (Some o), w) => set_returned (returned w ++ [(error, o)]) w
  | (inr None, w) => w
  end.

(** The race of session [s] settles: the invocation parked on it, if any,
    runs on.  A race settles once; later settlements find no waiter. *)
Definition wake (s : nat) (settled : Res Token) (w : World U) : World U :=
  match sessions w !! s with
  | Some {| deadline := d; waiter := Some fr |} =>
    deliver (f_error fr)
      (onRejected_resume fr settled
         (set_sessions
            (<[s := {| deadline := d; waiter := None |}]> (sessions w)) w))
  | _ => w
  end.

Definition timeoutError : Thrown :=
  ThrownError (mkError "Token refresh timeout" None).

Definition step (ev : Event) (w : World U) : World U :=
  match ev with
  | ResponseError error => deliver error (onRejected error w)
  | RefreshSettled s settled => wake s settled w
  | TimeoutFired s =>
    match sessions w !! s with
    | Some x =>
      if (deadline x <=? now w)%N then wake s (inl timeoutError) w else w
    | None => w
    end
  | Elapse ms => set_now (now w + ms)%N w
  end.

Definition run (evs : list Event) (w : World U) : World U :=
  fold_left (fun w ev => step ev w) evs w.
End Interceptor.

(** ** The plugin *)

Section Constructor.
Context {U : Type}.

Record Interceptor : Type := {
  fulfilled : Response -> Response;
  rejected : AxiosError -> M U (option Outcome)
}.

(** [axios.interceptors.response]: the handlers registered by [use]. *)
Abbreviation AxiosInstance := (list Interceptor).

(** [(axios) => { axios.interceptors.response.use(..., ...) }] *)
Definition plugin (cfg : Options U) (instance : AxiosInstance)
  : AxiosInstance :=
  instance ++ [{| fulfilled := onFulfilled; rejected := onRejected cfg |}].

(** [createRefreshTokenPlugin(options)]: throws, or creates the closure
    variables and returns the plugin function. *)
Definition createRefreshTokenPlugin (options : RawOptions U)
  : Error + (Closure * (AxiosInstance -> AxiosInstance)) :=
  match resolve_options options with
  | inl e => inl e
  | inr cfg => inr (initial_closure, plugin cfg)
  end.
End Constructor.

(** ** Conditions on the caller's callbacks and on arriving failures *)

Section Conditions.
Context {U : Type}.
Variable cfg : Options U.

(** The classifier returns [b] for this failure, whatever the host's
    state. *)
Definition classifier_returns (b : bool) (error : AxiosError)
    (config : Request) : Prop :=
  forall h, exists h', shouldRefreshToken cfg error config h = (inr b, h').

(** The status observer returns normally when notified of [status]. *)
Definition observer_returns (status : Status.t) : Prop :=
  forall error h, exists h', onStatusChange cfg status error h = (inr tt, h').

(** The header formatter computes [fmt]. *)
Definition formatter_is (fmt : string -> string) : Prop :=
  forall token h,
    exists h', authHeaderFormatter cfg token h = (inr (fmt token), h').

(** The renewal operation hands back its promise (it does not throw
    before that). *)
Definition renewal_starts : Prop :=
  forall h, exists h', refreshTokenFn cfg h = (inr tt, h').

(** A failure the interceptor takes in: it has a request description that is
    not marked retried and the classifier returns [true] for it. *)
Definition eligible (w : World U) (error : AxiosError) : Prop :=
  exists r, config error = Some r /\ _retry (requests w r) = false /\
            classifier_returns true error (requests w r).

(** The retry promises of the entries of the wait set. *)
Definition pending_promises (w : World U) : list PromiseId :=
  map promise (pendingRequests (closure w)).

(** Every entry of the wait set has a promise of its own, still pending. *)
Definition waiting (w : World U) : Prop :=
  NoDup (pending_promises w) /\
  forall p, p ∈ pending_promises w -> promises w !! p = Some Pending.

(** The rejection the inner [catch] hands to each waiting request. *)
Definition refreshFailedError (reason : Thrown) : Error :=
  mkError "Token refresh failed"
    (Some (asError reason "Token refresh failed")).

(** The error the interceptor's [catch] works with. *)
Definition interceptorError (t : Thrown) : Error :=
  asError t "Unknown error in refresh token interceptor".

(** The classifier is a predicate: it returns a boolean and never
    throws. *)
Definition classifier_total : Prop :=
  forall error config h,
    exists b h', shouldRefreshToken cfg error config h = (inr b, h').

(** A renewal is in flight: the flag is set, the initiator [fr] is parked on
    the race of session [s], and the wait set is well formed. *)
Definition in_flight (s : nat) (fr : Frame) (w : World U) : Prop :=
  isRefreshing (closure w) = true /\
  (exists d, sessions w !! s = Some {| deadline := d; waiter := Some fr |}) /\
  waiting w.

(** Events of the environment that are not settlements: a failed call
    arrives, or time passes. *)
Definition arrival (ev : Event) : Prop :=
  match ev with
  | ResponseError _ | Elapse _ => True
  | RefreshSettled _ _ | TimeoutFired _ => False
  end.

(** The renewal can no longer settle: the flag is set and no invocation is
    parked on any race. *)
Definition stranded (w : World U) : Prop :=
  isRefreshing (closure w) = true /\
  forall s x, sessions w !! s = Some x -> waiter x = None.

(** The event that settles the race of session [s] with [settled]: the
    renewal operation's promise settles, or the timer fires when due. *)
Definition settles (w : World U) (s : nat) (settled : Res Token)
    (ev : Event) : Prop :=
  ev = RefreshSettled s settled \/
  (ev = TimeoutFired s /\ settled = inl timeoutError /\
   exists x, sessions w !! s = Some x /\ (deadline x <= now w)%N).
End Conditions.

(** The promises after the settler calls [calls], in order. *)
Fixpoint settle_all (calls : list (PromiseId * Settle))
    (ps : list PromiseState) : list PromiseState :=
  match calls with
  | [] => ps
  | (p, s) :: calls' => settle_all calls' (settle_promise p (state_of s) ps)
  end.

(** The settler calls of the two fan-outs over the wait set [l]: every
    entry rejected with [reason]; the entry at index [i] resolved with the
    replay number [n + i]. *)
Definition reject_calls (reason : Error) (l : list PendingRequest)
  : list (PromiseId * Settle) :=
  map (fun e => (promise e, CallReject reason)) l.

Fixpoint resolve_calls (n : nat) (l : list PendingRequest)
  : list (PromiseId * Settle) :=
  match l with
  | [] => []
  | e :: l' => (promise e, CallResolve n) :: resolve_calls (S n) l'
  end.

(** What the success fan-out does to the request objects and what it
    hands to the transport, when the header value is [value] ([None] when
    the new token is falsy and no header is written). *)
Definition rewrite_request (value : option string) (r : ReqRef)
    (heap : ReqRef -> Request) : ReqRef -> Request :=
  match value with
  | Some v => store_request r (set_header "Authorization" v) heap
  | None => heap
  end.

Fixpoint replayed_requests (value : option string)
    (l : list PendingRequest) (heap : ReqRef -> Request)
  : ReqRef -> Request :=
  match l with
  | [] => heap
  | e :: l' =>
    replayed_requests value l' (rewrite_request value (request e) heap)
  end.

Fixpoint replay_log (value : option string) (l : list PendingRequest)
    (heap : ReqRef -> Request) : list Replay :=
  match l with
  | [] => []
  | e :: l' =>
    let heap' := rewrite_request value (request e) heap in
    {| replayed := request e; sent := heap' (request e) |}
      :: replay_log value l' heap'
  end.

(** The header value the success fan-out writes: the formatted token when
    the token is truthy, none otherwise. *)
Definition header_value (fmt : string -> string) (newToken : Token)
  : option string :=
  if truthy newToken then fmt <$> newToken else None.

(** The world after the failures [errors] have arrived, one after the
    other, and [ms] milliseconds have passed since. *)
Definition arrived {U} (cfg : Options U) (errors : list AxiosError) (ms : N)
    (w : World U) : World U :=
  step cfg (Elapse ms) (run cfg (map ResponseError errors) w).

(** The two halves of the default policy. *)
Definition status_401_or_no_response (error : AxiosError) : Prop :=
  (exists r, response error = Some r /\ status r = 401%Z) \/
  response error = None.

Definition holds_credential {U} (getAuthToken : Callback U Token)
    (h : Host U) : Prop :=
  exists token, fst (getAuthToken h) = inr token /\ truthy token = true.

(** ** The earlier version of the module

    The options of the version without [authHeaderFormatter] and
    [refreshTimeout], and its destructuring with the same two [typeof]
    checks.  Its default classifier ends in [&& getAuthToken()], so it
    returns the token itself where the later one returns a boolean. *)
Module Legacy.
Section Legacy.
Context {U : Type}.

Record Options : Type := {
  refreshTokenFn : Callback U unit;
  getAuthToken : Callback U Token;
  shouldRefreshToken : AxiosError -> Callback U Token;
  onStatusChange : Status.t -> Callback U unit
}.

Record RawOptions : Type := {
  raw_refreshTokenFn : JsValue (Callback U unit);
  raw_getAuthToken : JsValue (Callback U Token);
  raw_shouldRefreshToken : option (AxiosError -> Callback U Token);
  raw_onStatusChange : option (Status.t -> Callback U unit)
}.

(** [(statusCode === 401 || statusCode === "Network Error")
     && getAuthToken()]; a [false] left operand is rendered as [null]. *)
Definition default_shouldRefreshToken (getAuthToken : Callback U Token)
    (error : AxiosError) : Callback U Token :=
  fun h =>
    if match response error with
       | Some r => (status r =? 401)%Z
       | None => true
       end
    then getAuthToken h
    else (inr None, h).

Definition default_onStatusChange (status : Status.t) : Callback U unit :=
  fun h =>
    (inr tt,
     console_write ("Token refresh status: " +:+ Status.to_string status) h).

Definition resolve_options (o : RawOptions) : Error + Options :=
  match raw_refreshTokenFn o with
  | js_other _ => inl (mkError "refreshTokenFn must be a function" None)
  | js_function refreshTokenFn =>
    match raw_getAuthToken o with
    | js_other _ => inl (mkError "getAuthToken must be a function" None)
    | js_function getAuthToken =>
      inr {| refreshTokenFn := refreshTokenFn;
             getAuthToken := getAuthToken;
             shouldRefreshToken :=
               default (default_shouldRefreshToken getAuthToken)
                       (raw_shouldRefreshToken o);
             onStatusChange :=
               default default_onStatusChange (raw_onStatusChange o) |}
    end
  end.
End Legacy.
Arguments Options : clear implicits.
Arguments RawOptions : clear implicits.
End Legacy.

(** ** A concrete setting

    One plugin with the default classifier, observer, formatter and
    timeout, a credential in hand and a renewal operation that hands back
    its promise; an idle world in which no request is marked; and failures
    with status 401. *)

Definition example_request : Request :=
  {| _retry := false; headers := ∅; url := "/api/items" |}.

Definition example_host : Host unit := {| console := []; user := tt |}.

Definition example_world : World unit :=
  {| closure := initial_closure;
     requests := fun _ => example_request;
     promises := [];
     host := example_host;
     now := 0%N;
     sessions := [];
     notified := [];
     refreshCalls := 0;
     replays := [];
     settlements := [];
     returned := [] |}.

Definition example_refreshTokenFn : Callback unit unit :=
  fun h => (inr tt, h).

Definition example_getAuthToken : Callback unit Token :=
  fun h => (inr (Some "old-token"), h).

Definition example_raw : RawOptions unit :=
  {| raw_refreshTokenFn := js_function example_refreshTokenFn;
     raw_getAuthToken := js_function example_getAuthToken;
     raw_shouldRefreshToken := None;
     raw_onStatusChange := None;
     raw_authHeaderFormatter := None;
     raw_refreshTimeout := None |}.

Definition example_options : Options unit :=
  {| refreshTokenFn := example_refreshTokenFn;
     getAuthToken := example_getAuthToken;
     shouldRefreshToken := default_shouldRefreshToken example_getAuthToken;
     onStatusChange := default_onStatusChange;
     authHeaderFormatter := default_authHeaderFormatter;
     refreshTimeout := default_refreshTimeout |}.

Definition unauthorized (r : ReqRef) : AxiosError :=
  {| config := Some r;
     response := Some {| status := 401 |};
     code := "ERR_BAD_REQUEST" |}.

Definition example_frame : Frame :=
  {| f_error := unauthorized 0; f_originalRequest := 0;
     f_retryPromise := 0 |}.

(** The world once the failure of request 0 has started a renewal. *)
Definition renewing_world : World unit :=
  step example_options (ResponseError (unauthorized 0)) example_world.

(** Observers that throw: on every notification, and on [refreshing]
    only. *)
Definition observer_failure : Error := mkError "observer failed" None.

Definition throwing_onStatusChange (status : Status.t) (_ : option Error)
  : Callback unit unit :=
  fun h => (inl (ThrownError observer_failure), h).

Definition throwing_options : Options unit :=
  {| refreshTokenFn := example_refreshTokenFn;
     getAuthToken := example_getAuthToken;
     shouldRefreshToken := default_shouldRefreshToken example_getAuthToken;
     onStatusChange := throwing_onStatusChange;
     authHeaderFormatter := default_authHeaderFormatter;
     refreshTimeout := default_refreshTimeout |}.

Definition nervous_onStatusChange (status : Status.t) (_ : option Error)
  : Callback unit unit :=
  fun h =>
    match status with
    | Status.refreshing => (inl (ThrownError observer_failure), h)
    | _ => (inr tt, h)
    end.

Definition nervous_options : Options unit :=
  {| refreshTokenFn := example_refreshTokenFn;
     getAuthToken := example_getAuthToken;
     shouldRefreshToken := default_shouldRefreshToken example_getAuthToken;
     onStatusChange := nervous_onStatusChange;
     authHeaderFormatter := default_authHeaderFormatter;
     refreshTimeout := default_refreshTimeout |}.

(** A failure with status 500, and the world once the timer of the renewal
    started for request 0 is due. *)
Definition server_error (r : ReqRef) : AxiosError :=
  {| config := Some r;
     response := Some {| status := 500 |};
     code := "ERR_BAD_RESPONSE" |}.

Definition overdue_world : World unit :=
  step example_options (Elapse 10000) renewing_world.

(** The world in which the [try] block of the plugin with the observer that
    throws on [refreshing] is left, for the failure of request 0. *)
Definition nervous_world : World unit :=
  snd (tryBlock nervous_options (unauthorized 0) 0 example_world).

(** The world after a call failed with status 401 under the observer that
    always throws. *)
Definition stranded_world : World unit :=
  step throwing_options (ResponseError (unauthorized 0)) example_world.

(** An observer that throws when it is told [failed], the plugin that uses
    it, and a run in which two calls fail and the renewal rejects. *)
Definition sulking_onStatusChange (status : Status.t) (_ : option Error)
  : Callback unit unit :=
  fun h =>
    match status with
    | Status.failed => (inl (ThrownError observer_failure), h)
    | _ => (inr tt, h)
    end.

Definition sulking_options : Options unit :=
  {| refreshTokenFn := example_refreshTokenFn;
     getAuthToken := example_getAuthToken;
     shouldRefreshToken := default_shouldRefreshToken example_getAuthToken;
     onStatusChange := sulking_onStatusChange;
     authHeaderFormatter := default_authHeaderFormatter;
     refreshTimeout := default_refreshTimeout |}.

Definition sulking_world : World unit :=
  run sulking_options
    [ResponseError (unauthorized 0); ResponseError (unauthorized 1);
     RefreshSettled 0 (inl (ThrownError (mkError "refresh rejected" None)))]
    example_world.

(** ** Relations and invariants over the whole run *)

(** A computation respects [R] when the world it leaves is related to the
    world it started in, however it completes. *)
Definition respects {U A} (R : World U -> World U -> Prop) (m : M U A)
  : Prop :=
  forall w, R w (snd (m w)).

(** The [_retry] marks only accumulate. *)
Definition marks_kept {U} (w w' : World U) : Prop :=
  forall r, _retry (requests w r) = true -> _retry (requests w' r) = true.

(** The races that exist keep their timer, and a race nobody waits on stays
    that way. *)
Definition races_kept {U} (w w' : World U) : Prop :=
  forall s d, sessions w !! s = Some {| deadline := d; waiter := None |} ->
              sessions w' !! s = Some {| deadline := d; waiter := None |}.

(** The wait set is in order: its entries are for distinct requests, each
    marked retried, and hold distinct promises that exist. *)
Definition wait_set_ok {U} (w : World U) : Prop :=
  NoDup (map request (pendingRequests (closure w))) /\
  NoDup (map promise (pendingRequests (closure w))) /\
  forall e, e ∈ pendingRequests (closure w) ->
    _retry (requests w (request e)) = true /\
    promise e < length (promises w).

(** ** More of the concrete setting

    An observer that throws when it is told [success], and a classifier
    that throws on a failure with status 500 and follows the default policy
    otherwise; the plugins that use them, and the worlds once the failure
    of request 0 has started a renewal under each. *)

Definition touchy_onStatusChange (status : Status.t) (_ : option Error)
  : Callback unit unit :=
  fun h =>
    match status with
    | Status.success => (inl (ThrownError observer_failure), h)
    | _ => (inr tt, h)
    end.

Definition touchy_options : Options unit :=
  {| refreshTokenFn := example_refreshTokenFn;
     getAuthToken := example_getAuthToken;
     shouldRefreshToken := default_shouldRefreshToken example_getAuthToken;
     onStatusChange := touchy_onStatusChange;
     authHeaderFormatter := default_authHeaderFormatter;
     refreshTimeout := default_refreshTimeout |}.

Definition touchy_world : World unit :=
  step touchy_options (ResponseError (unauthorized 0)) example_world.

Definition classifier_failure : Error := mkError "classifier failed" None.

Definition picky_shouldRefreshToken (error : AxiosError)
    (originalRequest : Request) : Callback unit bool :=
  fun h =>
    if match response error with
       | Some r => (status r =? 500)%Z
       | None => false
       end
    then (inl (ThrownError classifier_failure), h)
    else default_shouldRefreshToken example_getAuthToken error
           originalRequest h.

Definition picky_options : Options unit :=
  {| refreshTokenFn := example_refreshTokenFn;
     getAuthToken := example_getAuthToken;
     shouldRefreshToken := picky_shouldRefreshToken;
     onStatusChange := default_onStatusChange;
     authHeaderFormatter := default_authHeaderFormatter;
     refreshTimeout := default_refreshTimeout |}.

Definition picky_world : World unit :=
  step picky_options (ResponseError (unauthorized 0)) example_world.

(** ** The interceptor of the earlier version

    The earlier version keeps a [WeakMap] of pending marks and an array of
    tracked requests; the call that starts the renewal replays the tracked
    requests itself, and a call that arrives meanwhile returns a promise
    that looks at the flag every 100 ms. *)
Module LegacyPlugin.
Section LegacyPlugin.
Context {U : Type}.

(** The promise a joining call returns, with its [setInterval] timer:
    polling until the timer's callback settles it, with [resolve()] or
    with [reject(error)]. *)
Inductive PollState : Type :=
| Polling
| PollResolved
| PollRejected (error : AxiosError).

Record Poll : Type := {
  poll_request : ReqRef;
  poll_error : AxiosError;
  poll_state : PollState;
  poll_due : N
}.

(** What an invocation hands back: the promise of the replay of its own
    request ([return axios(request)]), its polling promise, or a
    rejection. *)
Inductive Outcome : Type :=
| ReturnReplay (replay : nat)
| ReturnPoll (poll : nat)
| RejectOriginal (error : AxiosError)
| Uncaught (t : Thrown).

(** The locals of an invocation parked at [await refreshTokenFn()]. *)
Record Frame : Type := {
  f_error : AxiosError;
  f_originalRequest : ReqRef
}.

Record World : Type := {
  pendingRequests : gmap ReqRef bool;
  requestTracker : list ReqRef;
  isRefreshing : bool;
  requests : ReqRef -> Request;
  polls : list Poll;
  host : Host U;
  now : N;
  parked : list (option Frame);
  notified : list Status.t;
  refreshCalls : nat;
  replays : list Replay;
  returned : list (AxiosError * Outcome)
}.

Definition set_pendingRequests (x : gmap ReqRef bool) (w : World) : World :=
    {| pendingRequests := x; requestTracker := requestTracker w;
       isRefreshing := isRefreshing w; requests := requests w;
       polls := polls w; host := host w; now := now w; parked := parked w;
       notified := notified w; refreshCalls := refreshCalls w;
       replays := replays w; returned := returned w |}.

Definition set_requestTracker (x : list ReqRef) (w : World) : World :=
    {| pendingRequests := pendingRequests w; requestTracker := x;
       isRefreshing := isRefreshing w; requests := requests w;
       polls := polls w; host := host w; now := now w; parked := parked w;
       notified := notified w; refreshCalls := refreshCalls w;
       replays := replays w; returned := returned w |}.

Definition set_isRefreshing (x : bool) (w : World) : World :=
    {| pendingRequests := pendingRequests w;
       requestTracker := requestTracker w; isRefreshing := x;
       requests := requests w; polls := polls w; host := host w;
       now := now w; parked := parked w; notified := notified w;
       refreshCalls := refreshCalls w; replays := replays w;
       returned := returned w |}.

Definition set_requests (x : ReqRef -> Request) (w : World) : World :=
    {| pendingRequests := pendingRequests w;
       requestTracker := requestTracker w; isRefreshing := isRefreshing w;
       requests := x; polls := polls w; host := host w; now := now w;
       parked := parked w; notified := notified w;
       refreshCalls := refreshCalls w; replays := replays w;
       returned := returned w |}.

Definition set_polls (x : list Poll) (w : World) : World :=
    {| pendingRequests := pendingRequests w;
       requestTracker := requestTracker w; isRefreshing := isRefreshing w;
       requests := requests w; polls := x; host := host w; now := now w;
       parked := parked w; notified := notified w;
       refreshCalls := refreshCalls w; replays := replays w;
       returned := returned w |}.

Definition set_host (x : Host U) (w : World) : World :=
    {| pendingRequests := pendingRequests w;
       requestTracker := requestTracker w; isRefreshing := isRefreshing w;
       requests := requests w; polls := polls w; host := x; now := now w;
       parked := parked w; notified := notified w;
       refreshCalls := refreshCalls w; replays := replays w;
       returned := returned w |}.

Definition set_now (x : N) (w : World) : World :=
    {| pendingRequests := pendingRequests w;
       requestTracker := requestTracker w; isRefreshing := isRefreshing w;
       requests := requests w; polls := polls w; host := host w; now := x;
       parked := parked w; notified := notified w;
       refreshCalls := refreshCalls w; replays := replays w;
       returned := returned w |}.

Definition set_parked (x : list (option Frame)) (w : World) : World :=
    {| pendingRequests := pendingRequests w;
       requestTracker := requestTracker w; isRefreshing := isRefreshing w;
       requests := requests w; polls := polls w; host := host w;
       now := now w; parked := x; notified := notified w;
       refreshCalls := refreshCalls w; replays := replays w;
       returned := returned w |}.

Definition set_notified (x : list Status.t) (w : World) : World :=
    {| pendingRequests := pendingRequests w;
       requestTracker := requestTracker w; isRefreshing := isRefreshing w;
       requests := requests w; polls := polls w; host := host w;
       now := now w; parked := parked w; notified := x;
       refreshCalls := refreshCalls w; replays := replays w;
       returned := returned w |}.

Definition set_refreshCalls (x : nat) (w : World) : World :=
    {| pendingRequests := pendingRequests w;
       requestTracker := requestTracker w; isRefreshing := isRefreshing w;
       requests := requests w; polls := polls w; host := host w;
       now := now w; parked := parked w; notified := notified w;
       refreshCalls := x; replays := replays w; returned := returned w |}.

Definition set_replays (x : list Replay) (w : World) : World :=
    {| pendingRequests := pendingRequests w;
       requestTracker := requestTracker w; isRefreshing := isRefreshing w;
       requests := requests w; polls := polls w; host := host w;
       now := now w; parked := parked w; notified := notified w;
       refreshCalls := refreshCalls w; replays := x;
       returned := returned w |}.

Definition set_returned (x : list (AxiosError * Outcome)) (w : World) : World :=
    {| pendingRequests := pendingRequests w;
       requestTracker := requestTracker w; isRefreshing := isRefreshing w;
       requests := requests w; polls := polls w; host := host w;
       now := now w; parked := parked w; notified := notified w;
       refreshCalls := refreshCalls w; replays := replays w;
       returned := x |}.

Definition M (A : Type) : Type := World -> Res A * World.

Definition ret {A} (a : A) : M A := fun w => (inr a, w).

Definition throw {A} (t : Thrown) : M A := fun w => (inl t, w).

Definition bind {A B} (m : M A) (k : A -> M B) : M B :=
  fun w =>
    match m w with
    | (inl t, w1) => (inl t, w1)
    | (inr a, w1) => k a w1
    end.

Definition try_catch {A} (body : M A) (handler : Thrown -> M A) : M A :=
  fun w =>
    match body w with
    | (inl t, w1) => handler t w1
    | (inr a, w1) => (inr a, w1)
    end.

Definition try_catch_finally {A} (body : M A) (handler : Thrown -> M A)
    (final : M unit) : M A :=
  fun w =>
    let (r, w1) := try_catch body handler w in
    match final w1 with
    | (inl t, w2) => (inl t, w2)
    | (inr _, w2) => (r, w2)
    end.

Definition gets {A} (f : World -> A) : M A := fun w => (inr (f w), w).

Definition modify (f : World -> World) : M unit := fun w => (inr tt, f w).

Definition call {A} (f : Callback U A) : M A :=
  fun w => let (r, h) := f (host w) in (r, set_host h w).

Declare Scope legacy_scope.
Notation "'let*' x := m 'in' k" := (bind m (fun x => k))
  (at level 10, x name, m at level 100, k at level 200) : legacy_scope.
Notation "m ;;; k" := (bind m (fun _ => k))
  (at level 100, k at level 200, right associativity) : legacy_scope.
Open Scope legacy_scope.

Variable cfg : Legacy.Options U.

(** [onStatusChange(status)] *)
Definition notify (status : Status.t) : M unit :=
  modify (fun w => set_notified (notified w ++ [status]) w) ;;;
  call (Legacy.onStatusChange cfg status).

(** [refreshTokenFn()], counted. *)
Definition call_refreshTokenFn : M unit :=
  modify (fun w => set_refreshCalls (S (refreshCalls w)) w) ;;;
  call (Legacy.refreshTokenFn cfg).

Definition await (settled : Res Token) : M Token :=
  match settled with
  | inr newToken => ret newToken
  | inl reason => throw reason
  end.

(** [pendingRequests.get(request)], as a condition. *)
Definition pending_get (r : ReqRef) (marks : gmap ReqRef bool) : bool :=
  default false (marks !! r).

Definition update_request (r : ReqRef) (f : Request -> Request) : M unit :=
  modify (fun w => set_requests (store_request r f (requests w)) w).

(** [axios(request)] *)
Definition axios (r : ReqRef) : M nat :=
  fun w => (inr (length (replays w)),
            set_replays
              (replays w ++ [{| replayed := r; sent := requests w r |}]) w).

(** [requestTracker.forEach((request) => pendingRequests.delete(request));
    requestTracker.length = 0;] *)
Definition forget_tracked : M unit :=
  modify (fun w =>
    set_requestTracker []
      (set_pendingRequests
         (fold_left (fun marks r => delete r marks) (requestTracker w)
            (pendingRequests w)) w)).

(** [for (let i = requestTracker.length - 1; i >= 0; i--) { ... }], with
    [n] for [i + 1]; [Some] when the loop is left by
    [return axios(request)]. *)
Fixpoint replay_loop (originalRequest : ReqRef) (newToken : Token) (n : nat)
  : M (option nat) :=
  match n with
  | 0 => ret None
  | S i =>
    let* tracker := gets requestTracker in
    match tracker !! i with
    | Some request =>
      let* marks := gets pendingRequests in
      if pending_get request marks then
        (if truthy newToken then
           match newToken with
           | Some token =>
             update_request request
               (set_header "Authorization" ("Bearer " +:+ token))
           | None => ret tt
           end
         else ret tt) ;;;
        modify (fun w =>
          set_pendingRequests (delete request (pendingRequests w)) w) ;;;
        modify (fun w =>
          set_requestTracker (delete i (requestTracker w)) w) ;;;
        if decide (request = originalRequest) then
          let* replay := axios request in ret (Some replay)
        else
          axios request ;;; replay_loop originalRequest newToken i
      else replay_loop originalRequest newToken i
    | None => replay_loop originalRequest newToken i
    end
  end.

(** [catch (refreshError) { ... }] *)
Definition refreshCatch (refreshError : Thrown) : M (option nat) :=
  notify Status.failed ;;;
  forget_tracked ;;;
  ret None.

(** [finally { isRefreshing = false; }] *)
Definition finallyReset : M unit :=
  modify (set_isRefreshing false).

(** The inner [try]/[catch]/[finally] around a body. *)
Definition refreshTry (body : M (option nat)) : M (option nat) :=
  try_catch_finally body refreshCatch finallyReset.

(** What is thrown or rejected, as the console shows it. *)
Definition render (t : Thrown) : string :=
  match t with
  | ThrownError e => message e
  | ThrownValue v => v
  end.

(** [catch (interceptorError) { ... }] *)
Definition interceptorCatch (interceptorError : Thrown) : M unit :=
  modify (fun w =>
    set_host
      (console_write
         ("Error in refresh token interceptor: " +:+ render interceptorError)
         (host w)) w) ;;;
  let* refreshing := gets isRefreshing in
  if refreshing then
    notify Status.error ;;;
    forget_tracked ;;;
    modify (set_isRefreshing false)
  else ret tt.

(** [new Promise((resolve, reject) => { setInterval(..., 100) })] *)
Definition new_poll (r : ReqRef) (error : AxiosError) : M nat :=
  fun w => (inr (length (polls w)),
            set_polls
              (polls w ++
                 [{| poll_request := r; poll_error := error;
                     poll_state := Polling;
                     poll_due := (now w + 100)%N |}]) w).

Definition park (fr : Frame) : M unit :=
  modify (fun w => set_parked (parked w ++ [Some fr]) w).

(** How the outer [try] block is left when it does not throw. *)
Inductive TryExit : Type :=
| Returns (o : Outcome)
| Suspends
| FallsThrough.

Definition epilogue (error : AxiosError) (exit : TryExit) : option Outcome :=
  match exit with
  | Returns o => Some o
  | Suspends => None
  | FallsThrough => Some (RejectOriginal error)
  end.

(** Reading [_retry] of an [undefined] request description. *)
Definition retry_of_undefined : Thrown :=
  ThrownError
    (mkError "Cannot read properties of undefined (reading '_retry')" None).

(** The outer [try] block up to [await refreshTokenFn()].  A renewal
    operation that throws instead of handing back a promise is caught by
    the inner [catch] at once. *)
Definition tryBlock (error : AxiosError) : M TryExit :=
  let* should := call (Legacy.shouldRefreshToken cfg error) in
  if truthy should then
    match config error with
    | None => throw retry_of_undefined
    | Some originalRequest =>
      let* config := gets (fun w => requests w originalRequest) in
      if negb (_retry config) then
        modify (fun w =>
          set_pendingRequests
            (<[originalRequest := true]> (pendingRequests w)) w) ;;;
        modify (fun w =>
          set_requestTracker (requestTracker w ++ [originalRequest]) w) ;;;
        update_request originalRequest mark_retry ;;;
        let* refreshing := gets isRefreshing in
        if negb refreshing then
          modify (set_isRefreshing true) ;;;
          notify Status.refreshing ;;;
          let* thrown :=
            try_catch (call_refreshTokenFn ;;; ret None)
              (fun t => ret (Some t)) in
          match thrown with
          | None =>
            park {| f_error := error;
                    f_originalRequest := originalRequest |} ;;;
            ret Suspends
          | Some t => refreshTry (throw t) ;;; ret FallsThrough
          end
        else
          let* marks := gets pendingRequests in
          if pending_get originalRequest marks then
            let* poll := new_poll originalRequest error in
            ret (Returns (ReturnPoll poll))
          else ret FallsThrough
      else ret FallsThrough
    end
  else ret FallsThrough.

(** [async (error) => { ... }] up to the [await] or a [return]. *)
Definition onRejected (error : AxiosError) : M (option Outcome) :=
  let* exit :=
    try_catch (tryBlock error)
      (fun interceptorError =>
         interceptorCatch interceptorError ;;; ret FallsThrough) in
  ret (epilogue error exit).

(** The same function from the settlement of [refreshTokenFn()] on. *)
Definition onRejected_resume (fr : Frame) (settled : Res Token)
  : M (option Outcome) :=
  let* exit :=
    try_catch
      (let* left :=
         refreshTry
           (let* newToken := await settled in
            notify Status.success ;;;
            let* n := gets (fun w => length (requestTracker w)) in
            replay_loop (f_originalRequest fr) newToken n) in
       ret (match left with
            | Some replay => Returns (ReturnReplay replay)
            | None => FallsThrough
            end))
      (fun interceptorError =>
         interceptorCatch interceptorError ;;; ret FallsThrough) in
  ret (epilogue (f_error fr) exit).

(** The callback of a poll's [setInterval]. *)
Definition checkInterval (p : nat) (poll : Poll) (w : World) : World :=
  if negb (isRefreshing w) then
    if negb (pending_get (poll_request poll) (pendingRequests w)) then
      set_polls
        (<[p := {| poll_request := poll_request poll;
                   poll_error := poll_error poll;
                   poll_state := PollResolved;
                   poll_due := poll_due poll |}]> (polls w)) w
    else
      set_polls
        (<[p := {| poll_request := poll_request poll;
                   poll_error := poll_error poll;
                   poll_state := PollRejected (poll_error poll);
                   poll_due := poll_due poll |}]> (polls w))
        (set_pendingRequests
           (delete (poll_request poll) (pendingRequests w)) w)
  else
    set_polls
      (<[p := {| poll_request := poll_request poll;
                 poll_error := poll_error poll;
                 poll_state := Polling;
                 poll_due := (poll_due poll + 100)%N |}]> (polls w)) w.

(** *** The event loop *)

Inductive Event : Type :=
| ResponseError (error : AxiosError)
| RefreshSettled (s : nat) (settled : Res Token)
| PollTick (p : nat)
| Elapse (ms : N).

Definition deliver (error : AxiosError) (r : Res (option Outcome) * World)
  : World :=
  match r with
  | (inl t, w) => set_returned (returned w ++ [(error, Uncaught t)]) w
  | (inr (Some o), w) => set_returned (returned w ++ [(error, o)]) w
  | (inr None, w) => w
  end.

Definition step (ev : Event) (w : World) : World :=
  match ev with
  | ResponseError error => deliver error (onRejected error w)
  | RefreshSettled s settled =>
    match parked w !! s with
    | Some (Some fr) =>
      deliver (f_error fr)
        (onRejected_resume fr settled
           (set_parked (<[s := None]> (parked w)) w))
    | _ => w
    end
  | PollTick p =>
    match polls w !! p with
    | Some poll =>
      match poll_state poll with
      | Polling =>
        if (poll_due poll <=? now w)%N then checkInterval p poll w else w
      | _ => w
      end
    | None => w
    end
  | Elapse ms => set_now (now w + ms)%N w
  end.

Definition run (evs : list Event) (w : World) : World :=
  fold_left (fun w ev => step ev w) evs w.

(** *** Conditions on runs *)

(** The request description as the replay loop sends it: with the bearer
    header when the new token is truthy, as it was otherwise. *)
Definition bearer (newToken : Token) (q : Request) : Request :=
  match newToken with
  | Some token =>
    if truthy newToken
    then set_header "Authorization" ("Bearer " +:+ token) q
    else q
  | None => q
  end.

(** What the replay loop leaves alone. *)
Definition untouched_by_loop (w w' : World) : Prop :=
  isRefreshing w' = isRefreshing w /\ polls w' = polls w /\
  host w' = host w /\ now w' = now w /\ parked w' = parked w /\
  notified w' = notified w /\ refreshCalls w' = refreshCalls w /\
  returned w' = returned w.

(** The tracker holds no request twice, and what it holds carries the
    [_retry] mark. *)
Definition tracker_ok (w : World) : Prop :=
  NoDup (requestTracker w) /\
  forall r, r ∈ requestTracker w -> _retry (requests w r) = true.

(** Nothing was added to the tracker and no [_retry] mark was taken off. *)
Definition tracker_shrinks (w w' : World) : Prop :=
  requestTracker w' `sublist_of` requestTracker w /\
  forall r, _retry (requests w r) = true -> _retry (requests w' r) = true.

Definition keeps {A} (m : M A) : Prop :=
  forall w, tracker_shrinks w (snd (m w)).

Definition preserves {A} (m : M A) : Prop :=
  forall w, tracker_ok w -> tracker_ok (snd (m w)).
End LegacyPlugin.
Arguments World : clear implicits.
Arguments M : clear implicits.

(** *** A concrete setting

    The earlier plugin with its default classifier and observer, an idle
    world, the world once the failure of request 0 has started a renewal,
    the world once the failures of requests 1 and 2 have joined it, and a
    failure with status 401 that carries no request description. *)

Definition legacy_options : Legacy.Options unit :=
  {| Legacy.refreshTokenFn := example_refreshTokenFn;
     Legacy.getAuthToken := example_getAuthToken;
     Legacy.shouldRefreshToken :=
       Legacy.default_shouldRefreshToken example_getAuthToken;
     Legacy.onStatusChange := Legacy.default_onStatusChange |}.

Definition legacy_world : World unit :=
  {| pendingRequests := ∅;
     requestTracker := [];
     isRefreshing := false;
     requests := fun _ => example_request;
     polls := [];
     host := example_host;
     now := 0%N;
     parked := [];
     notified := [];
     refreshCalls := 0;
     replays := [];
     returned := [] |}.

Definition legacy_frame : Frame :=
  {| f_error := unauthorized 0; f_originalRequest := 0 |}.

Definition legacy_started_world : World unit :=
  step legacy_options (ResponseError (unauthorized 0)) legacy_world.

Definition legacy_crowded_world : World unit :=
  run legacy_options
    [ResponseError (unauthorized 1); ResponseError (unauthorized 2)]
    legacy_started_world.

Definition detached_unauthorized : AxiosError :=
  {| config := None;
     response := Some {| status := 401 |};
     code := "ERR_NETWORK" |}.

(** The earlier plugin with an observer that throws when it is told
    [failed], and the world once the failure of request 0 has started a
    renewal under it and the failure of request 1 has joined. *)
Definition legacy_sulking_onStatusChange (status : Status.t)
  : Callback unit unit :=
  fun h =>
    match status with
    | Status.failed => (inl (ThrownError observer_failure), h)
    | _ => (inr tt, h)
    end.

Definition legacy_sulking_options : Legacy.Options unit :=
  {| Legacy.refreshTokenFn := example_refreshTokenFn;
     Legacy.getAuthToken := example_getAuthToken;
     Legacy.shouldRefreshToken :=
       Legacy.default_shouldRefreshToken example_getAuthToken;
     Legacy.onStatusChange := legacy_sulking_onStatusChange |}.

Definition legacy_sulking_world : World unit :=
  run legacy_sulking_options
    [ResponseError (unauthorized 0); ResponseError (unauthorized 1)]
    legacy_world.
End LegacyPlugin.

(** * Properties *)

(** Closed facts about concrete runs are settled by evaluation. *)
Ltac by_computation := vm_compute; reflexivity.

(** ** Settling promises *)

Section Promises.
Implicit Type ps : list PromiseState.

Lemma state_of_settled s : state_of s <> Pending.
Proof. by destruct s. Qed.

Lemma settle_promise_length p s ps :
  length (settle_promise p s ps) = length ps.
Proof.
  unfold settle_promise. destruct (ps !! p) as [[]|]; try done.
  apply length_insert.
Qed.

Lemma settle_promise_other p q s ps :
  p <> q -> settle_promise p s ps !! q = ps !! q.
Proof.
  intros Hne. unfold settle_promise. destruct (ps !! p) as [[]|]; try done.
  by apply list_lookup_insert_ne.
Qed.

Lemma settle_promise_pending p s ps :
  ps !! p = Some Pending -> settle_promise p s ps !! p = Some s.
Proof.
  intros Hp. unfold settle_promise. rewrite Hp.
  apply list_lookup_insert_eq. by eapply lookup_lt_Some.
Qed.

(** A settler does nothing to a promise that is already settled. *)
Lemma settle_promise_settled p q s ps :
  ps !! q <> Some Pending -> settle_promise p s ps !! q = ps !! q.
Proof.
  intros Hq. destruct (decide (p = q)) as [->|Hne].
  - unfold settle_promise. destruct (ps !! q) as [[]|] eqn:E; done.
  - by apply settle_promise_other.
Qed.

Lemma settle_all_length calls ps : length (settle_all calls ps) = length ps.
Proof.
  revert ps. induction calls as [|[p s] calls IH]; intros ps; [done|].
  cbn. rewrite IH. apply settle_promise_length.
Qed.

Lemma settle_all_other calls ps q :
  q ∉ map fst calls -> settle_all calls ps !! q = ps !! q.
Proof.
  revert ps. induction calls as [|[p s] calls IH]; intros ps Hq; [done|].
  cbn in *. apply not_elem_of_cons in Hq as [Hne Hq].
  rewrite IH by done. by apply settle_promise_other.
Qed.

Lemma settle_all_settled calls ps q :
  ps !! q <> Some Pending -> settle_all calls ps !! q = ps !! q.
Proof.
  revert ps. induction calls as [|[p s] calls IH]; intros ps Hq; [done|].
  cbn. rewrite IH; [by apply settle_promise_settled|].
  by rewrite settle_promise_settled.
Qed.

(** When every call is for a promise of its own, a promise that was
    pending ends in the state of its call. *)
Lemma settle_all_entry calls ps p s :
  NoDup (map fst calls) -> (p, s) ∈ calls -> ps !! p = Some Pending ->
  settle_all calls ps !! p = Some (state_of s).
Proof.
  intros Hnd He Hp. revert ps Hp.
  induction calls as [|[p0 s0] calls IH]; intros ps Hp;
    [by apply elem_of_nil in He|].
  cbn in *. apply NoDup_cons in Hnd as [Hnotin Hnd].
  apply elem_of_cons in He as [[= <- <-]|He].
  - rewrite settle_all_settled; rewrite settle_promise_pending by done;
      [done|]. intros [= E]. by apply (state_of_settled s).
  - apply IH; [done..|]. rewrite settle_promise_other; [done|].
    intros ->. apply Hnotin. by apply (list_elem_of_fmap_2 fst _ (p, s)).
Qed.

Lemma reject_calls_promises reason l :
  map fst (reject_calls reason l) = map promise l.
Proof. unfold reject_calls. rewrite map_map. reflexivity. Qed.

Lemma resolve_calls_promises n l :
  map fst (resolve_calls n l) = map promise l.
Proof.
  revert n. induction l as [|e l IH]; intros n; [done|].
  cbn. by rewrite IH.
Qed.

Lemma resolve_calls_lookup n l i e :
  l !! i = Some e ->
  resolve_calls n l !! i = Some (promise e, CallResolve (n + i)).
Proof.
  revert n i. induction l as [|e0 l IH]; intros n i Hi; [done|].
  destruct i as [|i]; cbn in Hi; cbn [resolve_calls].
  - injection Hi as ->. by rewrite Nat.add_0_r.
  - change ((?x :: ?l) !! S i) with (l !! i). rewrite (IH (S n) i Hi).
    do 3 f_equal. lia.
Qed.
End Promises.

(** ** The request objects during the success fan-out *)

Section Replays.
Implicit Type heap : ReqRef -> Request.

Lemma store_request_same r f heap : store_request r f heap r = f (heap r).
Proof. unfold store_request. by rewrite decide_True. Qed.

Lemma store_request_other r r' f heap :
  r' <> r -> store_request r f heap r' = heap r'.
Proof. intros Hne. unfold store_request. by rewrite decide_False. Qed.

Lemma replayed_requests_none l heap : replayed_requests None l heap = heap.
Proof. revert heap. induction l as [|e l IH]; intros heap; [done|]. apply IH. Qed.

Lemma rewrite_request_keeps v r r' heap :
  headers (heap r') !! "Authorization" = Some v ->
  headers (rewrite_request (Some v) r heap r') !! "Authorization" = Some v.
Proof.
  intros Hh. cbn. unfold store_request. destruct (decide (r' = r)) as [->|];
    [|done]. cbn. apply lookup_insert_eq.
Qed.

Lemma rewrite_request_retry value r heap r' :
  _retry (rewrite_request value r heap r') = _retry (heap r').
Proof.
  destruct value as [v|]; [|done]. cbn. unfold store_request.
  by destruct (decide (r' = r)) as [->|].
Qed.

Lemma replayed_requests_keeps v l heap r :
  headers (heap r) !! "Authorization" = Some v ->
  headers (replayed_requests (Some v) l heap r) !! "Authorization" = Some v.
Proof.
  revert heap. induction l as [|e l IH]; intros heap Hh; [done|].
  cbn [replayed_requests]. apply IH. by apply rewrite_request_keeps.
Qed.

(** After the fan-out every request of the wait set carries the header. *)
Lemma replayed_requests_header v l heap e :
  e ∈ l ->
  headers (replayed_requests (Some v) l heap (request e)) !! "Authorization"
  = Some v.
Proof.
  revert heap. induction l as [|e0 l IH]; intros heap He;
    [by apply elem_of_nil in He|].
  cbn [replayed_requests]. apply elem_of_cons in He as [->|He]; [|by apply IH].
  apply replayed_requests_keeps. cbn. rewrite store_request_same. cbn.
  apply lookup_insert_eq.
Qed.

Lemma replayed_requests_retry value l heap r :
  _retry (replayed_requests value l heap r) = _retry (heap r).
Proof.
  revert heap. induction l as [|e l IH]; intros heap; [done|].
  cbn [replayed_requests]. rewrite IH. apply rewrite_request_retry.
Qed.

Lemma replay_log_length value l heap :
  length (replay_log value l heap) = length l.
Proof.
  revert heap. induction l as [|e l IH]; intros heap; [done|].
  cbn. by rewrite IH.
Qed.

(** The replay of the entry at index [i] is the call [axios(request)] on
    that entry's request, which carries the header by then. *)
Lemma replay_log_lookup value l heap i e :
  l !! i = Some e ->
  exists q,
    replay_log value l heap !! i = Some {| replayed := request e; sent := q |}
    /\ match value with
       | Some v => headers q !! "Authorization" = Some v
       | None => q = heap (request e)
       end.
Proof.
  revert heap i. induction l as [|e0 l IH]; intros heap i Hi; [done|].
  destruct i as [|i]; cbn in Hi.
  - injection Hi as ->. eexists; split; [reflexivity|].
    destruct value as [v|]; [|done]. cbn. rewrite store_request_same. cbn.
    apply lookup_insert_eq.
  - destruct (IH (rewrite_request value (request e0) heap) i Hi)
      as (q & Hq & Hv).
    exists q. split; [exact Hq|]. by destruct value.
Qed.
End Replays.

(** ** Running the segments of the interceptor *)

Section Execution.
Context {U : Type}.
Variable cfg : Options U.
Implicit Type w : World U.

Lemma World_ext w1 w2 :
  closure w1 = closure w2 -> requests w1 = requests w2 ->
  promises w1 = promises w2 -> host w1 = host w2 -> now w1 = now w2 ->
  sessions w1 = sessions w2 -> notified w1 = notified w2 ->
  refreshCalls w1 = refreshCalls w2 -> replays w1 = replays w2 ->
  settlements w1 = settlements w2 -> returned w1 = returned w2 ->
  w1 = w2.
Proof. destruct w1, w2. cbn. intros. by subst. Qed.

Lemma forEach_settle (call_of : PendingRequest -> Settle) l w :
  forEach l (fun e => settle (promise e) (call_of e)) w =
  (inr tt,
   set_settlements
     (settlements w ++ map (fun e => (promise e, call_of e)) l)
     (set_promises
        (settle_all (map (fun e => (promise e, call_of e)) l) (promises w))
        w)).
Proof.
  revert w. induction l as [|e l IH]; intros w.
  - destruct w. cbn. unfold ret, set_settlements, set_promises. cbn.
    by rewrite app_nil_r.
  - cbn [forEach]. unfold bind at 1. cbn [settle modify].
    rewrite IH. f_equal.
    apply World_ext; cbn; try reflexivity. by rewrite <- app_assoc.
Qed.

Lemma replay_entry_run newToken fmt e w :
  formatter_is cfg fmt ->
  exists h',
    replay_entry cfg newToken e w =
    (inr tt,
     set_settlements
       (settlements w ++ [(promise e, CallResolve (length (replays w)))])
       (set_promises
          (settle_promise (promise e) (Resolved (length (replays w)))
             (promises w))
          (set_replays
             (replays w ++
                [{| replayed := request e;
                    sent := rewrite_request (header_value fmt newToken)
                              (request e) (requests w) (request e) |}])
             (set_requests
                (rewrite_request (header_value fmt newToken) (request e)
                   (requests w))
                (set_host h' w))))).
Proof.
  intros Hfmt. unfold replay_entry, header_value.
  destruct (truthy newToken) eqn:Ht; [destruct newToken as [token|]|].
  - destruct (Hfmt token (host w)) as [h1 Hh1]. exists h1.
    unfold bind, call. rewrite Hh1. reflexivity.
  - discriminate.
  - exists (host w). destruct w. reflexivity.
Qed.

Lemma forEach_replay newToken fmt l w :
  formatter_is cfg fmt ->
  exists h',
    forEach l (replay_entry cfg newToken) w =
    (inr tt,
     set_settlements
       (settlements w ++ resolve_calls (length (replays w)) l)
       (set_promises
          (settle_all (resolve_calls (length (replays w)) l) (promises w))
          (set_replays
             (replays w ++ replay_log (header_value fmt newToken) l (requests w))
             (set_requests
                (replayed_requests (header_value fmt newToken) l (requests w))
                (set_host h' w))))).
Proof.
  intros Hfmt. revert w. induction l as [|e l IH]; intros w.
  - exists (host w). destruct w. cbn. unfold ret. cbn.
    by rewrite !app_nil_r.
  - cbn [forEach]. unfold bind at 1.
    destruct (replay_entry_run newToken fmt e w Hfmt) as [h1 ->].
    match goal with |- context [forEach l _ ?w1] =>
      destruct (IH w1) as [h' ->] end.
    exists h'. f_equal.
    apply World_ext; cbn; try reflexivity;
      rewrite ?length_app, ?Nat.add_1_r, <- ?app_assoc; reflexivity.
Qed.

(** *** Failures that are turned away *)

Lemma onRejected_no_config error w :
  config error = None ->
  onRejected cfg error w = (inr (Some (RejectOriginal error)), w).
Proof. intros H. unfold onRejected. by rewrite H. Qed.

Lemma onRejected_turned_away error r b h' w :
  config error = Some r ->
  shouldRefreshToken cfg error (requests w r) (host w) = (inr b, h') ->
  b = false \/ _retry (requests w r) = true ->
  onRejected cfg error w =
  (inr (Some (RejectOriginal error)), set_host h' w).
Proof.
  intros Hc Hs Hb. unfold onRejected. rewrite Hc.
  unfold bind, try_catch, tryBlock, bind, gets, call. rewrite Hs.
  assert (b && negb (_retry (requests w r)) = false) as ->.
  { destruct Hb as [->| ->]; [done|]. by rewrite andb_false_r. }
  reflexivity.
Qed.

(** *** Joining and starting a renewal *)

Lemma onRejected_joiner error r h' w :
  config error = Some r ->
  shouldRefreshToken cfg error (requests w r) (host w) = (inr true, h') ->
  _retry (requests w r) = false ->
  isRefreshing (closure w) = true ->
  onRejected cfg error w =
  (inr (Some (ReturnRetryPromise (length (promises w)))),
   set_closure
     (set_pendingRequests
        (pendingRequests (closure w) ++
           [{| request := r; promise := length (promises w) |}])
        (closure w))
     (set_promises (promises w ++ [Pending])
        (set_requests (store_request r mark_retry (requests w))
           (set_host h' w)))).
Proof.
  intros Hc Hs Hr Hi. unfold onRejected. rewrite Hc.
  unfold bind, try_catch, tryBlock, bind, gets, call. rewrite Hs, Hr.
  cbn. rewrite Hi. reflexivity.
Qed.

Lemma onRejected_initiator error r h1 h2 h3 w :
  config error = Some r ->
  shouldRefreshToken cfg error (requests w r) (host w) = (inr true, h1) ->
  _retry (requests w r) = false ->
  isRefreshing (closure w) = false ->
  onStatusChange cfg Status.refreshing None h1 = (inr tt, h2) ->
  refreshTokenFn cfg h2 = (inr tt, h3) ->
  onRejected cfg error w =
  (inr None,
   {| closure :=
        {| pendingRequests :=
             pendingRequests (closure w) ++
               [{| request := r; promise := length (promises w) |}];
           isRefreshing := true;
           refreshPromise := Some (length (sessions w)) |};
      requests := store_request r mark_retry (requests w);
      promises := promises w ++ [Pending];
      host := h3;
      now := now w;
      sessions :=
        sessions w ++
          [{| deadline := (now w + refreshTimeout cfg)%N;
              waiter := Some {| f_error := error; f_originalRequest := r;
                                f_retryPromise := length (promises w) |} |}];
      notified := notified w ++ [(Status.refreshing, None)];
      refreshCalls := S (refreshCalls w);
      replays := replays w;
      settlements := settlements w;
      returned := returned w |}).
Proof.
  intros Hc Hs Hr Hi Hn Hf. unfold onRejected. rewrite Hc.
  unfold bind, try_catch, tryBlock, bind, gets, call. rewrite Hs, Hr.
  cbn. rewrite Hi. cbn. unfold bind, call. cbn. rewrite Hn. cbn.
  rewrite Hf. cbn. f_equal.
  apply World_ext; cbn; try reflexivity.
  rewrite <- (Nat.add_0_r (length (sessions w))) at 1.
  rewrite alter_app_r. reflexivity.
Qed.

(** *** The fan-outs *)

Lemma onRejected_resume_success fr newToken fmt h1 w :
  onStatusChange cfg Status.success None (host w) = (inr tt, h1) ->
  formatter_is cfg fmt ->
  exists h',
    onRejected_resume cfg fr (inr newToken) w =
    (inr (Some (ReturnRetryPromise (f_retryPromise fr))),
     {| closure := initial_closure;
        requests :=
          replayed_requests (header_value fmt newToken)
            (pendingRequests (closure w)) (requests w);
        promises :=
          settle_all
            (resolve_calls (length (replays w)) (pendingRequests (closure w)))
            (promises w);
        host := h';
        now := now w;
        sessions := sessions w;
        notified := notified w ++ [(Status.success, None)];
        refreshCalls := refreshCalls w;
        replays :=
          replays w ++
            replay_log (header_value fmt newToken)
              (pendingRequests (closure w)) (requests w);
        settlements :=
          settlements w ++
            resolve_calls (length (replays w)) (pendingRequests (closure w));
        returned := returned w |}).
Proof.
  intros Hn Hfmt.
  unfold onRejected_resume, bind at 1, try_catch at 1, bind at 1.
  unfold try_catch_finally, try_catch, bind at 1, await, ret at 1.
  unfold fanOutSuccess, bind at 1, notify, bind at 1, call, modify.
  cbn. rewrite Hn. unfold bind at 1, gets. unfold bind at 1.
  match goal with |- context [forEach ?l _ ?w1] =>
    destruct (forEach_replay newToken fmt l w1 Hfmt) as [h' ->] end.
  exists h'. reflexivity.
Qed.

Lemma onRejected_resume_failure fr reason h' w :
  onStatusChange cfg Status.failed
    (Some (asError reason "Token refresh failed")) (host w) = (inr tt, h') ->
  onRejected_resume cfg fr (inl reason) w =
  (inr (Some (ReturnRetryPromise (f_retryPromise fr))),
   {| closure := initial_closure;
      requests := requests w;
      promises :=
        settle_all
          (reject_calls (refreshFailedError reason)
             (pendingRequests (closure w)))
          (promises w);
      host := h';
      now := now w;
      sessions := sessions w;
      notified :=
        notified w ++
          [(Status.failed, Some (asError reason "Token refresh failed"))];
      refreshCalls := refreshCalls w;
      replays := replays w;
      settlements :=
        settlements w ++
          reject_calls (refreshFailedError reason)
            (pendingRequests (closure w));
      returned := returned w |}).
Proof.
  intros Hn.
  unfold onRejected_resume, bind at 1, try_catch at 1, bind at 1.
  unfold try_catch_finally, try_catch, bind at 1, await, throw.
  unfold fanOutFailure, bind at 1, notify, bind at 1, call, modify.
  cbn. rewrite Hn. unfold bind at 1, gets. unfold bind at 1.
  unfold reject_entry, reject. rewrite forEach_settle. reflexivity.
Qed.

(** *** The interceptor's own [catch] *)

Lemma interceptorCatch_reset t h' w :
  isRefreshing (closure w) = true ->
  onStatusChange cfg Status.error (Some (interceptorError t))
    (console_write
       ("Error in refresh token interceptor: " +:+
          message (interceptorError t)) (host w)) = (inr tt, h') ->
  interceptorCatch cfg t w =
  (inr tt,
   {| closure := initial_closure;
      requests := requests w;
      promises :=
        settle_all
          (reject_calls (interceptorError t) (pendingRequests (closure w)))
          (promises w);
      host := h';
      now := now w;
      sessions := sessions w;
      notified := notified w ++ [(Status.error, Some (interceptorError t))];
      refreshCalls := refreshCalls w;
      replays := replays w;
      settlements :=
        settlements w ++
          reject_calls (interceptorError t) (pendingRequests (closure w));
      returned := returned w |}).
Proof.
  intros Hi Hn. unfold interceptorCatch, interceptorError in *.
  unfold bind at 1, console_error, modify, bind at 1, gets. cbn.
  rewrite Hi. unfold bind at 1, notify, bind at 1, modify, call. cbn.
  rewrite Hn. unfold bind at 1, gets. unfold bind at 1, reject.
  rewrite forEach_settle. reflexivity.
Qed.

Lemma interceptorCatch_idle t w :
  isRefreshing (closure w) = false ->
  interceptorCatch cfg t w =
  (inr tt,
   set_host
     (console_write
        ("Error in refresh token interceptor: " +:+
           message (interceptorError t)) (host w)) w).
Proof.
  intros Hi. unfold interceptorCatch, interceptorError.
  unfold bind at 1, console_error, modify, bind at 1, gets. cbn.
  by rewrite Hi.
Qed.

(** However the awaited race settles and whatever the callbacks do, the
    resumed invocation leaves with the flag cleared: [finally] runs on
    every path, and the outer [catch] then finds nothing to reset. *)
Lemma onRejected_resume_clears fr settled w :
  isRefreshing (closure (snd (onRejected_resume cfg fr settled w))) = false.
Proof.
  unfold onRejected_resume, bind at 1, try_catch at 1, bind at 1.
  unfold try_catch_finally.
  destruct (try_catch _ _ w) as [r w1].
  unfold finallyReset, bind, update_closure, modify. cbn.
  destruct r as [t|[]]; reflexivity.
Qed.

(** The [try] block up to the [await] throws only where it calls the
    caller's functions: the classifier, the observer notified of
    [refreshing], or the renewal operation. *)
Lemma tryBlock_throws error r t w w1 :
  tryBlock cfg error r w = (inl t, w1) ->
  (exists h1,
     shouldRefreshToken cfg error (requests w r) (host w) = (inl t, h1) /\
     closure w1 = closure w /\ promises w1 = promises w) \/
  (isRefreshing (closure w) = false /\
   closure w1
   = {| pendingRequests :=
          pendingRequests (closure w) ++
            [{| request := r; promise := length (promises w) |}];
        isRefreshing := true;
        refreshPromise := refreshPromise (closure w) |} /\
   promises w1 = promises w ++ [Pending] /\
   exists h1 h2,
     shouldRefreshToken cfg error (requests w r) (host w) = (inr true, h1) /\
     (onStatusChange cfg Status.refreshing None h1 = (inl t, h2) \/
      exists h3,
        onStatusChange cfg Status.refreshing None h1 = (inr tt, h2) /\
        refreshTokenFn cfg h2 = (inl t, h3))).
Proof.
  unfold tryBlock, bind at 1, gets, bind at 1, call.
  destruct (shouldRefreshToken cfg error (requests w r) (host w))
    as [[t0|b] h1] eqn:Hcls.
  { intros [= <- <-]. left. exists h1. done. }
  destruct (b && negb (_retry (requests w r))) eqn:Hb;
    [|intros [=]].
  apply andb_prop in Hb as [-> _].
  unfold bind at 1, update_request, modify, bind at 1, new_promise.
  unfold bind at 1, update_closure, modify, bind at 1, gets. cbn.
  destruct (isRefreshing (closure w)) eqn:Hflag; cbn; [intros [=]|].
  unfold bind at 1, modify, bind at 1, notify, bind at 1, modify, call. cbn.
  destruct (onStatusChange cfg Status.refreshing None h1)
    as [[t1|[]] h2] eqn:Hobs.
  { intros [= <- <-]. right. cbn. repeat (split; [reflexivity|]).
    exists h1, h2. split; [reflexivity|]. by left. }
  unfold bind at 1, new_timeoutPromise, bind at 1, call_refreshTokenFn.
  unfold bind at 1, modify, call. cbn.
  destruct (refreshTokenFn cfg h2) as [[t2|[]] h3] eqn:Hfn.
  { intros [= <- <-]. right. cbn. repeat (split; [reflexivity|]).
    exists h1, h2. split; [reflexivity|]. right. by exists h3. }
  intros [=].
Qed.
End Execution.

(** ** Steps of the event loop *)

Section Steps.
Context {U : Type}.
Variable cfg : Options U.
Implicit Type w : World U.

Lemma waiting_join w r :
  waiting w ->
  NoDup (map promise
           (pendingRequests (closure w) ++
              [{| request := r; promise := length (promises w) |}])) /\
  forall p,
    p ∈ map promise
          (pendingRequests (closure w) ++
             [{| request := r; promise := length (promises w) |}]) ->
    (promises w ++ [Pending]) !! p = Some Pending.
Proof.
  intros [Hnd Hp]. unfold pending_promises in *. rewrite map_app. cbn. split.
  - apply NoDup_app. split; [done|]. split; [|apply NoDup_singleton].
    intros p Hin ->%list_elem_of_singleton.
    apply Hp, lookup_lt_Some in Hin. lia.
  - intros p [Hin| ->%list_elem_of_singleton]%elem_of_app.
    + rewrite lookup_app_l; [by apply Hp|]. by eapply lookup_lt_Some, Hp.
    + by rewrite lookup_app_r, Nat.sub_diag.
Qed.

(** A failed call that arrives while a renewal is in flight leaves the
    renewal as it is: it is handed back rejected, or it joins the wait
    set. *)
Lemma in_flight_response s fr error w :
  classifier_total cfg -> in_flight s fr w ->
  in_flight s fr (step cfg (ResponseError error) w) /\
  refreshCalls (step cfg (ResponseError error) w) = refreshCalls w /\
  notified (step cfg (ResponseError error) w) = notified w /\
  now (step cfg (ResponseError error) w) = now w /\
  length (replays (step cfg (ResponseError error) w)) = length (replays w) /\
  (forall e, e ∈ pendingRequests (closure w) ->
             e ∈ pendingRequests (closure (step cfg (ResponseError error) w))).
Proof.
  intros Htot (Hflag & Hs & Hw). cbn [step]. unfold in_flight.
  destruct (config error) as [r|] eqn:Hc.
  - destruct (Htot error (requests w r) (host w)) as (b & h' & Hcls).
    destruct (bool_decide (b = false \/ _retry (requests w r) = true)) eqn:Hb.
    + apply bool_decide_eq_true in Hb.
      rewrite (onRejected_turned_away cfg error r b h' w) by done.
      cbn. done.
    + apply bool_decide_eq_false in Hb.
      assert (b = true) as -> by (destruct b; tauto).
      assert (_retry (requests w r) = false) as Hr
        by (destruct (_retry (requests w r)); tauto).
      rewrite (onRejected_joiner cfg error r h' w) by done.
      cbn. split; [split; [done|split; [done|]]|].
      * apply (waiting_join w r Hw).
      * repeat split; try done. intros e He. apply elem_of_app. by left.
  - rewrite onRejected_no_config by done. cbn. done.
Qed.

Lemma in_flight_arrival s fr ev w :
  classifier_total cfg -> in_flight s fr w -> arrival ev ->
  in_flight s fr (step cfg ev w) /\
  refreshCalls (step cfg ev w) = refreshCalls w /\
  notified (step cfg ev w) = notified w /\
  (now w <= now (step cfg ev w))%N /\
  length (replays (step cfg ev w)) = length (replays w) /\
  (forall e, e ∈ pendingRequests (closure w) ->
             e ∈ pendingRequests (closure (step cfg ev w))).
Proof.
  intros Htot Hin Hev. destruct ev as [error| | |ms]; try done.
  - destruct (in_flight_response s fr error w Htot Hin)
      as (? & ? & ? & Hnow & ? & ?).
    split; [done|]. split; [done|]. split; [done|]. split; [|done].
    rewrite Hnow. lia.
  - cbn. split; [exact Hin|]. split; [done|]. split; [done|].
    split; [lia|done].
Qed.

Lemma in_flight_arrivals s fr evs w :
  classifier_total cfg -> in_flight s fr w -> Forall arrival evs ->
  in_flight s fr (run cfg evs w) /\
  refreshCalls (run cfg evs w) = refreshCalls w /\
  notified (run cfg evs w) = notified w /\
  (now w <= now (run cfg evs w))%N /\
  length (replays (run cfg evs w)) = length (replays w) /\
  (forall e, e ∈ pendingRequests (closure w) ->
             e ∈ pendingRequests (closure (run cfg evs w))).
Proof.
  intros Htot Hin Hevs. revert w Hin.
  induction Hevs as [|ev evs Hev _ IH]; intros w Hin.
  - cbn. split; [done|]. split; [done|]. split; [done|]. split; [lia|done].
  - cbn [run fold_left].
    destruct (in_flight_arrival s fr ev w Htot Hin Hev)
      as (Hin1 & Hc1 & Hn1 & Ht1 & Hr1 & He1).
    destruct (IH _ Hin1) as (Hin2 & Hc2 & Hn2 & Ht2 & Hr2 & He2).
    unfold run in *. split; [done|]. split; [congruence|].
    split; [congruence|]. split; [lia|]. split; [congruence|].
    intros e He. by apply He2, He1.
Qed.

(** *** Settlement *)

Lemma step_settles s fr d settled ev w :
  sessions w !! s = Some {| deadline := d; waiter := Some fr |} ->
  settles w s settled ev ->
  step cfg ev w =
  deliver (f_error fr)
    (onRejected_resume cfg fr settled
       (set_sessions
          (<[s := {| deadline := d; waiter := None |}]> (sessions w)) w)).
Proof.
  intros Hs [->|(-> & -> & x & Hx & Hd)]; cbn [step]; unfold wake.
  - by rewrite Hs.
  - rewrite Hs in Hx. injection Hx as <-. cbn in Hd.
    apply N.leb_le in Hd. rewrite Hs. cbn [deadline]. rewrite Hd. reflexivity.
Qed.

(** The success fan-out settles every entry of the wait set as it is when
    the race settles: the entry at index [i] is resolved with the replay of
    its own request. *)
Lemma fan_out_success s fr newToken ev fmt w :
  in_flight s fr w -> settles w s (inr newToken) ev ->
  observer_returns cfg Status.success -> formatter_is cfg fmt ->
  closure (step cfg ev w) = initial_closure /\
  refreshCalls (step cfg ev w) = refreshCalls w /\
  notified (step cfg ev w) = notified w ++ [(Status.success, None)] /\
  settlements (step cfg ev w) =
    settlements w ++
      resolve_calls (length (replays w)) (pendingRequests (closure w)) /\
  requests (step cfg ev w) =
    replayed_requests (header_value fmt newToken)
      (pendingRequests (closure w)) (requests w) /\
  returned (step cfg ev w) =
    returned w ++ [(f_error fr, ReturnRetryPromise (f_retryPromise fr))] /\
  forall i e,
    pendingRequests (closure w) !! i = Some e ->
    promises (step cfg ev w) !! promise e
      = Some (Resolved (length (replays w) + i)) /\
    exists q,
      replays (step cfg ev w) !! (length (replays w) + i)
        = Some {| replayed := request e; sent := q |} /\
      match header_value fmt newToken with
      | Some v => headers q !! "Authorization" = Some v
      | None => q = requests w (request e)
      end.
Proof.
  intros (Hflag & [d Hs] & Hnd & Hp) Hev Hobs Hfmt.
  rewrite (step_settles s fr d _ ev w Hs Hev).
  destruct (Hobs None (host w)) as [h1 Hh1].
  match goal with |- context [onRejected_resume cfg fr _ ?w1] =>
    destruct (onRejected_resume_success cfg fr newToken fmt h1 w1 Hh1 Hfmt)
      as [h' ->] end.
  cbn. repeat (split; [reflexivity|]). intros i e Hi. split.
  - apply (settle_all_entry _ _ _ (CallResolve (length (replays w) + i))).
    + by rewrite resolve_calls_promises.
    + apply list_elem_of_lookup. exists i. by apply resolve_calls_lookup.
    + apply Hp. apply list_elem_of_fmap_2. apply list_elem_of_lookup. eauto.
  - destruct (replay_log_lookup (header_value fmt newToken) _ (requests w)
                i e Hi) as (q & Hq & Hv).
    exists q. split; [|exact Hv].
    by rewrite lookup_app_r, Nat.add_comm, Nat.add_sub by lia.
Qed.

(** The failure fan-out rejects every entry of the wait set as it is when
    the race settles. *)
Lemma fan_out_failure s fr reason ev w :
  in_flight s fr w -> settles w s (inl reason) ev ->
  observer_returns cfg Status.failed ->
  closure (step cfg ev w) = initial_closure /\
  refreshCalls (step cfg ev w) = refreshCalls w /\
  notified (step cfg ev w) =
    notified w ++
      [(Status.failed, Some (asError reason "Token refresh failed"))] /\
  settlements (step cfg ev w) =
    settlements w ++
      reject_calls (refreshFailedError reason)
        (pendingRequests (closure w)) /\
  requests (step cfg ev w) = requests w /\
  replays (step cfg ev w) = replays w /\
  returned (step cfg ev w) =
    returned w ++ [(f_error fr, ReturnRetryPromise (f_retryPromise fr))] /\
  forall e,
    e ∈ pendingRequests (closure w) ->
    promises (step cfg ev w) !! promise e
      = Some (Rejected (refreshFailedError reason)).
Proof.
  intros (Hflag & [d Hs] & Hnd & Hp) Hev Hobs.
  rewrite (step_settles s fr d _ ev w Hs Hev).
  destruct (Hobs (Some (asError reason "Token refresh failed")) (host w))
    as [h1 Hh1].
  match goal with |- context [onRejected_resume cfg fr _ ?w1] =>
    rewrite (onRejected_resume_failure cfg fr reason h1 w1 Hh1) end.
  cbn. repeat (split; [reflexivity|]). intros e He.
  apply (settle_all_entry _ _ _ (CallReject (refreshFailedError reason))).
  - by rewrite reject_calls_promises.
  - unfold reject_calls.
    by apply (list_elem_of_fmap_2
                (fun e => (promise e, CallReject (refreshFailedError reason)))).
  - apply Hp. by apply list_elem_of_fmap_2.
Qed.
End Steps.

(** ** Joining and starting, as steps *)

Section Sessions.
Context {U : Type}.
Variable cfg : Options U.
Implicit Type w : World U.

Lemma step_joiner error r w :
  config error = Some r -> _retry (requests w r) = false ->
  classifier_returns cfg true error (requests w r) ->
  isRefreshing (closure w) = true ->
  exists h',
    step cfg (ResponseError error) w =
    {| closure :=
         set_pendingRequests
           (pendingRequests (closure w) ++
              [{| request := r; promise := length (promises w) |}])
           (closure w);
       requests := store_request r mark_retry (requests w);
       promises := promises w ++ [Pending];
       host := h';
       now := now w;
       sessions := sessions w;
       notified := notified w;
       refreshCalls := refreshCalls w;
       replays := replays w;
       settlements := settlements w;
       returned :=
         returned w ++ [(error, ReturnRetryPromise (length (promises w)))] |}.
Proof.
  intros Hc Hr Hcls Hflag. destruct (Hcls (host w)) as [h' Hh'].
  exists h'. cbn [step].
  by rewrite (onRejected_joiner cfg error r h' w).
Qed.

Lemma step_initiator error r w :
  config error = Some r -> _retry (requests w r) = false ->
  classifier_returns cfg true error (requests w r) ->
  isRefreshing (closure w) = false ->
  observer_returns cfg Status.refreshing -> renewal_starts cfg ->
  exists h',
    step cfg (ResponseError error) w =
    {| closure :=
         {| pendingRequests :=
              pendingRequests (closure w) ++
                [{| request := r; promise := length (promises w) |}];
            isRefreshing := true;
            refreshPromise := Some (length (sessions w)) |};
       requests := store_request r mark_retry (requests w);
       promises := promises w ++ [Pending];
       host := h';
       now := now w;
       sessions :=
         sessions w ++
           [{| deadline := (now w + refreshTimeout cfg)%N;
               waiter := Some {| f_error := error; f_originalRequest := r;
                                 f_retryPromise := length (promises w) |} |}];
       notified := notified w ++ [(Status.refreshing, None)];
       refreshCalls := S (refreshCalls w);
       replays := replays w;
       settlements := settlements w;
       returned := returned w |}.
Proof.
  intros Hc Hr Hcls Hflag Hobs Hstart.
  destruct (Hcls (host w)) as [h1 Hh1].
  destruct (Hobs None h1) as [h2 Hh2].
  destruct (Hstart h2) as [h3 Hh3].
  exists h3. cbn [step].
  by rewrite (onRejected_initiator cfg error r h1 h2 h3 w).
Qed.

(** Marking one request leaves the failures on other requests
    eligible. *)
Lemma eligible_after_mark w w' r error :
  eligible cfg w error -> config error <> Some r ->
  requests w' = store_request r mark_retry (requests w) ->
  eligible cfg w' error.
Proof.
  intros (r' & Hc & Hr & Hcls) Hne Hreq. exists r'.
  assert (requests w' r' = requests w r') as ->; [|done].
  rewrite Hreq. apply store_request_other. congruence.
Qed.

(** Eligible failures on distinct requests that arrive while a renewal is
    in flight all join the wait set, in order, and nothing else happens. *)
Lemma joiners_run s fr errors w :
  in_flight s fr w -> Forall (eligible cfg w) errors ->
  NoDup (map config errors) ->
  in_flight s fr (run cfg (map ResponseError errors) w) /\
  refreshCalls (run cfg (map ResponseError errors) w) = refreshCalls w /\
  notified (run cfg (map ResponseError errors) w) = notified w /\
  map (fun e => Some (request e))
      (pendingRequests (closure (run cfg (map ResponseError errors) w)))
  = map (fun e => Some (request e)) (pendingRequests (closure w))
      ++ map config errors.
Proof.
  intros Hin Hel Hnd. revert w Hin Hel.
  induction errors as [|error errors IH]; intros w Hin Hel.
  - cbn. by rewrite app_nil_r.
  - apply Forall_cons in Hel as [(r & Hc & Hr & Hcls) Hel].
    cbn in Hnd. apply NoDup_cons in Hnd as [Hnotin Hnd].
    cbn [map run fold_left].
    destruct Hin as (Hflag & Hs & Hw).
    destruct (step_joiner error r w Hc Hr Hcls Hflag) as [h' Hstep].
    assert (Hin1 : in_flight s fr (step cfg (ResponseError error) w)).
    { rewrite Hstep. split; [done|]. split; [done|].
      apply (waiting_join w r Hw). }
    assert (Hel1 : Forall (eligible cfg (step cfg (ResponseError error) w))
                     errors).
    { apply Forall_forall. intros e' He'.
      apply (eligible_after_mark w _ r e').
      - by eapply Forall_forall in Hel.
      - intros E. apply Hnotin. rewrite Hc, <- E.
        by apply list_elem_of_fmap_2.
      - by rewrite Hstep. }
    destruct (IH Hnd _ Hin1 Hel1) as (Hin2 & Hc2 & Hn2 & Hp2).
    unfold run in *. split; [done|].
    rewrite Hc2, Hn2, Hp2, Hstep. cbn.
    split; [done|]. split; [done|].
    by rewrite map_app, <- app_assoc, Hc.
Qed.
End Sessions.

(** * The claims *)

Section Claims.
Context {U : Type}.
Variable cfg : Options U.
Implicit Type w : World U.

(** C10. [createRefreshTokenPlugin] throws "refreshTokenFn must be a
    function" when [refreshTokenFn] is not a function, and "getAuthToken
    must be a function" when [refreshTokenFn] is one and [getAuthToken] is
    not; it returns the plugin with fresh closure variables only when both
    are functions, so on a throw there is no closure state and nothing that
    could install an interceptor.  The earlier version of the module
    validates its options in the same way. *)
Theorem constructor_validation (options : RawOptions U)
    (legacy : Legacy.RawOptions U) :
  (forall ty, raw_refreshTokenFn options = js_other ty ->
     createRefreshTokenPlugin options
     = inl (mkError "refreshTokenFn must be a function" None)) /\
  (forall f ty, raw_refreshTokenFn options = js_function f ->
     raw_getAuthToken options = js_other ty ->
     createRefreshTokenPlugin options
     = inl (mkError "getAuthToken must be a function" None)) /\
  ((exists state install,
      createRefreshTokenPlugin options = inr (state, install)) <->
   (exists f g, raw_refreshTokenFn options = js_function f /\
                raw_getAuthToken options = js_function g)) /\
  (forall state install,
     createRefreshTokenPlugin options = inr (state, install) ->
     state = initial_closure /\
     exists resolved,
       resolve_options options = inr resolved /\
       install = plugin resolved) /\
  (forall ty, Legacy.raw_refreshTokenFn legacy = js_other ty ->
     Legacy.resolve_options legacy
     = inl (mkError "refreshTokenFn must be a function" None)) /\
  (forall f ty, Legacy.raw_refreshTokenFn legacy = js_function f ->
     Legacy.raw_getAuthToken legacy = js_other ty ->
     Legacy.resolve_options legacy
     = inl (mkError "getAuthToken must be a function" None)).
Proof.
  unfold createRefreshTokenPlugin, resolve_options, Legacy.resolve_options.
  split; [|split; [|split; [|split; [|split]]]].
  - by intros ty ->.
  - by intros f ty -> ->.
  - destruct (raw_refreshTokenFn options) as [f|ty];
      destruct (raw_getAuthToken options) as [g|ty']; split;
      try (intros (? & ? & [=]); fail);
      try (intros (? & ? & [=] & [=]); fail);
      try (intros (? & ? & ? & [=]); fail); eauto.
  - destruct (raw_refreshTokenFn options) as [f|ty];
      destruct (raw_getAuthToken options) as [g|ty'];
      intros state install [= <- <-]. eauto.
  - by intros ty ->.
  - by intros f ty -> ->.
Qed.

(** C2. The default [shouldRefreshToken] returns [true] exactly when the
    failure has status 401 or has no response at all, and [getAuthToken]
    returns a credential (a non-empty string) at that moment.  With a
    response of any other status it returns [false] without consulting
    the accessor; with no credential held it returns [false]. *)
Theorem default_classifier_policy (options : RawOptions U)
    (error : AxiosError) (originalRequest : Request) (h : Host U) :
  resolve_options options = inr cfg ->
  raw_shouldRefreshToken options = None ->
  (fst (shouldRefreshToken cfg error originalRequest h) = inr true <->
     status_401_or_no_response error /\
     holds_credential (getAuthToken cfg) h) /\
  (forall r, response error = Some r -> status r <> 401%Z ->
     shouldRefreshToken cfg error originalRequest h = (inr false, h)) /\
  (forall token, fst (getAuthToken cfg h) = inr token ->
     truthy token = false ->
     fst (shouldRefreshToken cfg error originalRequest h) = inr false).
Proof.
  intros Hres Hdef.
  assert (Hcls : shouldRefreshToken cfg
                 = default_shouldRefreshToken (getAuthToken cfg)).
  { unfold resolve_options in Hres.
    destruct (raw_refreshTokenFn options); [|discriminate].
    destruct (raw_getAuthToken options); [|discriminate].
    injection Hres as <-. cbn. by rewrite Hdef. }
  rewrite Hcls.
  unfold default_shouldRefreshToken, status_401_or_no_response,
    holds_credential.
  split; [|split].
  - destruct (response error) as [r|] eqn:Hr.
    + destruct (Z.eqb_spec (status r) 401) as [He|He].
      * destruct (getAuthToken cfg h) as [[t|token] h'] eqn:Hg; cbn.
        -- split; [discriminate|]. intros [_ (token & Ht & _)]. discriminate.
        -- split.
           ++ intros [= Ht]. split; [left; eauto|]. eauto.
           ++ intros [_ (token' & [= <-] & Ht)]. by rewrite Ht.
      * cbn. split; [discriminate|].
        intros [[(r' & [= <-] & Hs)|?] _]; [contradiction|discriminate].
    + destruct (getAuthToken cfg h) as [[t|token] h'] eqn:Hg; cbn.
      * split; [discriminate|]. intros [_ (token & Ht & _)]. discriminate.
      * split.
        -- intros [= Ht]. split; [by right|]. eauto.
        -- intros [_ (token' & [= <-] & Ht)]. by rewrite Ht.
  - intros r -> Hs. destruct (Z.eqb_spec (status r) 401); [contradiction|done].
  - intros token Ht Hf.
    destruct (response error) as [r|]; [destruct (status r =? 401)%Z|];
      destruct (getAuthToken cfg h) as [[t|token'] h']; cbn in *; try done;
      injection Ht as ->; by rewrite Hf.
Qed.

(** C3. A failure without a request description, a failure the classifier
    returns [false] for, and a failure of a request already marked retried
    (even when the classifier returns [true] for it) are handed back
    rejected with the original failure; the closure variables, the request
    objects, the promises and every trace of the coordinator stay as they
    were: nothing is enqueued, no renewal starts, nobody is notified. *)
Theorem not_retryable_propagation (error : AxiosError) w :
  (config error = None \/
   exists r b h',
     config error = Some r /\
     shouldRefreshToken cfg error (requests w r) (host w) = (inr b, h') /\
     (b = false \/ _retry (requests w r) = true)) ->
  fst (onRejected cfg error w) = inr (Some (RejectOriginal error)) /\
  returned (step cfg (ResponseError error) w)
    = returned w ++ [(error, RejectOriginal error)] /\
  closure (step cfg (ResponseError error) w) = closure w /\
  requests (step cfg (ResponseError error) w) = requests w /\
  promises (step cfg (ResponseError error) w) = promises w /\
  sessions (step cfg (ResponseError error) w) = sessions w /\
  refreshCalls (step cfg (ResponseError error) w) = refreshCalls w /\
  notified (step cfg (ResponseError error) w) = notified w /\
  replays (step cfg (ResponseError error) w) = replays w /\
  settlements (step cfg (ResponseError error) w) = settlements w.
Proof.
  intros [Hc|(r & b & h' & Hc & Hcls & Hb)]; cbn [step].
  - by rewrite onRejected_no_config.
  - by rewrite (onRejected_turned_away cfg error r b h' w).
Qed.

(** C7. While a renewal is in flight no arriving call invokes the renewal
    operation, notifies the observer or sets a timer.  An eligible call is
    handed its own fresh retry promise, the one of the entry it appends to
    the wait set, and the invocation is over with that: nothing of it stays
    parked to look at the flag again.  When the race settles, the resumed
    initiator calls that promise's settler: it is resolved with the replay
    of the call's request, or rejected with the refresh failure. *)
Theorem joiner_push_settlement (s : nat) (fr : Frame) (error : AxiosError)
    (r : ReqRef) w :
  classifier_total cfg ->
  in_flight s fr w ->
  config error = Some r ->
  _retry (requests w r) = false ->
  classifier_returns cfg true error (requests w r) ->
  (forall error',
     refreshCalls (step cfg (ResponseError error') w) = refreshCalls w /\
     notified (step cfg (ResponseError error') w) = notified w /\
     in_flight s fr (step cfg (ResponseError error') w)) /\
  returned (step cfg (ResponseError error) w)
    = returned w ++ [(error, ReturnRetryPromise (length (promises w)))] /\
  pendingRequests (closure (step cfg (ResponseError error) w))
    = pendingRequests (closure w) ++
        [{| request := r; promise := length (promises w) |}] /\
  promises (step cfg (ResponseError error) w) !! length (promises w)
    = Some Pending /\
  sessions (step cfg (ResponseError error) w) = sessions w /\
  forall settled ev fmt,
    settles (step cfg (ResponseError error) w) s settled ev ->
    observer_returns cfg Status.success ->
    observer_returns cfg Status.failed ->
    formatter_is cfg fmt ->
    exists call,
      (length (promises w), call)
        ∈ settlements (step cfg ev (step cfg (ResponseError error) w)) /\
      promises (step cfg ev (step cfg (ResponseError error) w))
        !! length (promises w) = Some (state_of call) /\
      match settled with
      | inr _ =>
        exists k q,
          call = CallResolve k /\
          replays (step cfg ev (step cfg (ResponseError error) w)) !! k
            = Some {| replayed := r; sent := q |}
      | inl reason => call = CallReject (refreshFailedError reason)
      end.
Proof.
  intros Htot Hin Hc Hr Hcls. split.
  { intros error'.
    destruct (in_flight_response cfg s fr error' w Htot Hin)
      as (? & ? & ? & _). done. }
  destruct (in_flight_response cfg s fr error w Htot Hin) as (Hin1 & _).
  destruct Hin as (Hflag & Hs & Hw).
  destruct (step_joiner cfg error r w Hc Hr Hcls Hflag) as [h' Hstep].
  set (w1 := step cfg (ResponseError error) w) in *.
  assert (Hpend : pendingRequests (closure w1)
                  = pendingRequests (closure w) ++
                      [{| request := r; promise := length (promises w) |}])
    by (by rewrite Hstep).
  split; [by rewrite Hstep|]. split; [exact Hpend|].
  split; [rewrite Hstep; cbn; by rewrite lookup_app_r, Nat.sub_diag|].
  split; [by rewrite Hstep|].
  intros settled ev fmt Hev Hsucc Hfail Hfmt.
  assert (Hlast : pendingRequests (closure w1)
                    !! length (pendingRequests (closure w))
                  = Some {| request := r; promise := length (promises w) |}).
  { rewrite Hpend. by rewrite lookup_app_r, Nat.sub_diag. }
  destruct settled as [reason|newToken].
  - destruct (fan_out_failure cfg s fr reason ev w1 Hin1 Hev Hfail)
      as (_ & _ & _ & Hset & _ & _ & _ & Hprom).
    exists (CallReject (refreshFailedError reason)). split; [|split; [|done]].
    + rewrite Hset. apply elem_of_app. right. unfold reject_calls.
      apply (list_elem_of_fmap_2
               (fun e => (promise e, CallReject (refreshFailedError reason)))
               _ {| request := r; promise := length (promises w) |}).
      apply list_elem_of_lookup. eauto.
    + apply (Hprom {| request := r; promise := length (promises w) |}).
      apply list_elem_of_lookup. eauto.
  - destruct (fan_out_success cfg s fr newToken ev fmt w1 Hin1 Hev Hsucc Hfmt)
      as (_ & _ & _ & Hset & _ & _ & Hprom).
    destruct (Hprom _ _ Hlast) as (Hp & q & Hq & _).
    eexists (CallResolve _). split; [|split; [exact Hp|]].
    + rewrite Hset. apply elem_of_app. right. apply list_elem_of_lookup.
      eexists. by apply (resolve_calls_lookup _ _ _ _ Hlast).
    + eauto.
Qed.

(** C6. A request that joins after the renewal started is in the wait set
    when the race settles, whatever arrives in between, and the fan-out
    covers it: on success it is resolved with the replay of its request
    (carrying the new header when there is a new token), on failure or
    timeout it is rejected; the wait set is empty afterwards. *)
Theorem late_joiner_inclusion (s : nat) (fr : Frame) (error : AxiosError)
    (r : ReqRef) (evs : list Event) (settled : Res Token) (ev : Event)
    (fmt : string -> string) w :
  classifier_total cfg ->
  observer_returns cfg Status.success ->
  observer_returns cfg Status.failed ->
  formatter_is cfg fmt ->
  in_flight s fr w ->
  config error = Some r ->
  _retry (requests w r) = false ->
  classifier_returns cfg true error (requests w r) ->
  Forall arrival evs ->
  settles (run cfg (ResponseError error :: evs) w) s settled ev ->
  {| request := r; promise := length (promises w) |}
    ∈ pendingRequests (closure (run cfg (ResponseError error :: evs) w)) /\
  pendingRequests
    (closure (step cfg ev (run cfg (ResponseError error :: evs) w))) = [] /\
  match settled with
  | inr newToken =>
    exists k q,
      promises (step cfg ev (run cfg (ResponseError error :: evs) w))
        !! length (promises w) = Some (Resolved k) /\
      replays (step cfg ev (run cfg (ResponseError error :: evs) w)) !! k
        = Some {| replayed := r; sent := q |} /\
      forall token, newToken = Some token -> token <> "" ->
        headers q !! "Authorization" = Some (fmt token)
  | inl reason =>
    promises (step cfg ev (run cfg (ResponseError error :: evs) w))
      !! length (promises w) = Some (Rejected (refreshFailedError reason))
  end.
Proof.
  intros Htot Hsucc Hfail Hfmt Hin Hc Hr Hcls Hevs.
  cbn [run fold_left]. fold (run cfg evs (step cfg (ResponseError error) w)).
  destruct (in_flight_response cfg s fr error w Htot Hin) as (Hin1 & _).
  destruct Hin as (Hflag & Hs & Hw).
  destruct (step_joiner cfg error r w Hc Hr Hcls Hflag) as [h' Hstep].
  set (w1 := step cfg (ResponseError error) w) in *.
  destruct (in_flight_arrivals cfg s fr evs w1 Htot Hin1 Hevs)
    as (Hin2 & _ & _ & _ & _ & Hkeep).
  set (w2 := run cfg evs w1) in *.
  intros Hev.
  assert (Hmem : {| request := r; promise := length (promises w) |}
                   ∈ pendingRequests (closure w2)).
  { apply Hkeep. rewrite Hstep. cbn. apply elem_of_app. right.
    by apply list_elem_of_singleton. }
  split; [exact Hmem|].
  destruct settled as [reason|newToken].
  - destruct (fan_out_failure cfg s fr reason ev w2 Hin2 Hev Hfail)
      as (Hclo & _ & _ & _ & _ & _ & _ & Hprom).
    split; [by rewrite Hclo|]. by apply (Hprom _ Hmem).
  - destruct (fan_out_success cfg s fr newToken ev fmt w2 Hin2 Hev Hsucc Hfmt)
      as (Hclo & _ & _ & _ & _ & _ & Hprom).
    split; [by rewrite Hclo|].
    apply list_elem_of_lookup in Hmem as [i Hi].
    destruct (Hprom _ _ Hi) as (Hp & q & Hq & Hv).
    exists (length (replays w2) + i), q. split; [exact Hp|].
    split; [exact Hq|]. intros token -> Hne.
    unfold header_value in Hv. cbn in Hv.
    apply String.eqb_neq in Hne. by rewrite Hne in Hv.
Qed.

(** Single flight and reset where the callbacks return.  When eligible
    failures of N distinct requests arrive while no
    renewal is in progress, the first one starts the renewal and the others
    join: [refreshTokenFn] has been invoked exactly once when the race
    settles (by the renewal resolving or rejecting, or by the timer once
    time has passed) and is not invoked by the settlement; the wait set
    holds exactly the N requests, and each of them is settled from the one
    outcome (resolved with the replay of its request, or rejected with the
    refresh failure).  Afterwards the flag is cleared and the wait set is
    empty.  The flag is in fact cleared whenever a parked initiator has
    run on, however the race settled and whatever the callbacks did on the
    way, and with the flag cleared the next eligible failure starts a new
    renewal.  An exception before the renewal is awaited does not come
    this way; the interceptor's [catch] block deals with it. *)
Theorem single_flight_with_reset (error : AxiosError)
    (errors : list AxiosError) (ms : N) (settled : Res Token) (ev : Event)
    (fmt : string -> string) w :
  observer_returns cfg Status.refreshing ->
  observer_returns cfg Status.success ->
  observer_returns cfg Status.failed ->
  formatter_is cfg fmt ->
  renewal_starts cfg ->
  isRefreshing (closure w) = false ->
  pendingRequests (closure w) = [] ->
  Forall (eligible cfg w) (error :: errors) ->
  NoDup (map config (error :: errors)) ->
  settles (arrived cfg (error :: errors) ms w) (length (sessions w))
    settled ev ->
  refreshCalls (arrived cfg (error :: errors) ms w) = S (refreshCalls w) /\
  refreshCalls (step cfg ev (arrived cfg (error :: errors) ms w))
    = S (refreshCalls w) /\
  map (fun e => Some (request e))
      (pendingRequests (closure (arrived cfg (error :: errors) ms w)))
    = map config (error :: errors) /\
  (forall e,
     e ∈ pendingRequests (closure (arrived cfg (error :: errors) ms w)) ->
     match settled with
     | inr _ =>
       exists k q,
         promises (step cfg ev (arrived cfg (error :: errors) ms w))
           !! promise e = Some (Resolved k) /\
         replays (step cfg ev (arrived cfg (error :: errors) ms w)) !! k
           = Some {| replayed := request e; sent := q |}
     | inl reason =>
       promises (step cfg ev (arrived cfg (error :: errors) ms w))
         !! promise e = Some (Rejected (refreshFailedError reason))
     end) /\
  closure (step cfg ev (arrived cfg (error :: errors) ms w))
    = initial_closure /\
  (forall fr' settled' w',
     isRefreshing (closure (snd (onRejected_resume cfg fr' settled' w')))
     = false) /\
  (forall error' w',
     isRefreshing (closure w') = false -> eligible cfg w' error' ->
     refreshCalls (step cfg (ResponseError error') w') = S (refreshCalls w') /\
     isRefreshing (closure (step cfg (ResponseError error') w')) = true /\
     notified (step cfg (ResponseError error') w')
       = notified w' ++ [(Status.refreshing, None)]).
Proof.
  intros Hobs Hsucc Hfail Hfmt Hstart Hflag Hempty Hel Hnd.
  apply Forall_cons in Hel as [(r & Hc & Hr & Hcls) Hel].
  cbn in Hnd. apply NoDup_cons in Hnd as [Hnotin Hnd].
  unfold arrived. cbn [map run fold_left].
  fold (run cfg (map ResponseError errors) (step cfg (ResponseError error) w)).
  destruct (step_initiator cfg error r w Hc Hr Hcls Hflag Hobs Hstart)
    as [h0 Hstep].
  set (w0 := step cfg (ResponseError error) w) in *.
  set (fr := {| f_error := error; f_originalRequest := r;
                f_retryPromise := length (promises w) |}) in *.
  assert (Hin0 : in_flight (length (sessions w)) fr w0).
  { rewrite Hstep. split; [done|]. split.
    - eexists. cbn. by rewrite lookup_app_r, Nat.sub_diag.
    - assert (Hw : waiting w).
      { unfold waiting, pending_promises. rewrite Hempty. split;
          [constructor|]. intros p Hp. by apply elem_of_nil in Hp. }
      apply (waiting_join w r Hw). }
  assert (Hel0 : Forall (eligible cfg w0) errors).
  { apply Forall_forall. intros e' He'.
    apply (eligible_after_mark cfg w _ r e').
    - by eapply Forall_forall in Hel.
    - intros E. apply Hnotin. rewrite Hc, <- E. by apply list_elem_of_fmap_2.
    - by rewrite Hstep. }
  destruct (joiners_run cfg _ fr errors w0 Hin0 Hel0 Hnd)
    as (Hin1 & Hcalls & _ & Hreqs).
  set (w1 := run cfg (map ResponseError errors) w0) in *.
  assert (Hin2 : in_flight (length (sessions w)) fr (step cfg (Elapse ms) w1))
    by exact Hin1.
  set (w2 := step cfg (Elapse ms) w1) in *.
  intros Hev.
  assert (Hcalls1 : refreshCalls w2 = S (refreshCalls w)).
  { change (refreshCalls w2) with (refreshCalls w1). by rewrite Hcalls, Hstep. }
  split; [exact Hcalls1|].
  assert (Hwait : map (fun e => Some (request e))
                    (pendingRequests (closure w2))
                  = Some r :: map config errors).
  { change (closure w2) with (closure w1). rewrite Hreqs, Hstep. cbn.
    by rewrite Hempty. }
  rewrite Hc.
  destruct settled as [reason|newToken].
  - destruct (fan_out_failure cfg _ fr reason ev w2 Hin2 Hev Hfail)
      as (Hclo & Hcalls2 & _ & _ & _ & _ & _ & Hprom).
    split; [by rewrite Hcalls2|]. split; [exact Hwait|].
    split; [exact Hprom|]. split; [exact Hclo|]. split.
    + intros. apply onRejected_resume_clears.
    + intros error' w' Hflag' (r' & Hc' & Hr' & Hcls').
      destruct (step_initiator cfg error' r' w' Hc' Hr' Hcls' Hflag' Hobs
                  Hstart) as [h' ->]. done.
  - destruct (fan_out_success cfg _ fr newToken ev fmt w2 Hin2 Hev Hsucc Hfmt)
      as (Hclo & Hcalls2 & _ & _ & _ & _ & Hprom).
    split; [by rewrite Hcalls2|]. split; [exact Hwait|]. split.
    { intros e [i Hi]%list_elem_of_lookup.
      destruct (Hprom _ _ Hi) as (Hp & q & Hq & _). eauto. }
    split; [exact Hclo|]. split.
    + intros. apply onRejected_resume_clears.
    + intros error' w' Hflag' (r' & Hc' & Hr' & Hcls').
      destruct (step_initiator cfg error' r' w' Hc' Hr' Hcls' Hflag' Hobs
                  Hstart) as [h' ->]. done.
Qed.

(** C5. When the race settles with a token and the token is a credential
    (a non-empty string), every entry of the wait set has the formatted
    token written to the [Authorization] header of its request before
    [axios(request)] is called, and is resolved with the promise of that
    call; the request object keeps the header.  When the renewal resolves
    with [null] (or an empty string) no request object is changed and each
    entry is resolved with the replay of its request as it stands.  The
    default formatter puts [Bearer ] before the token. *)
Theorem credential_rewrite (s : nat) (fr : Frame) (newToken : Token)
    (ev : Event) (fmt : string -> string) w :
  in_flight s fr w ->
  settles w s (inr newToken) ev ->
  observer_returns cfg Status.success ->
  formatter_is cfg fmt ->
  (forall token, newToken = Some token -> token <> "" ->
     forall e, e ∈ pendingRequests (closure w) ->
       exists k q,
         promises (step cfg ev w) !! promise e = Some (Resolved k) /\
         replays (step cfg ev w) !! k
           = Some {| replayed := request e; sent := q |} /\
         headers q !! "Authorization" = Some (fmt token) /\
         headers (requests (step cfg ev w) (request e)) !! "Authorization"
           = Some (fmt token)) /\
  (truthy newToken = false ->
     requests (step cfg ev w) = requests w /\
     forall e, e ∈ pendingRequests (closure w) ->
       exists k,
         promises (step cfg ev w) !! promise e = Some (Resolved k) /\
         replays (step cfg ev w) !! k
           = Some {| replayed := request e;
                     sent := requests w (request e) |}) /\
  (forall options,
     resolve_options options = inr cfg ->
     raw_authHeaderFormatter options = None ->
     forall token h,
       authHeaderFormatter cfg token h = (inr ("Bearer " +:+ token), h)).
Proof.
  intros Hin Hev Hsucc Hfmt.
  destruct (fan_out_success cfg s fr newToken ev fmt w Hin Hev Hsucc Hfmt)
    as (_ & _ & _ & _ & Hreq & _ & Hprom).
  split; [|split].
  - intros token -> Hne e He.
    assert (Hv : header_value fmt (Some token) = Some (fmt token)).
    { unfold header_value. cbn. apply String.eqb_neq in Hne.
      by rewrite Hne. }
    pose proof He as [i Hi]%list_elem_of_lookup.
    destruct (Hprom _ _ Hi) as (Hp & q & Hq & Hh). rewrite Hv in Hh.
    exists (length (replays w) + i), q. split; [exact Hp|].
    split; [exact Hq|]. split; [exact Hh|].
    rewrite Hreq, Hv. by apply replayed_requests_header.
  - intros Hfalsy.
    assert (Hv : header_value fmt newToken = None)
      by (unfold header_value; by rewrite Hfalsy).
    rewrite Hv in *. split; [by rewrite Hreq, replayed_requests_none|].
    intros e [i Hi]%list_elem_of_lookup.
    destruct (Hprom _ _ Hi) as (Hp & q & Hq & ->). eauto.
  - intros options Hres Hdef token h. unfold resolve_options in Hres.
    destruct (raw_refreshTokenFn options); [|discriminate].
    destruct (raw_getAuthToken options); [|discriminate].
    injection Hres as <-. cbn. by rewrite Hdef.
Qed.

(** C4, as amended.  When the renewal operation rejects, or the timer of
    the session fires when due while the race is unsettled, and the
    [failed] notification returns normally, every entry of the wait set is
    rejected with a new error [Token refresh failed] whose [originalError]
    is the cause: the rejection reason itself when that is an [Error]
    ([Token refresh timeout] for the timer), and a generic
    [Error("Token refresh failed")] when the reason is not an [Error].
    The observer is notified [failed] with the cause, and the wait set
    and the flag are cleared.  The timer of a renewal is set
    [refreshTimeout] after its start, 10000 ms by default. *)
Theorem renewal_failure_fan_out (s : nat) (fr : Frame) (reason : Thrown)
    (ev : Event) w :
  in_flight s fr w ->
  settles w s (inl reason) ev ->
  observer_returns cfg Status.failed ->
  (forall e, e ∈ pendingRequests (closure w) ->
     promises (step cfg ev w) !! promise e
     = Some (Rejected
               (mkError "Token refresh failed"
                  (Some (asError reason "Token refresh failed"))))) /\
  (forall cause, reason = ThrownError cause ->
     asError reason "Token refresh failed" = cause) /\
  (forall v, reason = ThrownValue v ->
     asError reason "Token refresh failed"
     = mkError "Token refresh failed" None) /\
  (ev = TimeoutFired s ->
     asError reason "Token refresh failed"
     = mkError "Token refresh timeout" None) /\
  notified (step cfg ev w)
    = notified w ++
        [(Status.failed, Some (asError reason "Token refresh failed"))] /\
  closure (step cfg ev w) = initial_closure /\
  (forall error r w0,
     config error = Some r -> _retry (requests w0 r) = false ->
     classifier_returns cfg true error (requests w0 r) ->
     isRefreshing (closure w0) = false ->
     observer_returns cfg Status.refreshing -> renewal_starts cfg ->
     exists fr0,
       sessions (step cfg (ResponseError error) w0) !! length (sessions w0)
       = Some {| deadline := (now w0 + refreshTimeout cfg)%N;
                 waiter := Some fr0 |}) /\
  (forall options,
     resolve_options options = inr cfg ->
     raw_refreshTimeout options = None -> refreshTimeout cfg = 10000%N).
Proof.
  intros Hin Hev Hfail.
  destruct (fan_out_failure cfg s fr reason ev w Hin Hev Hfail)
    as (Hclo & _ & Hnot & _ & _ & _ & _ & Hprom).
  split; [exact Hprom|]. split; [by intros cause ->|].
  split; [by intros v ->|]. split.
  { intros ->. destruct Hev as [[=]|(_ & [= ->] & _)]. reflexivity. }
  split; [exact Hnot|]. split; [exact Hclo|]. split.
  - intros error r w0 Hc Hr Hcls Hflag Hobs Hstart.
    destruct (step_initiator cfg error r w0 Hc Hr Hcls Hflag Hobs Hstart)
      as [h' ->]. eexists. cbn. by rewrite lookup_app_r, Nat.sub_diag.
  - intros options Hres Hdef. unfold resolve_options in Hres.
    destruct (raw_refreshTokenFn options); [|discriminate].
    destruct (raw_getAuthToken options); [|discriminate].
    injection Hres as <-. cbn. by rewrite Hdef.
Qed.

(** C8, as amended.  When the [try] block of the interceptor throws while
    the flag is set (the classifier throws during a renewal, the
    [refreshing] notification throws, or [refreshTokenFn] throws before
    handing back a promise) and the [error] notification returns normally,
    the observer is notified [error] with the exception, every entry of the
    wait set is rejected with the exception itself when it is an [Error]
    and with [Error("Unknown error in refresh token interceptor")], which
    does not carry the thrown value, otherwise; the wait set and the flag
    are cleared, and the failed call is handed back rejected with its
    original failure. *)
Theorem internal_exception_safety_net (error : AxiosError) (r : ReqRef)
    (t : Thrown) (h' : Host U) (w w1 : World U) :
  config error = Some r ->
  tryBlock cfg error r w = (inl t, w1) ->
  isRefreshing (closure w1) = true ->
  waiting w1 ->
  onStatusChange cfg Status.error (Some (interceptorError t))
    (console_write
       ("Error in refresh token interceptor: " +:+
          message (interceptorError t)) (host w1)) = (inr tt, h') ->
  notified (step cfg (ResponseError error) w)
    = notified w1 ++ [(Status.error, Some (interceptorError t))] /\
  settlements (step cfg (ResponseError error) w)
    = settlements w1 ++
        reject_calls (interceptorError t) (pendingRequests (closure w1)) /\
  (forall e, e ∈ pendingRequests (closure w1) ->
     promises (step cfg (ResponseError error) w) !! promise e
     = Some (Rejected (interceptorError t))) /\
  (forall cause, t = ThrownError cause -> interceptorError t = cause) /\
  (forall v, t = ThrownValue v ->
     interceptorError t
     = mkError "Unknown error in refresh token interceptor" None) /\
  closure (step cfg (ResponseError error) w) = initial_closure /\
  returned (step cfg (ResponseError error) w)
    = returned w1 ++ [(error, RejectOriginal error)] /\
  ((exists h1,
      shouldRefreshToken cfg error (requests w r) (host w) = (inl t, h1) /\
      isRefreshing (closure w) = true) \/
   (isRefreshing (closure w) = false /\
    exists h1 h2,
      shouldRefreshToken cfg error (requests w r) (host w) = (inr true, h1) /\
      (onStatusChange cfg Status.refreshing None h1 = (inl t, h2) \/
       exists h3,
         onStatusChange cfg Status.refreshing None h1 = (inr tt, h2) /\
         refreshTokenFn cfg h2 = (inl t, h3)))).
Proof.
  intros Hc Htry Hflag [Hnd Hp] Hobs. cbn [step]. unfold onRejected.
  rewrite Hc. unfold bind, try_catch. rewrite Htry.
  rewrite (interceptorCatch_reset cfg t h' w1 Hflag Hobs).
  cbn. split; [done|]. split; [done|]. split.
  { intros e He.
    apply (settle_all_entry _ _ _ (CallReject (interceptorError t))).
    - by rewrite reject_calls_promises.
    - unfold reject_calls.
      by apply (list_elem_of_fmap_2
                  (fun e => (promise e, CallReject (interceptorError t)))).
    - apply Hp. by apply list_elem_of_fmap_2. }
  split; [by intros cause ->|]. split; [by intros v ->|].
  split; [done|]. split; [done|].
  destruct (tryBlock_throws cfg error r t w w1 Htry)
    as [(h1 & Hcls & Hclo & _)|(Hidle & _ & _ & h1 & h2 & Hcls & Hwho)].
  - left. exists h1. split; [exact Hcls|]. by rewrite <- Hclo.
  - right. split; [exact Hidle|]. by exists h1, h2.
Qed.
End Claims.

(** ** A renewal that cannot settle *)

Section Stranded.
Context {U : Type}.
Variable cfg : Options U.
Implicit Type w : World U.

Lemma stranded_wake s settled w : stranded w -> wake cfg s settled w = w.
Proof.
  intros [_ Hs]. unfold wake.
  destruct (sessions w !! s) as [[d [fr|]]|] eqn:E; try done.
  by apply Hs in E.
Qed.

(** With the flag set and nobody parked, no event settles anything or
    starts a renewal; arriving failures are handed back or join the wait
    set and stay there. *)
Lemma stranded_step ev w :
  classifier_total cfg -> stranded w ->
  stranded (step cfg ev w) /\
  refreshCalls (step cfg ev w) = refreshCalls w /\
  settlements (step cfg ev w) = settlements w /\
  (forall p, promises w !! p = Some Pending ->
             promises (step cfg ev w) !! p = Some Pending) /\
  (forall e, e ∈ pendingRequests (closure w) ->
             e ∈ pendingRequests (closure (step cfg ev w))).
Proof.
  intros Htot Hst. destruct ev as [error|s settled|s|ms]; cbn [step].
  - destruct Hst as [Hflag Hs]. unfold stranded.
    destruct (config error) as [r|] eqn:Hc.
    + destruct (Htot error (requests w r) (host w)) as (b & h' & Hcls).
      destruct (bool_decide (b = false \/ _retry (requests w r) = true))
        eqn:Hb.
      * apply bool_decide_eq_true in Hb.
        rewrite (onRejected_turned_away cfg error r b h' w) by done.
        cbn. done.
      * apply bool_decide_eq_false in Hb.
        assert (b = true) as -> by (destruct b; tauto).
        assert (_retry (requests w r) = false) as Hr
          by (destruct (_retry (requests w r)); tauto).
        rewrite (onRejected_joiner cfg error r h' w) by done.
        cbn. split; [done|]. split; [done|]. split; [done|]. split.
        -- intros p Hp. rewrite lookup_app_l; [done|].
           by eapply lookup_lt_Some.
        -- intros e He. apply elem_of_app. by left.
    + rewrite onRejected_no_config by done. cbn. done.
  - by rewrite stranded_wake.
  - destruct (sessions w !! s) as [x|]; [|done].
    destruct (deadline x <=? now w)%N; [|done]. by rewrite stranded_wake.
  - done.
Qed.

Lemma stranded_run evs w :
  classifier_total cfg -> stranded w ->
  stranded (run cfg evs w) /\
  refreshCalls (run cfg evs w) = refreshCalls w /\
  settlements (run cfg evs w) = settlements w /\
  (forall p, promises w !! p = Some Pending ->
             promises (run cfg evs w) !! p = Some Pending) /\
  (forall e, e ∈ pendingRequests (closure w) ->
             e ∈ pendingRequests (closure (run cfg evs w))).
Proof.
  intros Htot. revert w. induction evs as [|ev evs IH]; intros w Hst.
  - done.
  - cbn [run fold_left].
    destruct (stranded_step ev w Htot Hst) as (Hst1 & Hc1 & Hs1 & Hp1 & He1).
    destruct (IH _ Hst1) as (Hst2 & Hc2 & Hs2 & Hp2 & He2).
    unfold run in *. split; [done|]. split; [congruence|].
    split; [congruence|]. split; [by intros p Hp; apply Hp2, Hp1|].
    intros e He. by apply He2, He1.
Qed.
End Stranded.

(** ** The concrete setting *)

Lemma example_resolves : resolve_options example_raw = inr example_options.
Proof. reflexivity. Qed.

Lemma default_classifier_total (getAuthToken : Callback unit Token) :
  (forall h, exists token h', getAuthToken h = (inr token, h')) ->
  forall error config h,
    exists b h',
      default_shouldRefreshToken getAuthToken error config h = (inr b, h').
Proof.
  intros Hg error config h. unfold default_shouldRefreshToken.
  destruct (Hg h) as (token & h' & Hh).
  destruct (response error) as [r|]; [destruct (status r =? 401)%Z|];
    rewrite ?Hh; by eexists _, _.
Qed.

Lemma example_classifier_total : classifier_total example_options.
Proof.
  intros error config h.
  apply (default_classifier_total example_getAuthToken).
  intros h0. by exists (Some "old-token"), h0.
Qed.

Lemma throwing_classifier_total : classifier_total throwing_options.
Proof.
  intros error config h.
  apply (default_classifier_total example_getAuthToken).
  intros h0. by exists (Some "old-token"), h0.
Qed.

Lemma example_observer_returns status :
  observer_returns example_options status.
Proof. intros error h. eexists. reflexivity. Qed.

Lemma example_formatter :
  formatter_is example_options (fun token => "Bearer " +:+ token).
Proof. intros token h. by exists h. Qed.

Lemma example_renewal_starts : renewal_starts example_options.
Proof. intros h. by exists h. Qed.

Lemma example_unauthorized_returns (r : ReqRef) (config : Request) :
  classifier_returns example_options true (unauthorized r) config.
Proof. intros h. by exists h. Qed.

Lemma example_eligible (r : ReqRef) :
  eligible example_options example_world (unauthorized r).
Proof.
  exists r. split; [done|]. split; [done|]. apply example_unauthorized_returns.
Qed.

Lemma renewing_in_flight : in_flight 0 example_frame renewing_world.
Proof.
  assert (Hc : closure renewing_world
               = {| pendingRequests := [{| request := 0; promise := 0 |}];
                    isRefreshing := true; refreshPromise := Some 0 |})
    by by_computation.
  assert (Hs : sessions renewing_world
               = [{| deadline := 10000; waiter := Some example_frame |}])
    by by_computation.
  assert (Hp : promises renewing_world = [Pending]) by by_computation.
  unfold in_flight, waiting, pending_promises. rewrite Hc, Hs, Hp. cbn.
  split; [reflexivity|]. split; [by eexists|]. split.
  - apply NoDup_singleton.
  - intros p ->%list_elem_of_singleton. reflexivity.
Qed.

Lemma overdue_in_flight : in_flight 0 example_frame overdue_world.
Proof.
  assert (Hc : closure overdue_world
               = {| pendingRequests := [{| request := 0; promise := 0 |}];
                    isRefreshing := true; refreshPromise := Some 0 |})
    by by_computation.
  assert (Hs : sessions overdue_world
               = [{| deadline := 10000; waiter := Some example_frame |}])
    by by_computation.
  assert (Hp : promises overdue_world = [Pending]) by by_computation.
  unfold in_flight, waiting, pending_promises. rewrite Hc, Hs, Hp. cbn.
  split; [reflexivity|]. split; [by eexists|]. split.
  - apply NoDup_singleton.
  - intros p ->%list_elem_of_singleton. reflexivity.
Qed.

(** ** The claims at concrete inputs *)

Lemma default_classifier_policy_witness :
  fst (shouldRefreshToken example_options (unauthorized 0) example_request
         example_host) = inr true.
Proof.
  apply (default_classifier_policy example_options example_raw
           (unauthorized 0) example_request example_host);
    [reflexivity|reflexivity|].
  split.
  - left. exists {| status := 401 |}. split; reflexivity.
  - exists (Some "old-token"). split; reflexivity.
Defined.

Lemma not_retryable_propagation_witness :
  returned (step example_options (ResponseError (server_error 0))
              example_world)
  = [(server_error 0, RejectOriginal (server_error 0))] /\
  closure (step example_options (ResponseError (server_error 0))
             example_world) = initial_closure.
Proof.
  assert (H : config (server_error 0) = None \/
              exists r b h',
                config (server_error 0) = Some r /\
                shouldRefreshToken example_options (server_error 0)
                  (requests example_world r) (host example_world)
                = (inr b, h') /\
                (b = false \/ _retry (requests example_world r) = true)).
  { right. exists 0, false, example_host.
    split; [reflexivity|]. split; [reflexivity|]. left. reflexivity. }
  destruct (not_retryable_propagation example_options (server_error 0)
              example_world H) as (_ & Hret & Hclo & _).
  split; [exact Hret|exact Hclo].
Defined.

Lemma joiner_push_settlement_witness :
  returned (step example_options (ResponseError (unauthorized 1))
              renewing_world)
  = returned renewing_world ++
      [(unauthorized 1,
        ReturnRetryPromise (length (promises renewing_world)))] /\
  sessions (step example_options (ResponseError (unauthorized 1))
              renewing_world)
  = sessions renewing_world.
Proof.
  assert (Hr : _retry (requests renewing_world 1) = false)
    by by_computation.
  destruct (joiner_push_settlement example_options 0 example_frame
              (unauthorized 1) 1 renewing_world example_classifier_total
              renewing_in_flight eq_refl Hr
              (example_unauthorized_returns 1 _))
    as (_ & Hret & _ & _ & Hses & _).
  split; [exact Hret|exact Hses].
Defined.

Lemma late_joiner_inclusion_witness :
  exists k q,
    promises
      (step example_options (RefreshSettled 0 (inr (Some "newtok")))
         (run example_options
            [ResponseError (unauthorized 1); Elapse 50;
             ResponseError (unauthorized 2)] renewing_world))
      !! length (promises renewing_world) = Some (Resolved k) /\
    replays
      (step example_options (RefreshSettled 0 (inr (Some "newtok")))
         (run example_options
            [ResponseError (unauthorized 1); Elapse 50;
             ResponseError (unauthorized 2)] renewing_world)) !! k
    = Some {| replayed := 1; sent := q |} /\
    headers q !! "Authorization" = Some "Bearer newtok".
Proof.
  assert (Hevs : Forall arrival [Elapse 50; ResponseError (unauthorized 2)])
    by (repeat constructor).
  assert (Hr : _retry (requests renewing_world 1) = false)
    by by_computation.
  destruct (late_joiner_inclusion example_options 0 example_frame
              (unauthorized 1) 1 [Elapse 50; ResponseError (unauthorized 2)]
              (inr (Some "newtok")) (RefreshSettled 0 (inr (Some "newtok")))
              (fun token => "Bearer " +:+ token) renewing_world
              example_classifier_total
              (example_observer_returns Status.success)
              (example_observer_returns Status.failed)
              example_formatter renewing_in_flight eq_refl Hr
              (example_unauthorized_returns 1 _) Hevs (or_introl eq_refl))
    as (_ & _ & k & q & Hp & Hq & Hh).
  exists k, q. split; [exact Hp|]. split; [exact Hq|].
  apply (Hh "newtok"); [reflexivity|discriminate].
Defined.

Lemma single_flight_with_reset_witness :
  refreshCalls
    (step example_options (TimeoutFired 0)
       (arrived example_options
          [unauthorized 0; unauthorized 1; unauthorized 2] 10000
          example_world)) = 1 /\
  closure
    (step example_options (TimeoutFired 0)
       (arrived example_options
          [unauthorized 0; unauthorized 1; unauthorized 2] 10000
          example_world))
  = initial_closure.
Proof.
  assert (Hel : Forall (eligible example_options example_world)
                  [unauthorized 0; unauthorized 1; unauthorized 2])
    by (repeat constructor; apply example_eligible).
  assert (Hnd : NoDup (map config
                         [unauthorized 0; unauthorized 1; unauthorized 2]))
    by (apply (bool_decide_unpack _); vm_compute; exact I).
  assert (Hs : sessions
                 (arrived example_options
                    [unauthorized 0; unauthorized 1; unauthorized 2] 10000
                    example_world)
               = [{| deadline := 10000; waiter := Some example_frame |}])
    by by_computation.
  assert (Hnow : now (arrived example_options
                        [unauthorized 0; unauthorized 1; unauthorized 2] 10000
                        example_world) = 10000%N) by by_computation.
  assert (Hev : settles
                  (arrived example_options
                     [unauthorized 0; unauthorized 1; unauthorized 2] 10000
                     example_world)
                  (length (sessions example_world)) (inl timeoutError)
                  (TimeoutFired 0)).
  { right. split; [reflexivity|]. split; [reflexivity|].
    eexists. rewrite Hs, Hnow. split; [reflexivity|]. cbn. lia. }
  destruct (single_flight_with_reset example_options (unauthorized 0)
              [unauthorized 1; unauthorized 2] 10000 (inl timeoutError)
              (TimeoutFired 0)
              (fun token => "Bearer " +:+ token) example_world
              (example_observer_returns Status.refreshing)
              (example_observer_returns Status.success)
              (example_observer_returns Status.failed)
              example_formatter example_renewal_starts eq_refl eq_refl
              Hel Hnd Hev)
    as (_ & Hcalls & _ & _ & Hclo & _).
  split; [exact Hcalls|exact Hclo].
Defined.

Lemma credential_rewrite_witness :
  exists k q,
    promises
      (step example_options (RefreshSettled 0 (inr (Some "abc")))
         renewing_world) !! promise {| request := 0; promise := 0 |}
    = Some (Resolved k) /\
    replays
      (step example_options (RefreshSettled 0 (inr (Some "abc")))
         renewing_world) !! k = Some {| replayed := 0; sent := q |} /\
    headers q !! "Authorization" = Some "Bearer abc".
Proof.
  destruct (credential_rewrite example_options 0 example_frame (Some "abc")
              (RefreshSettled 0 (inr (Some "abc")))
              (fun token => "Bearer " +:+ token) renewing_world
              renewing_in_flight (or_introl eq_refl)
              (example_observer_returns Status.success) example_formatter)
    as (Hrewrite & _).
  assert (Hne : "abc" <> "") by discriminate.
  assert (Hpend : pendingRequests (closure renewing_world)
                  = [{| request := 0; promise := 0 |}]) by by_computation.
  assert (Hin : {| request := 0; promise := 0 |}
                  ∈ pendingRequests (closure renewing_world))
    by (rewrite Hpend; apply list_elem_of_singleton; reflexivity).
  destruct (Hrewrite "abc" eq_refl Hne _ Hin) as (k & q & Hp & Hq & Hh & _).
  exists k, q. split; [exact Hp|]. split; [exact Hq|exact Hh].
Defined.

Lemma renewal_failure_fan_out_witness :
  promises (step example_options (TimeoutFired 0) overdue_world)
    !! promise {| request := 0; promise := 0 |}
  = Some (Rejected
            (mkError "Token refresh failed"
               (Some (asError timeoutError "Token refresh failed")))) /\
  notified (step example_options (TimeoutFired 0) overdue_world)
  = notified overdue_world ++
      [(Status.failed, Some (asError timeoutError "Token refresh failed"))].
Proof.
  assert (Hs : sessions overdue_world
               = [{| deadline := 10000; waiter := Some example_frame |}])
    by by_computation.
  assert (Hnow : now overdue_world = 10000%N) by by_computation.
  assert (Hpend : pendingRequests (closure overdue_world)
                  = [{| request := 0; promise := 0 |}]) by by_computation.
  assert (Hev : settles overdue_world 0 (inl timeoutError) (TimeoutFired 0)).
  { right. split; [reflexivity|]. split; [reflexivity|].
    eexists. rewrite Hs, Hnow. split; [reflexivity|]. cbn. lia. }
  destruct (renewal_failure_fan_out example_options 0 example_frame
              timeoutError (TimeoutFired 0) overdue_world overdue_in_flight
              Hev (example_observer_returns Status.failed))
    as (Hprom & _ & _ & _ & Hnot & _).
  split; [|exact Hnot].
  apply (Hprom {| request := 0; promise := 0 |}).
  rewrite Hpend. apply list_elem_of_singleton. reflexivity.
Defined.

Lemma internal_exception_safety_net_witness :
  promises (step nervous_options (ResponseError (unauthorized 0))
              example_world) !! promise {| request := 0; promise := 0 |}
  = Some (Rejected (interceptorError (ThrownError observer_failure))) /\
  closure (step nervous_options (ResponseError (unauthorized 0))
             example_world) = initial_closure.
Proof.
  assert (Htry : tryBlock nervous_options (unauthorized 0) 0 example_world
                 = (inl (ThrownError observer_failure), nervous_world))
    by by_computation.
  assert (Hpend : pendingRequests (closure nervous_world)
                  = [{| request := 0; promise := 0 |}]) by by_computation.
  assert (Hprom0 : promises nervous_world = [Pending]) by by_computation.
  assert (Hflag : isRefreshing (closure nervous_world) = true)
    by by_computation.
  assert (Hw : waiting nervous_world).
  { unfold waiting, pending_promises. rewrite Hpend, Hprom0. split.
    - apply NoDup_singleton.
    - intros p ->%list_elem_of_singleton. reflexivity. }
  assert (Hobs : onStatusChange nervous_options Status.error
                   (Some (interceptorError (ThrownError observer_failure)))
                   (console_write
                      ("Error in refresh token interceptor: " +:+
                         message
                           (interceptorError (ThrownError observer_failure)))
                      (host nervous_world))
                 = (inr tt,
                    console_write
                      "Error in refresh token interceptor: observer failed"
                      example_host)) by by_computation.
  destruct (internal_exception_safety_net nervous_options (unauthorized 0) 0
              (ThrownError observer_failure) _ example_world nervous_world
              eq_refl Htry Hflag Hw Hobs)
    as (_ & _ & Hprom & _ & _ & Hclo & _).
  split; [|exact Hclo].
  apply (Hprom {| request := 0; promise := 0 |}).
  rewrite Hpend. apply list_elem_of_singleton. reflexivity.
Defined.

(** ** Where the code departs from the claims as they are written *)

(** C4, as written, fails: a renewal that rejects with a value that is not
    an [Error] leaves no trace of that value.  Two different rejection
    values give the waiting request the very same rejection, whose
    [originalError] is a generic error, and the observer is told the
    same. *)
Lemma renewal_failure_swallows_cause :
  ThrownValue "session expired" <> ThrownValue "quota exceeded" /\
  promises
    (step example_options
       (RefreshSettled 0 (inl (ThrownValue "session expired")))
       renewing_world)
  = [Rejected (mkError "Token refresh failed"
                 (Some (mkError "Token refresh failed" None)))] /\
  promises
    (step example_options
       (RefreshSettled 0 (inl (ThrownValue "quota exceeded")))
       renewing_world)
  = [Rejected (mkError "Token refresh failed"
                 (Some (mkError "Token refresh failed" None)))] /\
  notified
    (step example_options
       (RefreshSettled 0 (inl (ThrownValue "session expired")))
       renewing_world)
  = [(Status.refreshing, None);
     (Status.failed, Some (mkError "Token refresh failed" None))].
Proof.
  split; [discriminate|]. split; [by_computation|].
  split; by_computation.
Qed.

(** C8, as written, fails: when the [refreshing] notification throws an
    [Error], the waiting request is rejected with that very error, not
    with a new error that wraps it. *)
Lemma interceptor_error_not_wrapped :
  promises (step nervous_options (ResponseError (unauthorized 0))
              example_world) !! 0
  = Some (Rejected observer_failure) /\
  ~ (exists reason,
       promises (step nervous_options (ResponseError (unauthorized 0))
                   example_world) !! 0 = Some (Rejected reason) /\
       originalError reason = Some observer_failure).
Proof.
  assert (H : promises (step nervous_options
                          (ResponseError (unauthorized 0)) example_world)
               = [Rejected observer_failure]) by by_computation.
  rewrite H. split; [reflexivity|]. intros (reason & [= <-] & [=]).
Qed.

(** The same gap in the inner [catch]: two calls fail, the renewal
    rejects, and the observer throws when it is told [failed].  [finally]
    clears the flag, the outer [catch] then finds nothing to do, and both
    entries stay in the wait set with their promises pending; the initiator
    is handed its original failure, the joiner keeps waiting. *)
Lemma failed_notification_skips_rejections :
  promises sulking_world = [Pending; Pending] /\
  closure sulking_world
  = {| pendingRequests :=
         [{| request := 0; promise := 0 |}; {| request := 1; promise := 1 |}];
       isRefreshing := false;
       refreshPromise := None |} /\
  settlements sulking_world = [] /\
  returned sulking_world
  = [(unauthorized 1, ReturnRetryPromise 1);
     (unauthorized 0, RejectOriginal (unauthorized 0))].
Proof. repeat split; by_computation. Qed.

(** C9 at its failing input: the observer throws on every notification and
    a call fails with status 401.  The [refreshing] notification throws,
    the [catch] block notifies [error], which throws again, and the
    invocation ends there: the call is handed that exception, its entry
    stays in the wait set with its promise pending, the flag stays set and
    [refreshTokenFn] was never invoked.  Whatever happens afterwards,
    nothing settles the entry or clears the flag, and no renewal is ever
    started. *)
Theorem throwing_observer_strands_requests :
  returned stranded_world
  = [(unauthorized 0, Uncaught (ThrownError observer_failure))] /\
  forall evs,
    isRefreshing (closure (run throwing_options evs stranded_world)) = true /\
    {| request := 0; promise := 0 |}
      ∈ pendingRequests (closure (run throwing_options evs stranded_world)) /\
    promises (run throwing_options evs stranded_world) !! 0
      = Some Pending /\
    settlements (run throwing_options evs stranded_world) = [] /\
    refreshCalls (run throwing_options evs stranded_world) = 0.
Proof.
  assert (Hc : closure stranded_world
               = {| pendingRequests := [{| request := 0; promise := 0 |}];
                    isRefreshing := true; refreshPromise := None |})
    by by_computation.
  assert (Hs : sessions stranded_world = []) by by_computation.
  assert (Hp : promises stranded_world = [Pending]) by by_computation.
  assert (Hset : settlements stranded_world = []) by by_computation.
  assert (Hcalls : refreshCalls stranded_world = 0) by by_computation.
  assert (Hst : stranded stranded_world).
  { unfold stranded. rewrite Hc, Hs. split; [reflexivity|].
    intros s x Hx. by destruct s. }
  split; [by_computation|]. intros evs.
  destruct (stranded_run throwing_options evs stranded_world
              throwing_classifier_total Hst)
    as ((Hflag & _) & Hcalls' & Hset' & Hprom & Hkeep).
  split; [exact Hflag|]. split.
  - apply Hkeep. rewrite Hc. apply list_elem_of_singleton. reflexivity.
  - split; [apply Hprom; by rewrite Hp|].
    split; [by rewrite Hset', Hset|by rewrite Hcalls', Hcalls].
Qed.

(** C1 at its failing input, the one of C9: the observer throws on every
    notification and the call for request 0 fails with status 401.  The
    session ends in an internal error before [refreshTokenFn] is invoked:
    the [refreshing] notification throws, and the [error] notification
    throws again inside the [catch] block, before [isRefreshing = false]
    is reached.  The flag therefore stays set although no renewal is
    running and nobody is parked.  The failure of request 1 that arrives
    next is eligible, yet it starts nothing: the observer is not notified,
    the call is handed a retry promise and joins the wait set, and
    whatever happens afterwards [refreshTokenFn] is never invoked, the
    flag stays set and the promise stays pending. *)
Theorem internal_error_leaves_flag_set :
  returned stranded_world
  = [(unauthorized 0, Uncaught (ThrownError observer_failure))] /\
  sessions stranded_world = [] /\
  refreshCalls stranded_world = 0 /\
  closure stranded_world
  = {| pendingRequests := [{| request := 0; promise := 0 |}];
       isRefreshing := true;
       refreshPromise := None |} /\
  eligible throwing_options stranded_world (unauthorized 1) /\
  returned
    (step throwing_options (ResponseError (unauthorized 1)) stranded_world)
  = returned stranded_world ++ [(unauthorized 1, ReturnRetryPromise 1)] /\
  notified
    (step throwing_options (ResponseError (unauthorized 1)) stranded_world)
  = notified stranded_world /\
  forall evs,
    refreshCalls
      (run throwing_options (ResponseError (unauthorized 1) :: evs)
         stranded_world) = 0 /\
    isRefreshing
      (closure
         (run throwing_options (ResponseError (unauthorized 1) :: evs)
            stranded_world)) = true /\
    promises
      (run throwing_options (ResponseError (unauthorized 1) :: evs)
         stranded_world) !! 1 = Some Pending.
Proof.
  split; [by_computation|]. split; [by_computation|].
  split; [by_computation|]. split; [by_computation|]. split.
  { exists 1. split; [reflexivity|]. split; [by_computation|].
    intros h. by exists h. }
  split; [by_computation|]. split; [by_computation|].
  intros evs.
  change (run throwing_options (ResponseError (unauthorized 1) :: evs)
            stranded_world)
    with (run throwing_options evs
            (step throwing_options (ResponseError (unauthorized 1))
               stranded_world)).
  assert (Hc : closure
                 (step throwing_options (ResponseError (unauthorized 1))
                    stranded_world)
               = {| pendingRequests :=
                      [{| request := 0; promise := 0 |};
                       {| request := 1; promise := 1 |}];
                    isRefreshing := true; refreshPromise := None |})
    by by_computation.
  assert (Hs : sessions
                 (step throwing_options (ResponseError (unauthorized 1))
                    stranded_world) = []) by by_computation.
  assert (Hp : promises
                 (step throwing_options (ResponseError (unauthorized 1))
                    stranded_world) = [Pending; Pending]) by by_computation.
  assert (Hcalls : refreshCalls
                     (step throwing_options (ResponseError (unauthorized 1))
                        stranded_world) = 0) by by_computation.
  assert (Hst : stranded
                  (step throwing_options (ResponseError (unauthorized 1))
                     stranded_world)).
  { unfold stranded. rewrite Hc, Hs. split; [reflexivity|].
    intros s x Hx. by destruct s. }
  destruct (stranded_run throwing_options evs _ throwing_classifier_total Hst)
    as ((Hflag & _) & Hcalls' & _ & Hprom & _).
  split; [by rewrite Hcalls', Hcalls|]. split; [exact Hflag|].
  apply Hprom. by rewrite Hp.
Qed.

(** * Beyond the claims *)

(** ** What every path of the interceptor respects *)

Section Respects.
Context {U : Type}.
Variable R : World U -> World U -> Prop.
Hypothesis R_refl : forall w, R w w.
Hypothesis R_trans : forall w1 w2 w3, R w1 w2 -> R w2 w3 -> R w1 w3.

Lemma respects_ret {A} (a : A) : respects R (ret a).
Proof. intros w. apply R_refl. Qed.

Lemma respects_throw {A} (t : Thrown) : respects R (@throw U A t).
Proof. intros w. apply R_refl. Qed.

Lemma respects_gets {A} (f : World U -> A) : respects R (gets f).
Proof. intros w. apply R_refl. Qed.

Lemma respects_modify (f : World U -> World U) :
  (forall w, R w (f w)) -> respects R (modify f).
Proof. intros Hf w. apply Hf. Qed.

Lemma respects_bind {A B} (m : M U A) (k : A -> M U B) :
  respects R m -> (forall a, respects R (k a)) -> respects R (bind m k).
Proof.
  intros Hm Hk w. unfold bind. specialize (Hm w).
  destruct (m w) as [[t|a] w1]; cbn in *; [done|].
  eapply R_trans; [exact Hm|apply Hk].
Qed.

Lemma respects_try_catch {A} (body : M U A) (handler : Thrown -> M U A) :
  respects R body -> (forall t, respects R (handler t)) ->
  respects R (try_catch body handler).
Proof.
  intros Hb Hh w. unfold try_catch. specialize (Hb w).
  destruct (body w) as [[t|a] w1]; cbn in *; [|done].
  eapply R_trans; [exact Hb|apply Hh].
Qed.

Lemma respects_try_catch_finally {A} (body : M U A)
    (handler : Thrown -> M U A) (final : M U unit) :
  respects R body -> (forall t, respects R (handler t)) ->
  respects R final ->
  respects R (try_catch_finally body handler final).
Proof.
  intros Hb Hh Hf w. unfold try_catch_finally.
  pose proof (respects_try_catch body handler Hb Hh w) as H1.
  destruct (try_catch body handler w) as [r w1]. cbn in H1.
  specialize (Hf w1). destruct (final w1) as [[t|[]] w2]; cbn in *;
    eapply R_trans; eauto.
Qed.

Lemma respects_forEach {A} (l : list A) (f : A -> M U unit) :
  (forall x, respects R (f x)) -> respects R (forEach l f).
Proof.
  intros Hf. induction l as [|x l IH]; cbn [forEach].
  - apply respects_ret.
  - apply respects_bind; [apply Hf|]. intros _. exact IH.
Qed.

Lemma respects_if {A} (b : bool) (m1 m2 : M U A) :
  respects R m1 -> respects R m2 -> respects R (if b then m1 else m2).
Proof. by destruct b. Qed.

(** *** The interceptor, piece by piece *)

Variable cfg : Options U.

Hypothesis R_host : forall h w, R w (set_host h w).
Hypothesis R_clear :
  forall w, R w (set_closure (set_pendingRequests [] (closure w)) w).
Hypothesis R_flag :
  forall b w, R w (set_closure (set_isRefreshing b (closure w)) w).
Hypothesis R_refreshPromise :
  forall p w, R w (set_closure (set_refreshPromise p (closure w)) w).
Hypothesis R_notified : forall n w, R w (set_notified n w).
Hypothesis R_header :
  forall r v w,
    R w (set_requests
           (store_request r (set_header "Authorization" v) (requests w)) w).
Hypothesis R_replays : forall x w, R w (set_replays (replays w ++ [x]) w).
Hypothesis R_settle :
  forall p s w,
    R w (set_settlements (settlements w ++ [(p, s)])
           (set_promises (settle_promise p (state_of s) (promises w)) w)).

Lemma respects_call {A} (f : Callback U A) : respects R (call f).
Proof. intros w. unfold call. destruct (f (host w)). apply R_host. Qed.

Lemma respects_clear : respects R (@update_closure U (set_pendingRequests [])).
Proof. apply respects_modify. intros w. apply R_clear. Qed.

Lemma respects_flag b : respects R (@update_closure U (set_isRefreshing b)).
Proof. apply respects_modify. intros w. apply R_flag. Qed.

Lemma respects_refreshPromise p :
  respects R (@update_closure U (set_refreshPromise p)).
Proof. apply respects_modify. intros w. apply R_refreshPromise. Qed.

Lemma respects_notify status error : respects R (notify cfg status error).
Proof.
  apply respects_bind; [|intros _; apply respects_call].
  apply respects_modify. intros w. apply R_notified.
Qed.

Lemma respects_settle p s : respects R (settle p s).
Proof. apply respects_modify. intros w. apply R_settle. Qed.

Lemma respects_replay_entry newToken entry :
  respects R (replay_entry cfg newToken entry).
Proof.
  unfold replay_entry. apply respects_bind.
  - apply respects_if; [|apply respects_ret].
    destruct newToken as [token|]; [|apply respects_ret].
    apply respects_bind; [apply respects_call|]. intros v.
    apply respects_modify. intros w. apply R_header.
  - intros _. apply respects_bind.
    + intros w. apply R_replays.
    + intros k. apply respects_settle.
Qed.

Lemma respects_fanOutSuccess newToken : respects R (fanOutSuccess cfg newToken).
Proof.
  unfold fanOutSuccess.
  apply respects_bind; [apply respects_notify|]. intros _.
  apply respects_bind; [apply respects_gets|]. intros l.
  apply respects_bind; [|intros _; apply respects_clear].
  apply respects_forEach. intros e. apply respects_replay_entry.
Qed.

Lemma respects_fanOutFailure refreshError :
  respects R (fanOutFailure cfg refreshError).
Proof.
  unfold fanOutFailure.
  apply respects_bind; [apply respects_notify|]. intros _.
  apply respects_bind; [apply respects_gets|]. intros l.
  apply respects_bind; [|intros _; apply respects_clear].
  apply respects_forEach. intros e. apply respects_settle.
Qed.

Lemma respects_finallyReset : respects R (@finallyReset U).
Proof.
  apply respects_bind; [apply respects_flag|].
  intros _. apply respects_refreshPromise.
Qed.

Lemma respects_interceptorCatch t : respects R (interceptorCatch cfg t).
Proof.
  unfold interceptorCatch.
  apply respects_bind.
  { apply respects_modify. intros w. apply R_host. }
  intros _. apply respects_bind; [apply respects_gets|]. intros b.
  apply respects_if; [|apply respects_ret].
  apply respects_bind; [apply respects_notify|]. intros _.
  apply respects_bind; [apply respects_gets|]. intros l.
  apply respects_bind.
  { apply respects_forEach. intros e. apply respects_settle. }
  intros _. apply respects_bind; [apply respects_clear|].
  intros _. apply respects_bind; [apply respects_flag|].
  intros _. apply respects_refreshPromise.
Qed.

(** The resumed initiator respects [R] on every path. *)
Lemma respects_resume fr settled : respects R (onRejected_resume cfg fr settled).
Proof.
  unfold onRejected_resume.
  apply respects_bind; [|intros x; apply respects_ret].
  apply respects_try_catch.
  - apply respects_bind; [|intros _; apply respects_ret].
    apply respects_try_catch_finally.
    + apply respects_bind.
      * destruct settled; [apply respects_throw|apply respects_ret].
      * intros newToken. apply respects_fanOutSuccess.
    + intros t. apply respects_fanOutFailure.
    + apply respects_finallyReset.
  - intros t. apply respects_bind; [apply respects_interceptorCatch|].
    intros _. apply respects_ret.
Qed.

(** The entry segment does too, once the steps only it takes do. *)
Hypothesis R_mark :
  forall r w,
    R w (set_requests (store_request r mark_retry (requests w)) w).
Hypothesis R_new_promise :
  forall w, R w (set_promises (promises w ++ [Pending]) w).
Hypothesis R_push :
  forall e w,
    R w (set_closure
           (set_pendingRequests (pendingRequests (closure w) ++ [e])
              (closure w)) w).
Hypothesis R_sessions : forall s w, R w (set_sessions s w).
Hypothesis R_refreshCalls : forall n w, R w (set_refreshCalls n w).

Lemma respects_tryBlock error originalRequest :
  respects R (tryBlock cfg error originalRequest).
Proof.
  unfold tryBlock.
  apply respects_bind; [apply respects_gets|]. intros q.
  apply respects_bind; [apply respects_call|]. intros b.
  apply respects_if; [|apply respects_ret].
  apply respects_bind.
  { apply respects_modify. intros w. apply R_mark. }
  intros _. apply respects_bind.
  { intros w. apply R_new_promise. }
  intros p. apply respects_bind.
  { apply respects_modify. intros w. apply R_push. }
  intros _. apply respects_bind; [apply respects_gets|]. intros f.
  apply respects_if; [|apply respects_ret].
  apply respects_bind; [apply respects_flag|]. intros _.
  apply respects_bind; [apply respects_notify|]. intros _.
  apply respects_bind.
  { intros w. apply R_sessions. }
  intros s. apply respects_bind.
  { apply respects_bind; [|intros _; apply respects_call].
    apply respects_modify. intros w. apply R_refreshCalls. }
  intros _. apply respects_bind; [apply respects_refreshPromise|].
  intros _. apply respects_bind; [|intros _; apply respects_ret].
  apply respects_modify. intros w. apply R_sessions.
Qed.

Lemma respects_onRejected error : respects R (onRejected cfg error).
Proof.
  unfold onRejected. destruct (config error) as [r|]; [|apply respects_ret].
  apply respects_bind; [|intros x; apply respects_ret].
  apply respects_try_catch; [apply respects_tryBlock|].
  intros t. apply respects_bind; [apply respects_interceptorCatch|].
  intros _. apply respects_ret.
Qed.

Hypothesis R_returned : forall x w, R w (set_returned x w).
Hypothesis R_now : forall (t : N) w, (now w <= t)%N -> R w (set_now t w).

Lemma respects_deliver error (m : M U (option Outcome)) w :
  respects R m -> R w (deliver error (m w)).
Proof.
  intros Hm. specialize (Hm w). unfold deliver.
  destruct (m w) as [[t|[o|]] w1]; cbn in *; try done;
    (eapply R_trans; [exact Hm|apply R_returned]).
Qed.

Lemma respects_step ev w : R w (step cfg ev w).
Proof.
  destruct ev as [error|s settled|s|ms]; cbn [step].
  - apply respects_deliver, respects_onRejected.
  - unfold wake. destruct (sessions w !! s) as [[d [fr|]]|]; try apply R_refl.
    eapply R_trans; [|apply respects_deliver, respects_resume].
    apply R_sessions.
  - destruct (sessions w !! s) as [x|]; [|apply R_refl].
    destruct (deadline x <=? now w)%N; [|apply R_refl].
    unfold wake. destruct (sessions w !! s) as [[d [fr|]]|]; try apply R_refl.
    eapply R_trans; [|apply respects_deliver, respects_resume].
    apply R_sessions.
  - apply R_now. lia.
Qed.

Lemma respects_run evs w : R w (run cfg evs w).
Proof.
  revert w. induction evs as [|ev evs IH]; intros w; [apply R_refl|].
  cbn [run fold_left]. eapply R_trans; [apply (respects_step ev)|].
  apply IH.
Qed.
End Respects.

(** ** The entry segment, whatever the callbacks do *)

Section Shape.
Context {U : Type}.
Variable cfg : Options U.
Implicit Type w : World U.

Lemma alter_last {A} (f : A -> A) (l : list A) (x : A) :
  alter f (length l) (l ++ [x]) = l ++ [f x].
Proof.
  rewrite <- (Nat.add_0_r (length l)) at 1. by rewrite alter_app_r.
Qed.

(** The [try] block either leaves the coordinator's data alone, or takes
    the request in: marks it, gives it a fresh promise and appends its
    entry; only then, and only with the flag clear, can it go on to set a
    timer and call [refreshTokenFn]. *)
Lemma tryBlock_shape error r res w w1 :
  tryBlock cfg error r w = (res, w1) ->
  (closure w1 = closure w /\ requests w1 = requests w /\
   promises w1 = promises w /\ sessions w1 = sessions w /\
   refreshCalls w1 = refreshCalls w) \/
  (_retry (requests w r) = false /\
   requests w1 = store_request r mark_retry (requests w) /\
   promises w1 = promises w ++ [Pending] /\
   pendingRequests (closure w1)
   = pendingRequests (closure w) ++
       [{| request := r; promise := length (promises w) |}] /\
   ((isRefreshing (closure w) = true /\
     sessions w1 = sessions w /\ refreshCalls w1 = refreshCalls w) \/
    (isRefreshing (closure w) = false /\
     (refreshCalls w1 = refreshCalls w \/
      refreshCalls w1 = S (refreshCalls w)) /\
     (sessions w1 = sessions w \/
      exists x, sessions w1 = sessions w ++ [x])))).
Proof.
  unfold tryBlock, bind, gets, call, update_request, update_closure, modify,
    new_promise, notify, new_timeoutPromise, call_refreshTokenFn, park, ret,
    bind, modify, call.
  cbn.
  destruct (shouldRefreshToken cfg error (requests w r) (host w))
    as [[t0|b] h1] eqn:Hcls.
  { intros [= <- <-]. left. cbn. repeat split; reflexivity. }
  destruct (b && negb (_retry (requests w r))) eqn:Hb;
    [|intros [= <- <-]; left; cbn; repeat split; reflexivity].
  apply andb_prop in Hb as [-> Hr]. apply negb_true_iff in Hr. cbn.
  destruct (isRefreshing (closure w)) eqn:Hflag; cbn.
  { intros [= <- <-]. right. split; [exact Hr|].
    cbn. repeat (split; [reflexivity|]). left. repeat split; reflexivity. }
  destruct (onStatusChange cfg Status.refreshing None h1)
    as [[t1|[]] h2] eqn:Hobs; cbn.
  { intros [= <- <-]. right. split; [exact Hr|].
    cbn. repeat (split; [reflexivity|]). right.
    split; [reflexivity|]. split; left; reflexivity. }
  destruct (refreshTokenFn cfg h2) as [[t2|[]] h3] eqn:Hfn; cbn.
  { intros [= <- <-]. right. split; [exact Hr|].
    cbn. repeat (split; [reflexivity|]). right.
    split; [reflexivity|]. split; [by right|]. right. by eexists. }
  intros [= <- <-]. right. split; [exact Hr|].
  cbn. repeat (split; [reflexivity|]). right.
  split; [reflexivity|]. split; [by right|]. right.
  rewrite alter_last. by eexists.
Qed.
End Shape.

(** ** Invariants of every run *)

Section Invariants.
Context {U : Type}.
Variable cfg : Options U.
Implicit Type w : World U.

Lemma marks_kept_step ev w : marks_kept w (step cfg ev w).
Proof.
  apply (respects_step marks_kept); unfold marks_kept; cbn; try done.
  - intros w1 w2 w3 H1 H2 r Hr. by apply H2, H1.
  - intros r v w0 r' Hr. unfold store_request.
    by destruct (decide (r' = r)) as [->|].
  - intros r w0 r' Hr. unfold store_request.
    by destruct (decide (r' = r)) as [->|].
Qed.

(** X1. A request that is marked retried stays marked through every event,
    whatever the callbacks do: no path of the interceptor clears
    [_retry]. *)
Theorem retry_mark_is_permanent (evs : list Event) (r : ReqRef) w :
  _retry (requests w r) = true ->
  _retry (requests (run cfg evs w) r) = true.
Proof.
  revert w. induction evs as [|ev evs IH]; intros w Hr; [done|].
  cbn [run fold_left]. apply IH. by apply marks_kept_step.
Qed.

(** The resumed initiator and the interceptor's [catch] never call
    [refreshTokenFn] and never touch the races. *)
Lemma resume_keeps_refreshCalls fr settled w :
  refreshCalls (snd (onRejected_resume cfg fr settled w)) = refreshCalls w.
Proof.
  apply (respects_resume (fun w w' => refreshCalls w' = refreshCalls w));
    cbn; try done.
  intros w1 w2 w3 H1 H2. congruence.
Qed.

Lemma catch_keeps_refreshCalls t w :
  refreshCalls (snd (interceptorCatch cfg t w)) = refreshCalls w.
Proof.
  apply (respects_interceptorCatch
           (fun w w' => refreshCalls w' = refreshCalls w)); cbn; try done.
  intros w1 w2 w3 H1 H2. congruence.
Qed.

Lemma resume_keeps_sessions fr settled w :
  sessions (snd (onRejected_resume cfg fr settled w)) = sessions w.
Proof.
  apply (respects_resume (fun w w' => sessions w' = sessions w));
    cbn; try done.
  intros w1 w2 w3 H1 H2. congruence.
Qed.

Lemma catch_keeps_sessions t w :
  sessions (snd (interceptorCatch cfg t w)) = sessions w.
Proof.
  apply (respects_interceptorCatch
           (fun w w' => sessions w' = sessions w)); cbn; try done.
  intros w1 w2 w3 H1 H2. congruence.
Qed.

Lemma deliver_keeps {A} (f : World U -> A) error
    (r : Res (option Outcome) * World U) :
  (forall x w, f (set_returned x w) = f w) ->
  f (deliver error r) = f (snd r).
Proof.
  intros Hf. destruct r as [[t|[o|]] w1]; cbn; by rewrite ?Hf.
Qed.

Lemma onRejected_unfold error r w :
  config error = Some r ->
  onRejected cfg error w =
  match tryBlock cfg error r w with
  | (inl t, w1) =>
    match interceptorCatch cfg t w1 with
    | (inl t', w2) => (inl t', w2)
    | (inr _, w2) => (inr (Some (RejectOriginal error)), w2)
    end
  | (inr exit, w1) => (inr (epilogue error exit), w1)
  end.
Proof.
  intros Hc. unfold onRejected. rewrite Hc. unfold bind, try_catch, ret.
  destruct (tryBlock cfg error r w) as [[t|exit] w1]; [|reflexivity].
  destruct (interceptorCatch cfg t w1) as [[t'|[]] w2]; reflexivity.
Qed.

(** What [onRejected] does to the count of renewals and to the races. *)
Lemma onRejected_refreshCalls error w :
  refreshCalls (snd (onRejected cfg error w)) = refreshCalls w \/
  (isRefreshing (closure w) = false /\
   refreshCalls (snd (onRejected cfg error w)) = S (refreshCalls w)).
Proof.
  destruct (config error) as [r|] eqn:Hc;
    [|rewrite onRejected_no_config by done; by left].
  rewrite (onRejected_unfold error r w Hc).
  destruct (tryBlock cfg error r w) as [[t|exit] w1] eqn:Htry;
    pose proof (tryBlock_shape cfg error r _ w w1 Htry) as Hshape.
  - pose proof (catch_keeps_refreshCalls t w1) as Hcatch.
    destruct (interceptorCatch cfg t w1) as [[t'|[]] w2]; cbn in *;
      rewrite Hcatch;
      destruct Hshape as [(_ & _ & _ & _ & ->)
                         |(_ & _ & _ & _ & [(_ & _ & ->)
                                           |(Hf & [->| ->] & _)])];
      auto.
  - cbn.
    destruct Hshape as [(_ & _ & _ & _ & ->)
                       |(_ & _ & _ & _ & [(_ & _ & ->)
                                         |(Hf & [->| ->] & _)])];
      auto.
Qed.

Lemma onRejected_sessions error w :
  sessions (snd (onRejected cfg error w)) = sessions w \/
  exists x, sessions (snd (onRejected cfg error w)) = sessions w ++ [x].
Proof.
  destruct (config error) as [r|] eqn:Hc;
    [|rewrite onRejected_no_config by done; by left].
  rewrite (onRejected_unfold error r w Hc).
  destruct (tryBlock cfg error r w) as [[t|exit] w1] eqn:Htry;
    pose proof (tryBlock_shape cfg error r _ w w1 Htry) as Hshape.
  - pose proof (catch_keeps_sessions t w1) as Hcatch.
    destruct (interceptorCatch cfg t w1) as [[t'|[]] w2]; cbn in *;
      rewrite Hcatch;
      destruct Hshape as [(_ & _ & _ & -> & _)
                         |(_ & _ & _ & _ & [(_ & -> & _)
                                           |(_ & _ & [->|[x ->]])])];
      eauto.
  - cbn.
    destruct Hshape as [(_ & _ & _ & -> & _)
                       |(_ & _ & _ & _ & [(_ & -> & _)
                                         |(_ & _ & [->|[x ->]])])];
      eauto.
Qed.

(** X2. Whatever the callbacks do, an event leads to at most one call of
    [refreshTokenFn], and only a failed call that arrives while the flag is
    clear can lead to one: the settlement of a race, a timer, the passing
    of time and every call arriving during a renewal invoke nothing. *)
Theorem renewal_only_from_idle (ev : Event) w :
  refreshCalls (step cfg ev w) = refreshCalls w \/
  (exists error,
     ev = ResponseError error /\
     isRefreshing (closure w) = false /\
     refreshCalls (step cfg ev w) = S (refreshCalls w)).
Proof.
  assert (Hwake : forall s settled,
            refreshCalls (wake cfg s settled w) = refreshCalls w).
  { intros s settled. unfold wake.
    destruct (sessions w !! s) as [[d [fr|]]|]; try done.
    rewrite (deliver_keeps refreshCalls) by done.
    by rewrite resume_keeps_refreshCalls. }
  destruct ev as [error|s settled|s|ms]; cbn [step].
  - rewrite (deliver_keeps refreshCalls) by done.
    destruct (onRejected_refreshCalls error w) as [H|[Hf H]]; [by left|].
    right. by exists error.
  - left. apply Hwake.
  - left. destruct (sessions w !! s) as [x|]; [|done].
    destruct (deadline x <=? now w)%N; [apply Hwake|done].
  - by left.
Qed.

Lemma wake_settles_race s d fr settled w :
  sessions w !! s = Some {| deadline := d; waiter := Some fr |} ->
  sessions (wake cfg s settled w) !! s
  = Some {| deadline := d; waiter := None |}.
Proof.
  intros Hs. unfold wake. rewrite Hs.
  rewrite (deliver_keeps sessions) by done.
  rewrite resume_keeps_sessions. cbn.
  apply list_lookup_insert_eq. by eapply lookup_lt_Some.
Qed.

Lemma races_kept_step ev w : races_kept w (step cfg ev w).
Proof.
  assert (Hwake : forall s settled, races_kept w (wake cfg s settled w)).
  { intros s settled s' d' Hs'. unfold wake.
    destruct (sessions w !! s) as [[d [fr|]]|] eqn:Hs; try done.
    rewrite (deliver_keeps sessions) by done.
    rewrite resume_keeps_sessions. cbn.
    rewrite list_lookup_insert_ne; [done|]. intros ->. congruence. }
  destruct ev as [error|s settled|s|ms]; cbn [step].
  - intros s d Hs. rewrite (deliver_keeps sessions) by done.
    destruct (onRejected_sessions error w) as [->|[x ->]]; [done|].
    rewrite lookup_app_l; [done|]. by eapply lookup_lt_Some.
  - apply Hwake.
  - destruct (sessions w !! s) as [x|] eqn:Hs; [|by intros ? ? ?].
    destruct (deadline x <=? now w)%N; [apply Hwake|by intros ? ? ?].
  - by intros ? ? ?.
Qed.

Lemma races_kept_run evs w : races_kept w (run cfg evs w).
Proof.
  revert w. induction evs as [|ev evs IH]; intros w; [by intros ? ? ?|].
  cbn [run fold_left]. intros s d Hs.
  by apply IH, races_kept_step.
Qed.

(** X3. A race settles once.  After the race of a session has settled (the
    renewal resolved or rejected, or the timer fired), whatever happens
    next, the renewal operation's later result and the session's timer,
    which is never cancelled, change nothing when they come. *)
Theorem race_settles_once (s : nat) (d : N) (fr : Frame)
    (settled settled' : Res Token) (evs : list Event) w :
  sessions w !! s = Some {| deadline := d; waiter := Some fr |} ->
  step cfg (RefreshSettled s settled')
    (run cfg evs (step cfg (RefreshSettled s settled) w))
  = run cfg evs (step cfg (RefreshSettled s settled) w) /\
  step cfg (TimeoutFired s)
    (run cfg evs (step cfg (RefreshSettled s settled) w))
  = run cfg evs (step cfg (RefreshSettled s settled) w) /\
  ((d <= now w)%N ->
   step cfg (RefreshSettled s settled')
     (run cfg evs (step cfg (TimeoutFired s) w))
   = run cfg evs (step cfg (TimeoutFired s) w)).
Proof.
  intros Hs.
  assert (Hlate : forall w1 x,
            sessions w1 !! s = Some {| deadline := d; waiter := None |} ->
            step cfg (RefreshSettled s x) (run cfg evs w1) = run cfg evs w1).
  { intros w1 x H1. apply (races_kept_run evs) in H1. cbn [step].
    unfold wake. by rewrite H1. }
  assert (Htimer : forall w1,
            sessions w1 !! s = Some {| deadline := d; waiter := None |} ->
            step cfg (TimeoutFired s) (run cfg evs w1) = run cfg evs w1).
  { intros w1 H1. apply (races_kept_run evs) in H1. cbn [step].
    rewrite H1. destruct (_ <=? _)%N; [|done]. unfold wake. by rewrite H1. }
  pose proof (wake_settles_race s d fr settled w Hs) as H1.
  split; [|split].
  - by apply Hlate.
  - by apply Htimer.
  - intros Hd. apply N.leb_le in Hd.
    assert (Hfire : step cfg (TimeoutFired s) w
                    = wake cfg s (inl timeoutError) w).
    { cbn [step]. rewrite Hs. cbn [deadline]. by rewrite Hd. }
    rewrite Hfire. apply Hlate. by apply (wake_settles_race s d fr).
Qed.
End Invariants.

(** ** The wait set stays in order *)

Section WaitSet.
Context {U : Type}.
Variable cfg : Options U.
Implicit Type w : World U.

Lemma wait_set_ok_after w w' :
  wait_set_ok w ->
  pendingRequests (closure w') = pendingRequests (closure w) \/
  pendingRequests (closure w') = [] ->
  marks_kept w w' ->
  length (promises w) <= length (promises w') ->
  wait_set_ok w'.
Proof.
  intros (Hr & Hp & He) [Hsame|Hnil] Hm Hl; unfold wait_set_ok.
  - rewrite Hsame. split; [done|]. split; [done|].
    intros e Hin. destruct (He e Hin) as [H1 H2]. split; [by apply Hm|lia].
  - rewrite Hnil. split; [constructor|]. split; [constructor|].
    intros e Hin. by apply elem_of_nil in Hin.
Qed.

Lemma resume_wait_set fr settled w :
  pendingRequests (closure (snd (onRejected_resume cfg fr settled w)))
  = pendingRequests (closure w) \/
  pendingRequests (closure (snd (onRejected_resume cfg fr settled w))) = [].
Proof.
  apply (respects_resume
           (fun w w' =>
              pendingRequests (closure w') = pendingRequests (closure w) \/
              pendingRequests (closure w') = [])); cbn; auto.
  intros w1 w2 w3 [H1|H1] [H2|H2]; rewrite ?H2, ?H1; auto.
Qed.

Lemma catch_wait_set t w :
  pendingRequests (closure (snd (interceptorCatch cfg t w)))
  = pendingRequests (closure w) \/
  pendingRequests (closure (snd (interceptorCatch cfg t w))) = [].
Proof.
  apply (respects_interceptorCatch
           (fun w w' =>
              pendingRequests (closure w') = pendingRequests (closure w) \/
              pendingRequests (closure w') = [])); cbn; auto.
  intros w1 w2 w3 [H1|H1] [H2|H2]; rewrite ?H2, ?H1; auto.
Qed.

Lemma promises_grow_trans (w1 w2 w3 : World U) :
  length (promises w1) <= length (promises w2) ->
  length (promises w2) <= length (promises w3) ->
  length (promises w1) <= length (promises w3).
Proof. lia. Qed.

Lemma resume_promises fr settled w :
  length (promises w)
  <= length (promises (snd (onRejected_resume cfg fr settled w))).
Proof.
  apply (respects_resume
           (fun w w' => length (promises w) <= length (promises w')));
    cbn; try (intros; lia).
  intros p s w0. by rewrite settle_promise_length.
Qed.

Lemma catch_promises t w :
  length (promises w) <= length (promises (snd (interceptorCatch cfg t w))).
Proof.
  apply (respects_interceptorCatch
           (fun w w' => length (promises w) <= length (promises w')));
    cbn; try (intros; lia).
  intros p s w0. by rewrite settle_promise_length.
Qed.

Lemma marks_kept_trans (w1 w2 w3 : World U) :
  marks_kept w1 w2 -> marks_kept w2 w3 -> marks_kept w1 w3.
Proof. intros H1 H2 r Hr. by apply H2, H1. Qed.

Lemma header_keeps_marks r v w :
  marks_kept w
    (set_requests
       (store_request r (set_header "Authorization" v) (requests w)) w).
Proof.
  intros r' Hr. cbn. unfold store_request.
  by destruct (decide (r' = r)) as [->|].
Qed.

Lemma resume_marks fr settled w :
  marks_kept w (snd (onRejected_resume cfg fr settled w)).
Proof.
  apply (respects_resume marks_kept); try (by intros; intros ? ?);
    eauto using marks_kept_trans, header_keeps_marks.
Qed.

Lemma catch_marks t w : marks_kept w (snd (interceptorCatch cfg t w)).
Proof.
  apply (respects_interceptorCatch marks_kept); try (by intros; intros ? ?);
    eauto using marks_kept_trans.
Qed.

(** Taking a request in keeps the wait set in order: the request was not
    marked, so it is none of the waiting ones, and its promise is new. *)
Lemma wait_set_ok_push r w w1 :
  wait_set_ok w ->
  _retry (requests w r) = false ->
  requests w1 = store_request r mark_retry (requests w) ->
  promises w1 = promises w ++ [Pending] ->
  pendingRequests (closure w1)
  = pendingRequests (closure w) ++
      [{| request := r; promise := length (promises w) |}] ->
  wait_set_ok w1.
Proof.
  intros (Hr & Hp & He) Hfresh Hreq Hprom Hpend. unfold wait_set_ok.
  rewrite Hpend, Hreq, Hprom, !map_app, length_app. cbn.
  split; [|split].
  - apply NoDup_app. split; [done|]. split; [|apply NoDup_singleton].
    intros r' Hin ->%list_elem_of_singleton.
    apply list_elem_of_fmap in Hin as (e & -> & Hin).
    destruct (He e Hin) as [Hm _]. congruence.
  - apply NoDup_app. split; [done|]. split; [|apply NoDup_singleton].
    intros p Hin ->%list_elem_of_singleton.
    apply list_elem_of_fmap in Hin as (e & Hpe & Hin).
    destruct (He e Hin) as [_ Hlt]. lia.
  - intros e [Hin| ->%list_elem_of_singleton]%elem_of_app.
    + destruct (He e Hin) as [Hm Hlt]. split; [|lia].
      unfold store_request. by destruct (decide (request e = r)).
    + cbn. split; [|lia]. unfold store_request. by rewrite decide_True.
Qed.

Lemma wait_set_ok_frame w w' :
  wait_set_ok w ->
  closure w' = closure w -> requests w' = requests w ->
  promises w' = promises w ->
  wait_set_ok w'.
Proof. unfold wait_set_ok. by intros H -> -> ->. Qed.

Lemma wait_set_ok_onRejected error w :
  wait_set_ok w -> wait_set_ok (snd (onRejected cfg error w)).
Proof.
  intros Hok.
  destruct (config error) as [r|] eqn:Hc;
    [|by rewrite onRejected_no_config by done].
  rewrite (onRejected_unfold cfg error r w Hc).
  destruct (tryBlock cfg error r w) as [[t|exit] w1] eqn:Htry;
    pose proof (tryBlock_shape cfg error r _ w w1 Htry) as Hshape.
  - assert (Hok1 : wait_set_ok w1).
    { destruct Hshape as [(H1 & H2 & H3 & _)|(H1 & H2 & H3 & H4 & _)].
      - by apply (wait_set_ok_frame w).
      - by apply (wait_set_ok_push r w). }
    pose proof (catch_wait_set t w1) as Hset.
    pose proof (catch_marks t w1) as Hm.
    pose proof (catch_promises t w1) as Hl.
    destruct (interceptorCatch cfg t w1) as [[t'|[]] w2]; cbn in *;
      by apply (wait_set_ok_after w1).
  - cbn. destruct Hshape as [(H1 & H2 & H3 & _)|(H1 & H2 & H3 & H4 & _)].
    + by apply (wait_set_ok_frame w).
    + by apply (wait_set_ok_push r w).
Qed.

Lemma wait_set_ok_deliver error (r : Res (option Outcome) * World U) :
  wait_set_ok (snd r) -> wait_set_ok (deliver error r).
Proof. destruct r as [[t|[o|]] w1]; done. Qed.

Lemma wait_set_ok_wake s settled w :
  wait_set_ok w -> wait_set_ok (wake cfg s settled w).
Proof.
  intros Hok. unfold wake.
  destruct (sessions w !! s) as [[d [fr|]]|]; try done.
  apply wait_set_ok_deliver.
  match goal with |- context [onRejected_resume cfg fr settled ?w0] =>
    apply (wait_set_ok_after w0);
      [exact Hok|apply resume_wait_set|apply resume_marks
      |apply resume_promises] end.
Qed.

Lemma wait_set_ok_step ev w :
  wait_set_ok w -> wait_set_ok (step cfg ev w).
Proof.
  intros Hok. destruct ev as [error|s settled|s|ms]; cbn [step].
  - by apply wait_set_ok_deliver, wait_set_ok_onRejected.
  - by apply wait_set_ok_wake.
  - destruct (sessions w !! s) as [x|]; [|done].
    destruct (deadline x <=? now w)%N; [by apply wait_set_ok_wake|done].
  - done.
Qed.

(** X4. Whatever the callbacks do and whatever arrives, the wait set stays
    in order: no request waits twice, every waiting request is marked
    retried, and every entry holds a promise of its own.  It is so from
    the start, when the wait set is empty. *)
Theorem wait_set_stays_in_order (evs : list Event) w :
  wait_set_ok w -> wait_set_ok (run cfg evs w).
Proof.
  revert w. induction evs as [|ev evs IH]; intros w Hok; [done|].
  cbn [run fold_left]. by apply IH, wait_set_ok_step.
Qed.

Lemma wait_set_ok_empty w :
  pendingRequests (closure w) = [] -> wait_set_ok w.
Proof.
  intros H. unfold wait_set_ok. rewrite H. split; [constructor|].
  split; [constructor|]. intros e Hin. by apply elem_of_nil in Hin.
Qed.
End WaitSet.

(** ** Exceptions on the way *)

Section Exceptions.
Context {U : Type}.
Variable cfg : Options U.
Implicit Type w : World U.

Ltac unfold_resume :=
  unfold onRejected_resume, try_catch_finally, try_catch, bind, await, ret,
    throw, fanOutSuccess, fanOutFailure, finallyReset, notify, call, modify,
    gets, update_closure, reject_entry, reject, bind, modify, call.

(** When the [success] notification throws, the inner [catch] takes over:
    nothing is replayed and the exception is handled as a failed
    renewal. *)
Lemma resume_success_notification_throws fr newToken t h1 h2 w :
  onStatusChange cfg Status.success None (host w) = (inl t, h1) ->
  onStatusChange cfg Status.failed
    (Some (asError t "Token refresh failed")) h1 = (inr tt, h2) ->
  onRejected_resume cfg fr (inr newToken) w =
  (inr (Some (ReturnRetryPromise (f_retryPromise fr))),
   {| closure := initial_closure;
      requests := requests w;
      promises :=
        settle_all
          (reject_calls (refreshFailedError t) (pendingRequests (closure w)))
          (promises w);
      host := h2;
      now := now w;
      sessions := sessions w;
      notified :=
        (notified w ++ [(Status.success, None)]) ++
          [(Status.failed, Some (asError t "Token refresh failed"))];
      refreshCalls := refreshCalls w;
      replays := replays w;
      settlements :=
        settlements w ++
          reject_calls (refreshFailedError t) (pendingRequests (closure w));
      returned := returned w |}).
Proof.
  intros Hs Hf. unfold_resume. cbn. rewrite Hs. cbn. rewrite Hf. cbn.
  rewrite forEach_settle. reflexivity.
Qed.

(** The same when the formatter throws on the first entry. *)
Lemma resume_formatter_throws fr token t e l h1 h2 h3 w :
  token <> "" ->
  pendingRequests (closure w) = e :: l ->
  onStatusChange cfg Status.success None (host w) = (inr tt, h1) ->
  authHeaderFormatter cfg token h1 = (inl t, h2) ->
  onStatusChange cfg Status.failed
    (Some (asError t "Token refresh failed")) h2 = (inr tt, h3) ->
  onRejected_resume cfg fr (inr (Some token)) w =
  (inr (Some (ReturnRetryPromise (f_retryPromise fr))),
   {| closure := initial_closure;
      requests := requests w;
      promises :=
        settle_all
          (reject_calls (refreshFailedError t) (pendingRequests (closure w)))
          (promises w);
      host := h3;
      now := now w;
      sessions := sessions w;
      notified :=
        (notified w ++ [(Status.success, None)]) ++
          [(Status.failed, Some (asError t "Token refresh failed"))];
      refreshCalls := refreshCalls w;
      replays := replays w;
      settlements :=
        settlements w ++
          reject_calls (refreshFailedError t) (pendingRequests (closure w));
      returned := returned w |}).
Proof.
  intros Hne Hpend Hs Hfmt Hf. apply String.eqb_neq in Hne.
  unfold_resume. cbn. rewrite Hs. cbn. rewrite Hpend.
  cbn [forEach]. unfold bind at 1, replay_entry, bind at 1. cbn.
  rewrite Hne. cbn. unfold bind at 1, call. cbn. rewrite Hfmt. cbn.
  rewrite Hf. cbn. rewrite forEach_settle. rewrite Hpend. reflexivity.
Qed.

(** X5. An exception in the success fan-out before anything was replayed
    (the [success] notification throws, or the formatter throws on the
    first entry) is handled as a failed renewal: no request is replayed
    or rewritten, the observer is notified [success] and then [failed]
    with the exception, every waiting request is rejected with
    [Token refresh failed] carrying it, and the wait set and the flag are
    cleared. *)
Theorem success_path_exception_is_renewal_failure (s : nat) (fr : Frame)
    (newToken : Token) (ev : Event) (t : Thrown) w :
  in_flight s fr w ->
  settles w s (inr newToken) ev ->
  observer_returns cfg Status.failed ->
  ((exists h1,
      onStatusChange cfg Status.success None (host w) = (inl t, h1)) \/
   (exists token h1 h2,
      newToken = Some token /\ token <> "" /\
      pendingRequests (closure w) <> [] /\
      onStatusChange cfg Status.success None (host w) = (inr tt, h1) /\
      authHeaderFormatter cfg token h1 = (inl t, h2))) ->
  replays (step cfg ev w) = replays w /\
  requests (step cfg ev w) = requests w /\
  notified (step cfg ev w)
  = (notified w ++ [(Status.success, None)]) ++
      [(Status.failed, Some (asError t "Token refresh failed"))] /\
  (forall e, e ∈ pendingRequests (closure w) ->
     promises (step cfg ev w) !! promise e
     = Some (Rejected (refreshFailedError t))) /\
  closure (step cfg ev w) = initial_closure.
Proof.
  intros (Hflag & [d Hs] & Hnd & Hp) Hev Hfail Hthrow.
  rewrite (step_settles cfg s fr d _ ev w Hs Hev).
  set (w0 := set_sessions _ w).
  assert (Hrun : exists h,
            onRejected_resume cfg fr (inr newToken) w0 =
            (inr (Some (ReturnRetryPromise (f_retryPromise fr))),
             {| closure := initial_closure;
                requests := requests w0;
                promises :=
                  settle_all
                    (reject_calls (refreshFailedError t)
                       (pendingRequests (closure w0))) (promises w0);
                host := h;
                now := now w0;
                sessions := sessions w0;
                notified :=
                  (notified w0 ++ [(Status.success, None)]) ++
                    [(Status.failed,
                      Some (asError t "Token refresh failed"))];
                refreshCalls := refreshCalls w0;
                replays := replays w0;
                settlements :=
                  settlements w0 ++
                    reject_calls (refreshFailedError t)
                      (pendingRequests (closure w0));
                returned := returned w0 |})).
  { destruct Hthrow as [[h1 Hs1]
                       |(token & h1 & h2 & -> & Hne & Hpend & Hs1 & Hfmt)].
    - destruct (Hfail (Some (asError t "Token refresh failed")) h1)
        as [h2 Hh2].
      exists h2. by apply (resume_success_notification_throws _ _ _ h1).
    - destruct (Hfail (Some (asError t "Token refresh failed")) h2)
        as [h3 Hh3].
      destruct (pendingRequests (closure w)) as [|e l] eqn:Hl; [done|].
      exists h3. by apply (resume_formatter_throws _ _ _ e l h1 h2). }
  destruct Hrun as [h ->]. cbn.
  repeat (split; [reflexivity|]). split; [|reflexivity].
  intros e He.
  apply (settle_all_entry _ _ _ (CallReject (refreshFailedError t))).
  - by rewrite reject_calls_promises.
  - unfold reject_calls.
    by apply (list_elem_of_fmap_2
                (fun e => (promise e, CallReject (refreshFailedError t)))).
  - apply Hp. by apply list_elem_of_fmap_2.
Qed.

(** X6. When the classifier throws while no renewal is in progress, the
    exception is written to the console and goes no further: the failed
    call is handed back rejected with its original failure, the observer
    is not notified, and nothing else changes. *)
Theorem classifier_exception_when_idle (error : AxiosError) (r : ReqRef)
    (t : Thrown) (h1 : Host U) w :
  config error = Some r ->
  shouldRefreshToken cfg error (requests w r) (host w) = (inl t, h1) ->
  isRefreshing (closure w) = false ->
  step cfg (ResponseError error) w
  = set_returned (returned w ++ [(error, RejectOriginal error)])
      (set_host
         (console_write
            ("Error in refresh token interceptor: " +:+
               message (interceptorError t)) h1) w).
Proof.
  intros Hc Hcls Hflag. cbn [step].
  rewrite (onRejected_unfold cfg error r w Hc).
  assert (Htry : tryBlock cfg error r w = (inl t, set_host h1 w)).
  { unfold tryBlock, bind, gets, call. by rewrite Hcls. }
  rewrite Htry, interceptorCatch_idle by done.
  cbn. apply World_ext; reflexivity.
Qed.
End Exceptions.

(** ** The fan-out, entry by entry *)

Section FanOut.
Context {U : Type}.
Variable cfg : Options U.
Implicit Type w : World U.

Lemma replay_log_requests value l heap :
  map replayed (replay_log value l heap) = map request l.
Proof.
  revert heap. induction l as [|e l IH]; intros heap; [done|].
  cbn. by rewrite IH.
Qed.

(** X7. When the race settles and the notifications and the formatter
    return, the settlement calls exactly one settler per waiting entry, in
    the order of the wait set, and no other settler; every waiting promise
    is settled by it, and the wait set is emptied in the same step. *)
Theorem one_settler_call_per_entry (s : nat) (fr : Frame)
    (settled : Res Token) (ev : Event) (fmt : string -> string) w :
  in_flight s fr w ->
  settles w s settled ev ->
  observer_returns cfg Status.success ->
  observer_returns cfg Status.failed ->
  formatter_is cfg fmt ->
  exists calls,
    settlements (step cfg ev w) = settlements w ++ calls /\
    map fst calls = map promise (pendingRequests (closure w)) /\
    NoDup (map fst calls) /\
    (forall p call, (p, call) ∈ calls ->
       promises (step cfg ev w) !! p = Some (state_of call)) /\
    pendingRequests (closure (step cfg ev w)) = [].
Proof.
  intros Hin Hev Hsucc Hfail Hfmt.
  pose proof Hin as (Hflag & [d Hs] & Hnd & Hp).
  rewrite (step_settles cfg s fr d _ ev w Hs Hev).
  destruct settled as [reason|newToken].
  - destruct (Hfail (Some (asError reason "Token refresh failed")) (host w))
      as [h1 Hh1].
    match goal with |- context [onRejected_resume cfg fr _ ?w1] =>
      rewrite (onRejected_resume_failure cfg fr reason h1 w1 Hh1) end.
    cbn. eexists. split; [reflexivity|].
    rewrite reject_calls_promises. split; [reflexivity|]. split; [done|].
    split; [|reflexivity]. intros p call Hcall.
    apply settle_all_entry; [by rewrite reject_calls_promises|done|].
    apply Hp. unfold pending_promises. rewrite <- (reject_calls_promises
      (refreshFailedError reason)). by apply (list_elem_of_fmap_2 fst _ (p, call)).
  - destruct (Hsucc None (host w)) as [h1 Hh1].
    match goal with |- context [onRejected_resume cfg fr _ ?w1] =>
      destruct (onRejected_resume_success cfg fr newToken fmt h1 w1 Hh1 Hfmt)
        as [h' ->] end.
    cbn. eexists. split; [reflexivity|].
    rewrite resolve_calls_promises. split; [reflexivity|]. split; [done|].
    split; [|reflexivity]. intros p call Hcall.
    apply settle_all_entry; [by rewrite resolve_calls_promises|done|].
    apply Hp. unfold pending_promises.
    rewrite <- (resolve_calls_promises (length (replays w))).
    by apply (list_elem_of_fmap_2 fst _ (p, call)).
Qed.

(** X8. On success the transport is called once per waiting entry, in the
    order in which the requests joined, and the entry at position [i] is
    resolved with the [i]-th of these calls; on failure or timeout the
    transport is not called at all. *)
Theorem replays_follow_the_wait_set (s : nat) (fr : Frame)
    (settled : Res Token) (ev : Event) (fmt : string -> string) w :
  in_flight s fr w ->
  settles w s settled ev ->
  observer_returns cfg Status.success ->
  observer_returns cfg Status.failed ->
  formatter_is cfg fmt ->
  match settled with
  | inr _ =>
    exists calls,
      replays (step cfg ev w) = replays w ++ calls /\
      map replayed calls = map request (pendingRequests (closure w)) /\
      forall i e, pendingRequests (closure w) !! i = Some e ->
        promises (step cfg ev w) !! promise e
        = Some (Resolved (length (replays w) + i))
  | inl _ => replays (step cfg ev w) = replays w
  end.
Proof.
  intros Hin Hev Hsucc Hfail Hfmt.
  destruct settled as [reason|newToken].
  - by destruct (fan_out_failure cfg s fr reason ev w Hin Hev Hfail)
      as (_ & _ & _ & _ & _ & Hrep & _).
  - destruct (fan_out_success cfg s fr newToken ev fmt w Hin Hev Hsucc Hfmt)
      as (_ & _ & _ & _ & _ & _ & Hprom).
    pose proof Hin as (Hflag & [d Hs] & Hnd & Hp).
    assert (Hrep : replays (step cfg ev w)
                   = replays w ++
                       replay_log (header_value fmt newToken)
                         (pendingRequests (closure w)) (requests w)).
    { rewrite (step_settles cfg s fr d _ ev w Hs Hev).
      destruct (Hsucc None (host w)) as [h1 Hh1].
      match goal with |- context [onRejected_resume cfg fr _ ?w1] =>
        destruct (onRejected_resume_success cfg fr newToken fmt h1 w1 Hh1
                    Hfmt) as [h' ->] end.
      reflexivity. }
    eexists. split; [exact Hrep|]. split; [apply replay_log_requests|].
    intros i e Hi. by destruct (Hprom i e Hi) as [H _].
Qed.

(** X9. A classifier that throws while a renewal is in flight resets the
    coordinator under the renewal's feet: the waiting requests are
    rejected with the exception and the flag is cleared although the
    initiator is still parked on its race.  The next eligible failure
    therefore starts a second renewal while the first one is still
    running: [refreshTokenFn] is called again and two invocations are
    parked at once. *)
Theorem throwing_classifier_lets_renewals_overlap (s : nat) (fr : Frame)
    (error error' : AxiosError) (r r' : ReqRef) (t : Thrown) (h1 : Host U) w :
  in_flight s fr w ->
  config error = Some r ->
  shouldRefreshToken cfg error (requests w r) (host w) = (inl t, h1) ->
  observer_returns cfg Status.error ->
  observer_returns cfg Status.refreshing ->
  renewal_starts cfg ->
  config error' = Some r' ->
  _retry (requests w r') = false ->
  classifier_returns cfg true error' (requests w r') ->
  (forall e, e ∈ pendingRequests (closure w) ->
     promises (step cfg (ResponseError error) w) !! promise e
     = Some (Rejected (interceptorError t))) /\
  closure (step cfg (ResponseError error) w) = initial_closure /\
  refreshCalls
    (step cfg (ResponseError error') (step cfg (ResponseError error) w))
  = S (refreshCalls w) /\
  (exists d,
     sessions
       (step cfg (ResponseError error') (step cfg (ResponseError error) w))
       !! s = Some {| deadline := d; waiter := Some fr |}) /\
  (exists d fr',
     sessions
       (step cfg (ResponseError error') (step cfg (ResponseError error) w))
       !! length (sessions w) = Some {| deadline := d; waiter := Some fr' |}).
Proof.
  intros (Hflag & [d Hs] & Hw) Hc Hcls Herr Hobs Hstart Hc' Hr' Hcls'.
  assert (Htry : tryBlock cfg error r w = (inl t, set_host h1 w)).
  { unfold tryBlock, bind, gets, call. by rewrite Hcls. }
  destruct (Herr (Some (interceptorError t))
              (console_write
                 ("Error in refresh token interceptor: " +:+
                    message (interceptorError t)) (host (set_host h1 w))))
    as [h2 Hh2].
  assert (Hstep : step cfg (ResponseError error) w
                  = set_returned (returned w ++ [(error, RejectOriginal error)])
                      (snd (interceptorCatch cfg t (set_host h1 w)))).
  { cbn [step]. rewrite (onRejected_unfold cfg error r w Hc), Htry.
    by rewrite (interceptorCatch_reset cfg t h2 (set_host h1 w) Hflag Hh2). }
  rewrite (interceptorCatch_reset cfg t h2 (set_host h1 w) Hflag Hh2)
    in Hstep.
  set (w1 := step cfg (ResponseError error) w) in *. clearbody w1.
  assert (Hclo : closure w1 = initial_closure) by (by rewrite Hstep).
  assert (Hcalls1 : refreshCalls w1 = refreshCalls w) by (by rewrite Hstep).
  assert (Hses1 : sessions w1 = sessions w) by (by rewrite Hstep).
  assert (Hreq1 : requests w1 = requests w) by (by rewrite Hstep).
  split.
  { intros e He. rewrite Hstep. destruct Hw as [Hnd Hp].
    cbn [promises set_returned snd closure set_host].
    apply (settle_all_entry _ _ _ (CallReject (interceptorError t))).
    - by rewrite reject_calls_promises.
    - unfold reject_calls.
      by apply (list_elem_of_fmap_2
                  (fun e => (promise e, CallReject (interceptorError t)))).
    - apply Hp. by apply list_elem_of_fmap_2. }
  split; [exact Hclo|].
  assert (Hflag1 : isRefreshing (closure w1) = false) by (by rewrite Hclo).
  rewrite <- Hreq1 in Hr', Hcls'.
  destruct (step_initiator cfg error' r' w1 Hc' Hr' Hcls' Hflag1 Hobs Hstart)
    as [h3 ->].
  cbn. rewrite Hcalls1, Hses1. split; [reflexivity|]. split.
  - exists d. rewrite lookup_app_l; [done|]. by eapply lookup_lt_Some.
  - eexists _, _. by rewrite lookup_app_r, Nat.sub_diag.
Qed.
End FanOut.

(** ** The earlier version: tracking and polling *)

Module LegacyFacts.
Import LegacyPlugin.

Section LegacyFacts.
Context {U : Type}.
Variable cfg : Legacy.Options U.
Implicit Type w : World U.

Lemma Legacy_World_ext w1 w2 :
  pendingRequests w1 = pendingRequests w2 ->
  requestTracker w1 = requestTracker w2 ->
  isRefreshing w1 = isRefreshing w2 -> requests w1 = requests w2 ->
  polls w1 = polls w2 -> host w1 = host w2 -> now w1 = now w2 ->
  parked w1 = parked w2 -> notified w1 = notified w2 ->
  refreshCalls w1 = refreshCalls w2 -> replays w1 = replays w2 ->
  returned w1 = returned w2 ->
  w1 = w2.
Proof. destruct w1, w2. cbn. intros. by subst. Qed.

Ltac run_legacy :=
  unfold onRejected, onRejected_resume, tryBlock, refreshTry, refreshCatch,
    finallyReset, interceptorCatch, forget_tracked, notify,
    call_refreshTokenFn, new_poll, park, update_request, await,
    try_catch_finally, try_catch, bind, call, gets, modify, ret, throw.

(** X10. In the earlier version a call that arrives during a renewal is
    marked, tracked and handed a promise that polls: a timer is set to
    look at the flag 100 ms later, and nothing else happens, in
    particular no renewal is started. *)
Theorem legacy_joiner_polls (error : AxiosError) (r : ReqRef) (v : Token)
    (h1 : Host U) w :
  isRefreshing w = true ->
  config error = Some r ->
  Legacy.shouldRefreshToken cfg error (host w) = (inr v, h1) ->
  truthy v = true ->
  _retry (requests w r) = false ->
  step cfg (ResponseError error) w =
  {| pendingRequests := <[r := true]> (pendingRequests w);
     requestTracker := requestTracker w ++ [r];
     isRefreshing := true;
     requests := store_request r mark_retry (requests w);
     polls :=
       polls w ++
         [{| poll_request := r; poll_error := error; poll_state := Polling;
             poll_due := (now w + 100)%N |}];
     host := h1;
     now := now w;
     parked := parked w;
     notified := notified w;
     refreshCalls := refreshCalls w;
     replays := replays w;
     returned := returned w ++ [(error, ReturnPoll (length (polls w)))] |}.
Proof.
  intros Hflag Hc Hcls Hv Hr. cbn [step]. run_legacy.
  rewrite Hcls, Hv, Hc. cbn. rewrite Hr. cbn. rewrite Hflag. cbn.
  unfold pending_get. rewrite lookup_insert_eq. cbn.
  apply Legacy_World_ext; cbn; auto.
Qed.

Lemma forget_lookup (l : list ReqRef) (marks : gmap ReqRef bool) (r : ReqRef) :
  fold_left (fun m x => delete x m) l marks !! r
  = if decide (r ∈ l) then None else marks !! r.
Proof.
  revert marks. induction l as [|x l IH]; intros marks; cbn.
  - rewrite decide_False; [done|]. apply not_elem_of_nil.
  - rewrite IH. destruct (decide (r ∈ l)) as [Hin|Hnin].
    + rewrite decide_True; [done|]. by apply elem_of_cons; right.
    + destruct (decide (r = x)) as [->|Hne].
      * rewrite decide_True; [|by apply elem_of_cons; left].
        apply lookup_delete_eq.
      * rewrite decide_False.
        -- by apply lookup_delete_ne.
        -- intros [?|?]%elem_of_cons; done.
Qed.

Lemma resume_failure fr reason h1 w :
  Legacy.onStatusChange cfg Status.failed (host w) = (inr tt, h1) ->
  onRejected_resume cfg fr (inl reason) w =
  (inr (Some (RejectOriginal (f_error fr))),
   {| pendingRequests :=
        fold_left (fun m x => delete x m) (requestTracker w)
          (pendingRequests w);
      requestTracker := [];
      isRefreshing := false;
      requests := requests w;
      polls := polls w;
      host := h1;
      now := now w;
      parked := parked w;
      notified := notified w ++ [Status.failed];
      refreshCalls := refreshCalls w;
      replays := replays w;
      returned := returned w |}).
Proof.
  intros Hobs. run_legacy. cbn. rewrite Hobs. cbn. reflexivity.
Qed.

Lemma tick_resolves p poll w :
  polls w !! p = Some poll -> poll_state poll = Polling ->
  (poll_due poll <= now w)%N ->
  isRefreshing w = false ->
  pendingRequests w !! poll_request poll = None ->
  polls (step cfg (PollTick p) w) !! p
  = Some {| poll_request := poll_request poll; poll_error := poll_error poll;
            poll_state := PollResolved; poll_due := poll_due poll |}.
Proof.
  intros Hp Hst Hdue Hflag Hmark. cbn [step]. rewrite Hp, Hst.
  apply N.leb_le in Hdue. rewrite Hdue. unfold checkInterval, pending_get.
  rewrite Hflag, Hmark. cbn.
  apply list_lookup_insert_eq. by eapply lookup_lt_Some.
Qed.

(** X11. In the earlier version a failed renewal is not passed on to the
    calls that joined: the [catch] block notifies [failed], deletes every
    pending mark and empties the tracker, and the initiating call alone is
    rejected, with its own original failure.  Each joined call then finds
    its mark gone at its next look at the flag and is fulfilled, with no
    value, as if it had been replayed; nothing was replayed. *)
Theorem legacy_failure_fulfils_joiners (s : nat) (fr : Frame)
    (reason : Thrown) (h1 : Host U) w :
  parked w !! s = Some (Some fr) ->
  Legacy.onStatusChange cfg Status.failed (host w) = (inr tt, h1) ->
  returned (step cfg (RefreshSettled s (inl reason)) w)
  = returned w ++ [(f_error fr, RejectOriginal (f_error fr))] /\
  notified (step cfg (RefreshSettled s (inl reason)) w)
  = notified w ++ [Status.failed] /\
  replays (step cfg (RefreshSettled s (inl reason)) w) = replays w /\
  requestTracker (step cfg (RefreshSettled s (inl reason)) w) = [] /\
  isRefreshing (step cfg (RefreshSettled s (inl reason)) w) = false /\
  forall p poll ms,
    polls w !! p = Some poll ->
    poll_state poll = Polling ->
    poll_request poll ∈ requestTracker w ->
    (poll_due poll <= now w + ms)%N ->
    polls (run cfg [Elapse ms; PollTick p]
             (step cfg (RefreshSettled s (inl reason)) w)) !! p
    = Some {| poll_request := poll_request poll;
              poll_error := poll_error poll;
              poll_state := PollResolved;
              poll_due := poll_due poll |}.
Proof.
  intros Hs Hobs.
  assert (Hstep : step cfg (RefreshSettled s (inl reason)) w
                  = set_returned
                      (returned w ++
                         [(f_error fr, RejectOriginal (f_error fr))])
                      (snd (onRejected_resume cfg fr (inl reason)
                              (set_parked (<[s := None]> (parked w)) w)))).
  { cbn [step]. rewrite Hs.
    by rewrite (resume_failure fr reason h1) by exact Hobs. }
  rewrite Hstep, (resume_failure fr reason h1) by exact Hobs.
  repeat (split; [reflexivity|]).
  intros p poll ms Hp Hst Hin Hdue.
  change (run cfg [Elapse ms; PollTick p] ?w0)
    with (step cfg (PollTick p) (step cfg (Elapse ms) w0)).
  apply tick_resolves; cbn; try done.
  rewrite forget_lookup. by rewrite decide_True.
Qed.

Lemma loop_step (r0 : ReqRef) (tok : Token) (i : nat) (x : ReqRef) w :
  requestTracker w !! i = Some x ->
  pending_get x (pendingRequests w) = true ->
  exists w1,
    replay_loop r0 tok (S i) w
    = (if decide (x = r0)
       then (inr (Some (length (replays w))), w1)
       else replay_loop r0 tok i w1) /\
    requestTracker w1 = delete i (requestTracker w) /\
    pendingRequests w1 = delete x (pendingRequests w) /\
    replays w1
    = replays w ++ [{| replayed := x; sent := bearer tok (requests w x) |}] /\
    requests w1 x = bearer tok (requests w x) /\
    (forall r, r <> x -> requests w1 r = requests w r) /\
    untouched_by_loop w w1.
Proof.
  intros Hi Hmark. cbn [replay_loop]. run_legacy. cbn. rewrite Hi, Hmark.
  destruct tok as [token|]; cbn [truthy bearer].
  - destruct (negb (token =? "")) eqn:Hne; cbn.
    + eexists. split.
      { destruct (decide (x = r0)); cbn; reflexivity. }
      cbn. unfold store_request. rewrite decide_True by done.
      repeat split; try done.
      intros r Hr. by rewrite decide_False.
    + eexists. split.
      { destruct (decide (x = r0)); cbn; reflexivity. }
      cbn. repeat split; done.
  - eexists. split.
    { destruct (decide (x = r0)); cbn; reflexivity. }
    cbn. repeat split; done.
Qed.

Lemma untouched_by_loop_trans w1 w2 w3 :
  untouched_by_loop w1 w2 -> untouched_by_loop w2 w3 ->
  untouched_by_loop w1 w3.
Proof.
  unfold untouched_by_loop. intros (?&?&?&?&?&?&?&?) (?&?&?&?&?&?&?&?).
  repeat split; congruence.
Qed.

Lemma loop_replays (r0 : ReqRef) (tok : Token) (rest : list ReqRef) :
  forall (pre : list ReqRef) w,
    requestTracker w = pre ++ r0 :: rest ->
    NoDup (r0 :: rest) ->
    (forall r, r ∈ r0 :: rest -> pending_get r (pendingRequests w) = true) ->
    exists w',
      replay_loop r0 tok (length pre + S (length rest)) w
      = (inr (Some (length (replays w) + length rest)), w') /\
      requestTracker w' = pre /\
      (forall r, pendingRequests w' !! r
                 = if decide (r ∈ r0 :: rest) then None
                   else pendingRequests w !! r) /\
      replays w'
      = replays w ++
          map (fun r => {| replayed := r; sent := bearer tok (requests w r) |})
            (rev rest ++ [r0]) /\
      (forall r, requests w' r
                 = if decide (r ∈ r0 :: rest) then bearer tok (requests w r)
                   else requests w r) /\
      untouched_by_loop w w'.
Proof.
  induction rest as [|x rest IH] using rev_ind; intros pre w Htr Hnd Hmarks.
  - destruct (loop_step r0 tok (length pre) r0 w)
      as (w1 & Hrun & Htr1 & Hm1 & Hrep1 & Hreq1 & Hreq1' & Hun).
    { rewrite Htr. by apply list_lookup_middle. }
    { apply Hmarks. by apply elem_of_cons; left. }
    rewrite decide_True in Hrun by done.
    exists w1. cbn [length rev app map].
    replace (length pre + 1) with (S (length pre)) by lia.
    rewrite Nat.add_0_r. split; [exact Hrun|].
    split.
    { rewrite Htr1, Htr. rewrite delete_middle. by rewrite app_nil_r. }
    split.
    { intros r. rewrite Hm1. destruct (decide (r = r0)) as [->|Hne].
      - rewrite decide_True by (by apply elem_of_cons; left).
        apply lookup_delete_eq.
      - rewrite decide_False.
        + by apply lookup_delete_ne.
        + intros [?|Hin]%elem_of_cons; [done|]. by apply elem_of_nil in Hin. }
    split; [exact Hrep1|]. split; [|exact Hun].
    intros r. destruct (decide (r = r0)) as [->|Hne].
    + by rewrite decide_True by (by apply elem_of_cons; left).
    + rewrite decide_False; [by apply Hreq1'|].
      intros [?|Hin]%elem_of_cons; [done|]. by apply elem_of_nil in Hin.
  - assert (Hx0 : x <> r0).
    { intros ->. apply NoDup_cons in Hnd as [Hnin _]. apply Hnin.
      apply elem_of_app. right. by apply list_elem_of_singleton. }
    assert (Hxrest : x ∉ rest).
    { apply NoDup_cons in Hnd as [_ Hnd]. apply NoDup_app in Hnd as (_ & Hd & _).
      intros Hin. apply (Hd x Hin). by apply list_elem_of_singleton. }
    assert (Hnd' : NoDup (r0 :: rest)).
    { apply NoDup_cons in Hnd as [Hnin Hnd]. apply NoDup_cons. split.
      - intros Hin. apply Hnin. apply elem_of_app. by left.
      - by apply NoDup_app in Hnd as (? & _ & _). }
    destruct (loop_step r0 tok (length pre + S (length rest)) x w)
      as (w1 & Hrun & Htr1 & Hm1 & Hrep1 & Hreq1 & Hreq1' & Hun).
    { rewrite Htr.
      replace (pre ++ r0 :: rest ++ [x]) with ((pre ++ r0 :: rest) ++ [x])
        by (by rewrite <- app_assoc).
      apply list_lookup_middle. rewrite length_app. cbn. lia. }
    { apply Hmarks. apply elem_of_cons. right. apply elem_of_app. right.
      by apply list_elem_of_singleton. }
    rewrite decide_False in Hrun by done.
    destruct (IH pre w1) as (w' & Hrun' & Htr' & Hm' & Hrep' & Hreq' & Hun').
    { rewrite Htr1, Htr.
      replace (pre ++ r0 :: rest ++ [x]) with ((pre ++ r0 :: rest) ++ [x])
        by (by rewrite <- app_assoc).
      replace (length pre + S (length rest))
        with (length (pre ++ r0 :: rest)) by (rewrite length_app; cbn; lia).
      rewrite delete_middle. by rewrite app_nil_r. }
    { exact Hnd'. }
    { intros r Hr. unfold pending_get. rewrite Hm1.
      rewrite lookup_delete_ne.
      - apply (Hmarks r). apply elem_of_cons in Hr as [->|Hr].
        + by apply elem_of_cons; left.
        + apply elem_of_cons. right. apply elem_of_app. by left.
      - intros ->. apply elem_of_cons in Hr as [?|?]; done. }
    exists w'. split.
    { rewrite length_app. cbn [length].
      replace (length pre + S (length rest + 1))
        with (S (length pre + S (length rest))) by lia.
      rewrite Hrun, Hrun', Hrep1, length_app. cbn [length].
      do 3 f_equal. lia. }
    split; [exact Htr'|]. split.
    { intros r. rewrite Hm', Hm1.
      destruct (decide (r ∈ r0 :: rest)) as [Hin|Hnin].
      - rewrite decide_True; [done|].
        apply elem_of_cons in Hin as [->|Hin].
        + by apply elem_of_cons; left.
        + apply elem_of_cons. right. apply elem_of_app. by left.
      - destruct (decide (r = x)) as [->|Hne].
        + rewrite decide_True.
          * apply lookup_delete_eq.
          * apply elem_of_cons. right. apply elem_of_app. right.
            by apply list_elem_of_singleton.
        + rewrite decide_False.
          * by apply lookup_delete_ne.
          * intros [->|[Hin|Hin%list_elem_of_singleton]%elem_of_app]%elem_of_cons.
            -- apply Hnin. by apply elem_of_cons; left.
            -- apply Hnin. by apply elem_of_cons; right.
            -- done. }
    split.
    { rewrite Hrep', Hrep1. rewrite rev_app_distr. cbn [rev app map].
      rewrite <- app_assoc. cbn [app]. do 2 f_equal.
      apply map_ext_in. intros r Hr. f_equal. f_equal. apply Hreq1'.
      intros ->. apply in_app_or in Hr as [Hr|Hr].
      - apply Hxrest. apply list_elem_of_In. by apply in_rev.
      - destruct Hr as [Hr|[]]. by symmetry in Hr. }
    split; [|by eapply untouched_by_loop_trans].
    intros r. rewrite Hreq'.
    destruct (decide (r ∈ r0 :: rest)) as [Hin|Hnin].
    + rewrite decide_True.
      * f_equal. apply Hreq1'. intros ->.
        apply elem_of_cons in Hin as [?|?]; done.
      * apply elem_of_cons in Hin as [->|Hin].
        -- by apply elem_of_cons; left.
        -- apply elem_of_cons. right. apply elem_of_app. by left.
    + destruct (decide (r = x)) as [->|Hne].
      * rewrite decide_True; [exact Hreq1|].
        apply elem_of_cons. right. apply elem_of_app. right.
        by apply list_elem_of_singleton.
      * rewrite decide_False; [by apply Hreq1'|].
        intros [->|[Hin|Hin%list_elem_of_singleton]%elem_of_app]%elem_of_cons.
        -- apply Hnin. by apply elem_of_cons; left.
        -- apply Hnin. by apply elem_of_cons; right.
        -- done.
Qed.

Lemma resume_success fr tok h1 n w w3 :
  Legacy.onStatusChange cfg Status.success (host w) = (inr tt, h1) ->
  replay_loop (f_originalRequest fr) tok (length (requestTracker w))
    (set_host h1 (set_notified (notified w ++ [Status.success]) w))
  = (inr (Some n), w3) ->
  onRejected_resume cfg fr (inr tok) w
  = (inr (Some (ReturnReplay n)), set_isRefreshing false w3).
Proof.
  intros Hobs Hloop. run_legacy. cbn. rewrite Hobs. cbn.
  rewrite Hloop. reflexivity.
Qed.

(** X12. In the earlier version a renewal that succeeds replays the
    tracked requests newest first: from the end of the tracker down to the
    initiating call's own request, each is given the bearer header (when
    the token is truthy), unmarked, removed and sent again.  The initiating
    call is handed the replay of its own request, sent last; the loop ends
    there, so what was tracked before it stays.  The joined calls get no
    response: each finds its mark gone at its next look at the flag and is
    fulfilled with no value. *)
Theorem legacy_success_replays_newest_first (s : nat) (fr : Frame)
    (tok : Token) (h1 : Host U) (pre rest : list ReqRef) w :
  parked w !! s = Some (Some fr) ->
  Legacy.onStatusChange cfg Status.success (host w) = (inr tt, h1) ->
  requestTracker w = pre ++ f_originalRequest fr :: rest ->
  NoDup (f_originalRequest fr :: rest) ->
  (forall r, r ∈ f_originalRequest fr :: rest ->
             pendingRequests w !! r = Some true) ->
  let w1 := step cfg (RefreshSettled s (inr tok)) w in
  replays w1
  = replays w ++
      map (fun r => {| replayed := r; sent := bearer tok (requests w r) |})
        (rev rest ++ [f_originalRequest fr]) /\
  returned w1
  = returned w ++
      [(f_error fr, ReturnReplay (length (replays w) + length rest))] /\
  notified w1 = notified w ++ [Status.success] /\
  requestTracker w1 = pre /\
  isRefreshing w1 = false /\
  forall p poll ms,
    polls w !! p = Some poll ->
    poll_state poll = Polling ->
    poll_request poll ∈ rest ->
    (poll_due poll <= now w + ms)%N ->
    polls (run cfg [Elapse ms; PollTick p] w1) !! p
    = Some {| poll_request := poll_request poll;
              poll_error := poll_error poll;
              poll_state := PollResolved;
              poll_due := poll_due poll |}.
Proof.
  intros Hs Hobs Htr Hnd Hmarks w1.
  destruct (loop_replays (f_originalRequest fr) tok rest pre
              (set_host h1
                 (set_notified (notified w ++ [Status.success])
                    (set_parked (<[s := None]> (parked w)) w))))
    as (w3 & Hloop & Htr3 & Hm3 & Hrep3 & Hreq3 & Hun); try done.
  { intros r Hr. unfold pending_get. cbn. by rewrite (Hmarks r Hr). }
  destruct Hun as (Hflag & Hpolls & Hhost & Hnow & Hparked & Hnot & Hcalls
                   & Hret).
  cbn in Hrep3, Hreq3, Hm3, Hflag, Hpolls, Hhost, Hnow, Hparked, Hnot,
    Hcalls, Hret, Hloop.
  assert (Hstep : w1 = set_returned
                         (returned w ++
                            [(f_error fr,
                              ReturnReplay
                                (length (replays w) + length rest))])
                         (set_isRefreshing false w3)).
  { subst w1. cbn [step]. rewrite Hs.
    rewrite (resume_success fr tok h1 (length (replays w) + length rest) _ w3).
    - cbn. by rewrite Hret.
    - exact Hobs.
    - cbn [requestTracker set_parked]. rewrite Htr, length_app. exact Hloop. }
  clearbody w1. subst w1.
  split; [exact Hrep3|]. split; [reflexivity|]. split; [exact Hnot|].
  split; [exact Htr3|]. split; [reflexivity|].
  intros p poll ms Hp Hst Hin Hdue.
  change (run cfg [Elapse ms; PollTick p] ?w0)
    with (step cfg (PollTick p) (step cfg (Elapse ms) w0)).
  apply tick_resolves; cbn; try done.
  - by rewrite Hpolls.
  - by rewrite Hnow.
  - rewrite Hm3. rewrite decide_True; [done|]. by apply elem_of_cons; right.
Qed.

Lemma missing_config_step (error : AxiosError) (v : Token) (h1 h2 : Host U) w :
  config error = None ->
  Legacy.shouldRefreshToken cfg error (host w) = (inr v, h1) ->
  truthy v = true ->
  isRefreshing w = true ->
  Legacy.onStatusChange cfg Status.error
    (console_write
       ("Error in refresh token interceptor: " +:+ render retry_of_undefined)
       h1)
  = (inr tt, h2) ->
  step cfg (ResponseError error) w =
  {| pendingRequests :=
       fold_left (fun m x => delete x m) (requestTracker w)
         (pendingRequests w);
     requestTracker := [];
     isRefreshing := false;
     requests := requests w;
     polls := polls w;
     host := h2;
     now := now w;
     parked := parked w;
     notified := notified w ++ [Status.error];
     refreshCalls := refreshCalls w;
     replays := replays w;
     returned := returned w ++ [(error, RejectOriginal error)] |}.
Proof.
  intros Hc Hcls Hv Hflag Hobs. cbn [step]. run_legacy.
  rewrite Hcls, Hv, Hc. cbn. rewrite Hflag. cbn. cbn in Hobs.
  rewrite Hobs. cbn. reflexivity.
Qed.

(** X13. The earlier version reads [_retry] of the failure's request
    description without looking whether there is one.  A failure the
    classifier accepts that carries no description therefore throws inside
    the interceptor; when a renewal is under way the outer [catch] notifies
    [error], deletes every mark, empties the tracker and clears the flag,
    and the caller is rejected with its original failure.  The renewal
    itself goes on, but its success then finds nothing to replay: the
    initiating call is rejected with its original failure as well. *)
Theorem legacy_missing_config_aborts_renewal (error : AxiosError) (v : Token)
    (h1 h2 h3 : Host U) (s : nat) (fr : Frame) (tok : Token) w :
  config error = None ->
  Legacy.shouldRefreshToken cfg error (host w) = (inr v, h1) ->
  truthy v = true ->
  isRefreshing w = true ->
  Legacy.onStatusChange cfg Status.error
    (console_write
       ("Error in refresh token interceptor: " +:+ render retry_of_undefined)
       h1)
  = (inr tt, h2) ->
  parked w !! s = Some (Some fr) ->
  Legacy.onStatusChange cfg Status.success h2 = (inr tt, h3) ->
  let w1 := step cfg (ResponseError error) w in
  let w2 := step cfg (RefreshSettled s (inr tok)) w1 in
  returned w1 = returned w ++ [(error, RejectOriginal error)] /\
  notified w1 = notified w ++ [Status.error] /\
  requestTracker w1 = [] /\
  isRefreshing w1 = false /\
  (forall r, r ∈ requestTracker w -> pendingRequests w1 !! r = None) /\
  refreshCalls w1 = refreshCalls w /\
  returned w2
  = returned w1 ++ [(f_error fr, RejectOriginal (f_error fr))] /\
  replays w2 = replays w /\
  notified w2 = notified w ++ [Status.error; Status.success].
Proof.
  intros Hc Hcls Hv Hflag Hobs Hs Hobs' w1 w2.
  assert (H1 := missing_config_step error v h1 h2 w Hc Hcls Hv Hflag Hobs).
  fold w1 in H1. subst w2. clearbody w1. subst w1.
  repeat (split; [reflexivity|]).
  split.
  { intros r Hr. cbn. rewrite forget_lookup. by rewrite decide_True. }
  split; [reflexivity|].
  cbn [step parked]. rewrite Hs. run_legacy. cbn. rewrite Hobs'. cbn.
  repeat (split; [reflexivity|]). by rewrite <- app_assoc.
Qed.

(** *** The tracker *)

Lemma tracker_shrinks_refl w : tracker_shrinks w w.
Proof. split; [reflexivity|auto]. Qed.

Lemma tracker_shrinks_trans w1 w2 w3 :
  tracker_shrinks w1 w2 -> tracker_shrinks w2 w3 -> tracker_shrinks w1 w3.
Proof.
  intros [Hs1 Hr1] [Hs2 Hr2]. split; [by etrans|auto].
Qed.

Lemma tracker_ok_shrinks w w' :
  tracker_ok w -> tracker_shrinks w w' -> tracker_ok w'.
Proof.
  intros [Hnd Hm] [Hs Hr]. split.
  - by eapply sublist_NoDup.
  - intros r Hin. apply Hr, Hm. by eapply elem_of_sublist.
Qed.

Lemma keeps_ret {A} (a : A) : keeps (ret a : M U A).
Proof. intros w. apply tracker_shrinks_refl. Qed.

Lemma keeps_throw {A} (t : Thrown) : keeps (throw t : M U A).
Proof. intros w. apply tracker_shrinks_refl. Qed.

Lemma keeps_gets {A} (f : World U -> A) : keeps (gets f).
Proof. intros w. apply tracker_shrinks_refl. Qed.

Lemma keeps_modify (f : World U -> World U) :
  (forall w, tracker_shrinks w (f w)) -> keeps (modify f).
Proof. intros Hf w. apply Hf. Qed.

Lemma keeps_call {A} (f : Callback U A) : keeps (call f).
Proof.
  intros w. unfold call. destruct (f (host w)) as [r h]. cbn.
  split; [reflexivity|auto].
Qed.

Lemma keeps_bind {A B} (m : M U A) (k : A -> M U B) :
  keeps m -> (forall a, keeps (k a)) -> keeps (bind m k).
Proof.
  intros Hm Hk w. unfold bind. specialize (Hm w).
  destruct (m w) as [[t|a] w1]; cbn in *; [done|].
  eapply tracker_shrinks_trans; [exact Hm|apply Hk].
Qed.

Lemma keeps_try_catch {A} (body : M U A) (handler : Thrown -> M U A) :
  keeps body -> (forall t, keeps (handler t)) ->
  keeps (try_catch body handler).
Proof.
  intros Hb Hh w. unfold try_catch. specialize (Hb w).
  destruct (body w) as [[t|a] w1]; cbn in *; [|done].
  eapply tracker_shrinks_trans; [exact Hb|apply Hh].
Qed.

Lemma keeps_try_catch_finally {A} (body : M U A) (handler : Thrown -> M U A)
    (final : M U unit) :
  keeps body -> (forall t, keeps (handler t)) -> keeps final ->
  keeps (try_catch_finally body handler final).
Proof.
  intros Hb Hh Hf w. unfold try_catch_finally.
  pose proof (keeps_try_catch body handler Hb Hh w) as Htc.
  destruct (try_catch body handler w) as [r w1]. cbn in Htc.
  specialize (Hf w1). destruct (final w1) as [[t|[]] w2]; cbn in *;
    by eapply tracker_shrinks_trans.
Qed.

Lemma keeps_notify status : keeps (notify cfg status).
Proof.
  unfold notify. apply keeps_bind; [|intros _; apply keeps_call].
  apply keeps_modify. intros w. split; [reflexivity|auto].
Qed.

Lemma keeps_forget_tracked : keeps (forget_tracked : M U unit).
Proof.
  apply keeps_modify. intros w. split; [apply sublist_nil_l|auto].
Qed.

Lemma keeps_axios r : keeps (axios r : M U nat).
Proof. intros w. split; [reflexivity|auto]. Qed.

Lemma keeps_set_header r name value :
  keeps (update_request r (set_header name value) : M U unit).
Proof.
  apply keeps_modify. intros w. split; [reflexivity|]. cbn.
  intros r' Hr'. unfold store_request. by destruct (decide (r' = r)) as [->|].
Qed.

Lemma keeps_replay_loop r0 tok n :
  keeps (replay_loop r0 tok n : M U (option nat)).
Proof.
  induction n as [|i IH]; cbn [replay_loop]; [apply keeps_ret|].
  apply keeps_bind; [apply keeps_gets|]. intros tracker.
  destruct (tracker !! i) as [request|]; [|exact IH].
  apply keeps_bind; [apply keeps_gets|]. intros marks.
  destruct (pending_get request marks); [|exact IH].
  apply keeps_bind.
  { destruct (truthy tok); [|apply keeps_ret].
    destruct tok; [apply keeps_set_header|apply keeps_ret]. }
  intros _. apply keeps_bind.
  { apply keeps_modify. intros w. split; [reflexivity|auto]. }
  intros _. apply keeps_bind.
  { apply keeps_modify. intros w. split; [apply sublist_delete|auto]. }
  intros _. destruct (decide (request = r0)).
  - apply keeps_bind; [apply keeps_axios|]. intros; apply keeps_ret.
  - apply keeps_bind; [apply keeps_axios|]. intros _; exact IH.
Qed.

Lemma keeps_set_isRefreshing b :
  keeps (modify (set_isRefreshing b) : M U unit).
Proof. apply keeps_modify. intros w. split; [reflexivity|auto]. Qed.

Lemma keeps_refreshTry body : keeps body -> keeps (refreshTry cfg body).
Proof.
  intros Hb. unfold refreshTry. apply keeps_try_catch_finally; [exact Hb| |].
  - intros t. unfold refreshCatch.
    apply keeps_bind; [apply keeps_notify|]. intros _.
    apply keeps_bind; [apply keeps_forget_tracked|]. intros _. apply keeps_ret.
  - apply keeps_set_isRefreshing.
Qed.

Lemma keeps_interceptorCatch t : keeps (interceptorCatch cfg t).
Proof.
  unfold interceptorCatch. apply keeps_bind.
  { apply keeps_modify. intros w. split; [reflexivity|auto]. }
  intros _. apply keeps_bind; [apply keeps_gets|]. intros [|]; [|apply keeps_ret].
  apply keeps_bind; [apply keeps_notify|]. intros _.
  apply keeps_bind; [apply keeps_forget_tracked|]. intros _.
  apply keeps_set_isRefreshing.
Qed.

Lemma keeps_onRejected_resume fr settled :
  keeps (onRejected_resume cfg fr settled).
Proof.
  unfold onRejected_resume. apply keeps_bind; [|intros; apply keeps_ret].
  apply keeps_try_catch.
  - apply keeps_bind; [|intros; apply keeps_ret]. apply keeps_refreshTry.
    apply keeps_bind.
    { destruct settled; [apply keeps_throw|apply keeps_ret]. }
    intros newToken. apply keeps_bind; [apply keeps_notify|]. intros _.
    apply keeps_bind; [apply keeps_gets|]. intros n. apply keeps_replay_loop.
  - intros t. apply keeps_bind; [apply keeps_interceptorCatch|].
    intros; apply keeps_ret.
Qed.

Lemma preserves_keeps {A} (m : M U A) : keeps m -> preserves m.
Proof. intros Hm w Hok. eapply tracker_ok_shrinks; [exact Hok|apply Hm]. Qed.

Lemma tracker_ok_push r w :
  tracker_ok w -> _retry (requests w r) = false ->
  tracker_ok
    (set_requests (store_request r mark_retry (requests w))
       (set_requestTracker (requestTracker w ++ [r])
          (set_pendingRequests (<[r := true]> (pendingRequests w)) w))).
Proof.
  intros [Hnd Hm] Hr. split; cbn.
  - apply NoDup_app. split; [exact Hnd|]. split; [|apply NoDup_singleton].
    intros x Hx ->%list_elem_of_singleton. specialize (Hm _ Hx). congruence.
  - intros x Hx. unfold store_request.
    destruct (decide (x = r)) as [->|Hne]; [done|].
    apply Hm. apply elem_of_app in Hx as [Hx|Hx%list_elem_of_singleton]; done.
Qed.

Lemma bind_modify {A} (f : World U -> World U) (k : unit -> M U A) w :
  bind (modify f) k w = k tt (f w).
Proof. reflexivity. Qed.

Lemma bind_gets {A B} (f : World U -> A) (k : A -> M U B) w :
  bind (gets f) k w = k (f w) w.
Proof. reflexivity. Qed.

Lemma preserves_tryBlock error : preserves (tryBlock cfg error).
Proof.
  intros w Hok. unfold tryBlock.
  pose proof (keeps_call (Legacy.shouldRefreshToken cfg error) w) as Hcall.
  unfold bind at 1.
  destruct (call (Legacy.shouldRefreshToken cfg error) w) as [[t|should] w1];
    cbn in Hcall.
  { cbn. by eapply tracker_ok_shrinks. }
  assert (Hok1 : tracker_ok w1) by (by eapply tracker_ok_shrinks).
  clear Hcall Hok.
  destruct (truthy should); [|exact Hok1].
  destruct (config error) as [r|]; [|exact Hok1].
  rewrite bind_gets.
  destruct (_retry (requests w1 r)) eqn:Hr; cbn [negb]; [exact Hok1|].
  unfold update_request. rewrite !bind_modify.
  match goal with
  | |- tracker_ok (snd (?m ?w0)) => apply (preserves_keeps m)
  end; [|exact (tracker_ok_push r w1 Hok1 Hr)].
  apply keeps_bind; [apply keeps_gets|]. intros [|]; cbn [negb].
  - apply keeps_bind; [apply keeps_gets|]. intros marks.
    destruct (pending_get r marks); [|apply keeps_ret].
    apply keeps_bind; [|intros; apply keeps_ret].
    intros w'. split; [reflexivity|auto].
  - apply keeps_bind; [apply keeps_set_isRefreshing|]. intros _.
    apply keeps_bind; [apply keeps_notify|]. intros _.
    apply keeps_bind.
    { apply keeps_try_catch; [|intros; apply keeps_ret].
      apply keeps_bind; [|intros; apply keeps_ret].
      unfold call_refreshTokenFn.
      apply keeps_bind; [|intros; apply keeps_call].
      apply keeps_modify. intros w'. split; [reflexivity|auto]. }
    intros [t|].
    + apply keeps_bind; [|intros; apply keeps_ret].
      apply keeps_refreshTry, keeps_throw.
    + apply keeps_bind; [|intros; apply keeps_ret].
      apply keeps_modify. intros w'. split; [reflexivity|auto].
Qed.

Lemma preserves_onRejected error : preserves (onRejected cfg error).
Proof.
  intros w Hok. unfold onRejected, bind, try_catch.
  pose proof (preserves_tryBlock error w Hok) as Htry.
  destruct (tryBlock cfg error w) as [[t|exit] w1]; cbn in Htry; [|exact Htry].
  pose proof (preserves_keeps _ (keeps_interceptorCatch t) w1 Htry) as Hc.
  destruct (interceptorCatch cfg t w1) as [[t'|[]] w2]; exact Hc.
Qed.

Lemma tracker_ok_deliver error (r : Res (option Outcome) * World U) :
  tracker_ok (snd r) -> tracker_ok (deliver error r).
Proof. destruct r as [[t|[o|]] w]; exact id. Qed.

Lemma tracker_ok_step ev w : tracker_ok w -> tracker_ok (step cfg ev w).
Proof.
  intros Hok. destruct ev as [error|s settled|p|ms]; cbn [step].
  - by apply tracker_ok_deliver, preserves_onRejected.
  - destruct (parked w !! s) as [[fr|]|]; try done.
    apply tracker_ok_deliver.
    by apply (preserves_keeps _ (keeps_onRejected_resume fr settled)).
  - destruct (polls w !! p) as [poll|]; [|done].
    destruct (poll_state poll); try done.
    destruct (poll_due poll <=? now w)%N; [|done].
    unfold checkInterval.
    destruct (isRefreshing w); cbn [negb]; [exact Hok|].
    destruct (pending_get _ _); exact Hok.
  - exact Hok.
Qed.

(** X14. In the earlier version, whatever the callbacks do, the tracker
    never holds a request twice and every request it holds carries the
    [_retry] mark: a request is added only while unmarked and is marked at
    once, and nothing takes the mark off again. *)
Theorem legacy_tracker_has_no_duplicates (evs : list Event) w :
  tracker_ok w -> tracker_ok (run cfg evs w).
Proof.
  revert w. induction evs as [|ev evs IH]; intros w Hok; [exact Hok|].
  apply IH. by apply tracker_ok_step.
Qed.

Lemma tick_rejects p poll w :
  polls w !! p = Some poll -> poll_state poll = Polling ->
  (poll_due poll <= now w)%N ->
  isRefreshing w = false ->
  pendingRequests w !! poll_request poll = Some true ->
  step cfg (PollTick p) w
  = set_polls
      (<[p := {| poll_request := poll_request poll;
                 poll_error := poll_error poll;
                 poll_state := PollRejected (poll_error poll);
                 poll_due := poll_due poll |}]> (polls w))
      (set_pendingRequests
         (delete (poll_request poll) (pendingRequests w)) w).
Proof.
  intros Hp Hst Hdue Hflag Hmark. cbn [step]. rewrite Hp, Hst.
  apply N.leb_le in Hdue. rewrite Hdue. unfold checkInterval, pending_get.
  by rewrite Hflag, Hmark.
Qed.

Lemma resume_failure_observer_throws fr reason t h1 w :
  Legacy.onStatusChange cfg Status.failed (host w) = (inl t, h1) ->
  onRejected_resume cfg fr (inl reason) w =
  (inr (Some (RejectOriginal (f_error fr))),
   {| pendingRequests := pendingRequests w;
      requestTracker := requestTracker w;
      isRefreshing := false;
      requests := requests w;
      polls := polls w;
      host :=
        console_write ("Error in refresh token interceptor: " +:+ render t)
          h1;
      now := now w;
      parked := parked w;
      notified := notified w ++ [Status.failed];
      refreshCalls := refreshCalls w;
      replays := replays w;
      returned := returned w |}).
Proof.
  intros Hobs. run_legacy. cbn. rewrite Hobs. cbn. reflexivity.
Qed.

(** X15. In the earlier version an observer that throws when it is told
    [failed] keeps the [catch] block from clearing the marks and the
    tracker; [finally] still clears the flag, so the outer [catch] only
    logs and notifies nothing.  The initiating call is rejected with its
    original failure, and so is every joined call at its next look at the
    flag: it finds its mark still set, deletes it and rejects with the
    failure it came with. *)
Theorem legacy_failed_observer_throws (s : nat) (fr : Frame)
    (reason t : Thrown) (h1 : Host U) w :
  parked w !! s = Some (Some fr) ->
  Legacy.onStatusChange cfg Status.failed (host w) = (inl t, h1) ->
  let w1 := step cfg (RefreshSettled s (inl reason)) w in
  returned w1 = returned w ++ [(f_error fr, RejectOriginal (f_error fr))] /\
  notified w1 = notified w ++ [Status.failed] /\
  isRefreshing w1 = false /\
  requestTracker w1 = requestTracker w /\
  pendingRequests w1 = pendingRequests w /\
  forall p poll ms,
    polls w !! p = Some poll ->
    poll_state poll = Polling ->
    pendingRequests w !! poll_request poll = Some true ->
    (poll_due poll <= now w + ms)%N ->
    polls (run cfg [Elapse ms; PollTick p] w1) !! p
    = Some {| poll_request := poll_request poll;
              poll_error := poll_error poll;
              poll_state := PollRejected (poll_error poll);
              poll_due := poll_due poll |} /\
    pendingRequests (run cfg [Elapse ms; PollTick p] w1)
      !! poll_request poll = None.
Proof.
  intros Hs Hobs w1.
  assert (Hstep : w1 = set_returned
                         (returned w ++
                            [(f_error fr, RejectOriginal (f_error fr))])
                         (snd (onRejected_resume cfg fr (inl reason)
                                 (set_parked (<[s := None]> (parked w)) w)))).
  { subst w1. cbn [step]. rewrite Hs.
    by rewrite (resume_failure_observer_throws fr reason t h1) by exact Hobs. }
  rewrite (resume_failure_observer_throws fr reason t h1) in Hstep
    by exact Hobs.
  clearbody w1. subst w1.
  repeat (split; [reflexivity|]).
  intros p poll ms Hp Hst Hmark Hdue.
  change (run cfg [Elapse ms; PollTick p] ?w0)
    with (step cfg (PollTick p) (step cfg (Elapse ms) w0)).
  rewrite (tick_rejects p poll); cbn; try done. split.
  - apply list_lookup_insert_eq. by eapply lookup_lt_Some.
  - apply lookup_delete_eq.
Qed.

(** X16. The default classifiers of the two versions accept the same
    failures: the later one returns the truthiness of what the earlier one
    returns, after the same call, or none, of [getAuthToken]. *)
Theorem default_classifiers_agree (getAuthToken : Callback U Token)
    (error : AxiosError) (originalRequest : Request) (h : Host U) :
  default_shouldRefreshToken getAuthToken error originalRequest h
  = match Legacy.default_shouldRefreshToken getAuthToken error h with
    | (inr v, h') => (inr (truthy v), h')
    | (inl t, h') => (inl t, h')
    end.
Proof.
  unfold default_shouldRefreshToken, Legacy.default_shouldRefreshToken.
  destruct (response error) as [r|]; [destruct (status r =? 401)%Z|];
    try reflexivity; by destruct (getAuthToken h) as [[t|v] h'].
Qed.
End LegacyFacts.

(** *** The earlier version at concrete inputs *)

Lemma legacy_joiner_polls_witness :
  polls (step legacy_options (ResponseError (unauthorized 1))
           legacy_started_world)
  = [{| poll_request := 1; poll_error := unauthorized 1;
        poll_state := Polling; poll_due := 100 |}] /\
  refreshCalls (step legacy_options (ResponseError (unauthorized 1))
                  legacy_started_world) = 1.
Proof.
  assert (Hflag : isRefreshing legacy_started_world = true)
    by by_computation.
  assert (Hcls : Legacy.shouldRefreshToken legacy_options (unauthorized 1)
                   (host legacy_started_world)
                 = (inr (Some "old-token"), host legacy_started_world))
    by reflexivity.
  assert (Hr : _retry (requests legacy_started_world 1) = false)
    by by_computation.
  rewrite (legacy_joiner_polls legacy_options (unauthorized 1) 1
             (Some "old-token") (host legacy_started_world)
             legacy_started_world Hflag eq_refl Hcls eq_refl Hr).
  split; by_computation.
Defined.

Lemma legacy_crowded_parked :
  parked legacy_crowded_world !! 0 = Some (Some legacy_frame).
Proof. by_computation. Qed.

Lemma legacy_failure_fulfils_joiners_witness :
  returned
    (step legacy_options
       (RefreshSettled 0 (inl (ThrownValue "refresh rejected")))
       legacy_crowded_world)
  = returned legacy_crowded_world ++
      [(f_error legacy_frame, RejectOriginal (f_error legacy_frame))] /\
  replays
    (step legacy_options
       (RefreshSettled 0 (inl (ThrownValue "refresh rejected")))
       legacy_crowded_world)
  = replays legacy_crowded_world /\
  polls
    (run legacy_options [Elapse 100; PollTick 0]
       (step legacy_options
          (RefreshSettled 0 (inl (ThrownValue "refresh rejected")))
          legacy_crowded_world)) !! 0
  = Some {| poll_request := 1; poll_error := unauthorized 1;
            poll_state := PollResolved; poll_due := 100 |}.
Proof.
  assert (Hobs : Legacy.onStatusChange legacy_options Status.failed
                   (host legacy_crowded_world)
                 = (inr tt,
                    snd (Legacy.onStatusChange legacy_options Status.failed
                           (host legacy_crowded_world))))
    by reflexivity.
  destruct (legacy_failure_fulfils_joiners legacy_options 0 legacy_frame
              (ThrownValue "refresh rejected") _ legacy_crowded_world
              legacy_crowded_parked Hobs)
    as (Hret & _ & Hrep & _ & _ & Hpoll).
  split; [exact Hret|]. split; [exact Hrep|].
  apply (Hpoll 0 {| poll_request := 1; poll_error := unauthorized 1;
                    poll_state := Polling; poll_due := 100 |} 100%N).
  - by_computation.
  - reflexivity.
  - apply (bool_decide_unpack _). by_computation.
  - apply N.leb_le. by_computation.
Defined.

Lemma legacy_crowded_marks (r : ReqRef) :
  r ∈ f_originalRequest legacy_frame :: [1; 2] ->
  pendingRequests legacy_crowded_world !! r = Some true.
Proof.
  intros Hr. repeat (apply elem_of_cons in Hr as [->|Hr]; [by_computation|]).
  by apply elem_of_nil in Hr.
Qed.

Lemma legacy_success_replays_newest_first_witness :
  map replayed
    (replays
       (step legacy_options (RefreshSettled 0 (inr (Some "new-token")))
          legacy_crowded_world))
  = [2; 1; 0] /\
  returned
    (step legacy_options (RefreshSettled 0 (inr (Some "new-token")))
       legacy_crowded_world)
  = returned legacy_crowded_world ++
      [(f_error legacy_frame,
        ReturnReplay (length (replays legacy_crowded_world) + length [1; 2]))].
Proof.
  assert (Hobs : Legacy.onStatusChange legacy_options Status.success
                   (host legacy_crowded_world)
                 = (inr tt,
                    snd (Legacy.onStatusChange legacy_options Status.success
                           (host legacy_crowded_world))))
    by reflexivity.
  assert (Htr : requestTracker legacy_crowded_world
                = [] ++ f_originalRequest legacy_frame :: [1; 2])
    by by_computation.
  assert (Hnd : NoDup (f_originalRequest legacy_frame :: [1; 2]))
    by (apply (bool_decide_unpack _); by_computation).
  pose proof (legacy_success_replays_newest_first legacy_options 0
                legacy_frame (Some "new-token") _ [] [1; 2]
                legacy_crowded_world legacy_crowded_parked Hobs Htr Hnd
                legacy_crowded_marks) as H.
  cbv zeta in H. destruct H as (Hrep & Hret & _).
  split; [|exact Hret]. rewrite Hrep.
  assert (Hnone : replays legacy_crowded_world = []) by by_computation.
  rewrite Hnone. reflexivity.
Defined.

Lemma legacy_missing_config_aborts_renewal_witness :
  returned
    (step legacy_options (RefreshSettled 0 (inr (Some "new-token")))
       (step legacy_options (ResponseError detached_unauthorized)
          legacy_started_world))
  = returned
      (step legacy_options (ResponseError detached_unauthorized)
         legacy_started_world) ++
      [(f_error legacy_frame, RejectOriginal (f_error legacy_frame))] /\
  replays
    (step legacy_options (RefreshSettled 0 (inr (Some "new-token")))
       (step legacy_options (ResponseError detached_unauthorized)
          legacy_started_world))
  = replays legacy_started_world.
Proof.
  assert (Hflag : isRefreshing legacy_started_world = true)
    by by_computation.
  assert (Hcls : Legacy.shouldRefreshToken legacy_options
                   detached_unauthorized (host legacy_started_world)
                 = (inr (Some "old-token"), host legacy_started_world))
    by reflexivity.
  assert (Hs : parked legacy_started_world !! 0 = Some (Some legacy_frame))
    by by_computation.
  pose proof (legacy_missing_config_aborts_renewal legacy_options
                detached_unauthorized (Some "old-token")
                (host legacy_started_world) _ _ 0 legacy_frame
                (Some "new-token") legacy_started_world eq_refl Hcls eq_refl
                Hflag eq_refl Hs eq_refl) as H.
  cbv zeta in H. destruct H as (_ & _ & _ & _ & _ & _ & Hret & Hrep & _).
  split; [exact Hret|exact Hrep].
Defined.

Lemma legacy_world_tracker_ok : tracker_ok legacy_world.
Proof.
  split; [constructor|]. intros r Hr. by apply elem_of_nil in Hr.
Qed.

Lemma legacy_tracker_has_no_duplicates_witness :
  tracker_ok
    (run legacy_options
       [ResponseError (unauthorized 0); ResponseError (unauthorized 1);
        ResponseError (unauthorized 0);
        RefreshSettled 0 (inr (Some "new-token"))]
       legacy_world).
Proof.
  apply (legacy_tracker_has_no_duplicates legacy_options
           [ResponseError (unauthorized 0); ResponseError (unauthorized 1);
            ResponseError (unauthorized 0);
            RefreshSettled 0 (inr (Some "new-token"))]
           legacy_world legacy_world_tracker_ok).
Defined.

Lemma legacy_failed_observer_throws_witness :
  returned
    (step legacy_sulking_options
       (RefreshSettled 0 (inl (ThrownValue "refresh rejected")))
       legacy_sulking_world)
  = returned legacy_sulking_world ++
      [(f_error legacy_frame, RejectOriginal (f_error legacy_frame))] /\
  polls
    (run legacy_sulking_options [Elapse 100; PollTick 0]
       (step legacy_sulking_options
          (RefreshSettled 0 (inl (ThrownValue "refresh rejected")))
          legacy_sulking_world)) !! 0
  = Some {| poll_request := 1; poll_error := unauthorized 1;
            poll_state := PollRejected (unauthorized 1); poll_due := 100 |}.
Proof.
  assert (Hs : parked legacy_sulking_world !! 0 = Some (Some legacy_frame))
    by by_computation.
  assert (Hobs : Legacy.onStatusChange legacy_sulking_options Status.failed
                   (host legacy_sulking_world)
                 = (inl (ThrownError observer_failure),
                    host legacy_sulking_world))
    by reflexivity.
  pose proof (legacy_failed_observer_throws legacy_sulking_options 0
                legacy_frame (ThrownValue "refresh rejected")
                (ThrownError observer_failure) (host legacy_sulking_world)
                legacy_sulking_world Hs Hobs) as H.
  cbv zeta in H. destruct H as (Hret & _ & _ & _ & _ & Hpoll).
  split; [exact Hret|].
  apply (Hpoll 0 {| poll_request := 1; poll_error := unauthorized 1;
                    poll_state := Polling; poll_due := 100 |} 100%N).
  - by_computation.
  - reflexivity.
  - by_computation.
  - apply N.leb_le. by_computation.
Defined.
End LegacyFacts.

(** ** The further properties at concrete inputs *)

Lemma touchy_in_flight : in_flight 0 example_frame touchy_world.
Proof.
  assert (Hc : closure touchy_world
               = {| pendingRequests := [{| request := 0; promise := 0 |}];
                    isRefreshing := true; refreshPromise := Some 0 |})
    by by_computation.
  assert (Hs : sessions touchy_world
               = [{| deadline := 10000; waiter := Some example_frame |}])
    by by_computation.
  assert (Hp : promises touchy_world = [Pending]) by by_computation.
  unfold in_flight, waiting, pending_promises. rewrite Hc, Hs, Hp. cbn.
  split; [reflexivity|]. split; [by eexists|]. split.
  - apply NoDup_singleton.
  - intros p ->%list_elem_of_singleton. reflexivity.
Qed.

Lemma picky_in_flight : in_flight 0 example_frame picky_world.
Proof.
  assert (Hc : closure picky_world
               = {| pendingRequests := [{| request := 0; promise := 0 |}];
                    isRefreshing := true; refreshPromise := Some 0 |})
    by by_computation.
  assert (Hs : sessions picky_world
               = [{| deadline := 10000; waiter := Some example_frame |}])
    by by_computation.
  assert (Hp : promises picky_world = [Pending]) by by_computation.
  unfold in_flight, waiting, pending_promises. rewrite Hc, Hs, Hp. cbn.
  split; [reflexivity|]. split; [by eexists|]. split.
  - apply NoDup_singleton.
  - intros p ->%list_elem_of_singleton. reflexivity.
Qed.

Lemma picky_observer_returns status : observer_returns picky_options status.
Proof. intros error h. eexists. reflexivity. Qed.

Lemma picky_renewal_starts : renewal_starts picky_options.
Proof. intros h. by exists h. Qed.

Lemma picky_unauthorized_returns (r : ReqRef) (config : Request) :
  classifier_returns picky_options true (unauthorized r) config.
Proof. intros h. by exists h. Qed.

Lemma touchy_observer_returns_failed :
  observer_returns touchy_options Status.failed.
Proof. intros error h. by exists h. Qed.

Lemma retry_mark_is_permanent_witness :
  _retry
    (requests
       (run example_options
          [ResponseError (unauthorized 1);
           RefreshSettled 0 (inr (Some "new-token"));
           ResponseError (unauthorized 0)] renewing_world) 0) = true.
Proof.
  assert (Hr : _retry (requests renewing_world 0) = true) by by_computation.
  exact (retry_mark_is_permanent example_options
           [ResponseError (unauthorized 1);
            RefreshSettled 0 (inr (Some "new-token"));
            ResponseError (unauthorized 0)] 0 renewing_world Hr).
Defined.

Lemma race_settles_once_witness :
  step example_options (TimeoutFired 0)
    (run example_options [ResponseError (unauthorized 1); Elapse 10000]
       (step example_options (RefreshSettled 0 (inr (Some "new-token")))
          renewing_world))
  = run example_options [ResponseError (unauthorized 1); Elapse 10000]
      (step example_options (RefreshSettled 0 (inr (Some "new-token")))
         renewing_world).
Proof.
  assert (Hs : sessions renewing_world !! 0
               = Some {| deadline := 10000; waiter := Some example_frame |})
    by by_computation.
  destruct (race_settles_once example_options 0 10000 example_frame
              (inr (Some "new-token")) (inr (Some "late-token"))
              [ResponseError (unauthorized 1); Elapse 10000] renewing_world
              Hs) as (_ & Htimer & _).
  exact Htimer.
Defined.

Lemma wait_set_stays_in_order_witness :
  wait_set_ok
    (run example_options
       [ResponseError (unauthorized 0); ResponseError (unauthorized 1);
        ResponseError (unauthorized 1)] example_world).
Proof.
  exact (wait_set_stays_in_order example_options
           [ResponseError (unauthorized 0); ResponseError (unauthorized 1);
            ResponseError (unauthorized 1)] example_world
           (wait_set_ok_empty example_world eq_refl)).
Defined.

Lemma success_path_exception_is_renewal_failure_witness :
  replays
    (step touchy_options (RefreshSettled 0 (inr (Some "new-token")))
       touchy_world)
  = replays touchy_world /\
  closure
    (step touchy_options (RefreshSettled 0 (inr (Some "new-token")))
       touchy_world)
  = initial_closure.
Proof.
  assert (Hthrows :
            (exists h1,
               onStatusChange touchy_options Status.success None
                 (host touchy_world)
               = (inl (ThrownError observer_failure), h1)) \/
            (exists token h1 h2,
               Some "new-token" = Some token /\ token <> "" /\
               pendingRequests (closure touchy_world) <> [] /\
               onStatusChange touchy_options Status.success None
                 (host touchy_world) = (inr tt, h1) /\
               authHeaderFormatter touchy_options token h1
               = (inl (ThrownError observer_failure), h2))).
  { left. exists (host touchy_world). reflexivity. }
  destruct (success_path_exception_is_renewal_failure touchy_options 0
              example_frame (Some "new-token")
              (RefreshSettled 0 (inr (Some "new-token")))
              (ThrownError observer_failure) touchy_world touchy_in_flight
              (or_introl eq_refl) touchy_observer_returns_failed Hthrows)
    as (Hrep & _ & _ & _ & Hclo).
  split; [exact Hrep|exact Hclo].
Defined.

Lemma classifier_exception_when_idle_witness :
  returned
    (step picky_options (ResponseError (server_error 0)) example_world)
  = [(server_error 0, RejectOriginal (server_error 0))] /\
  refreshCalls
    (step picky_options (ResponseError (server_error 0)) example_world) = 0.
Proof.
  rewrite (classifier_exception_when_idle picky_options (server_error 0) 0
             (ThrownError classifier_failure) example_host example_world
             eq_refl eq_refl eq_refl).
  split; reflexivity.
Defined.

Lemma one_settler_call_per_entry_witness :
  exists calls,
    settlements
      (step example_options (RefreshSettled 0 (inr (Some "new-token")))
         renewing_world)
    = settlements renewing_world ++ calls /\
    map fst calls = map promise (pendingRequests (closure renewing_world)) /\
    pendingRequests
      (closure
         (step example_options (RefreshSettled 0 (inr (Some "new-token")))
            renewing_world)) = [].
Proof.
  destruct (one_settler_call_per_entry example_options 0 example_frame
              (inr (Some "new-token"))
              (RefreshSettled 0 (inr (Some "new-token")))
              (fun token => "Bearer " +:+ token) renewing_world
              renewing_in_flight (or_introl eq_refl)
              (example_observer_returns Status.success)
              (example_observer_returns Status.failed) example_formatter)
    as (calls & Hset & Hfst & _ & _ & Hempty).
  exists calls. split; [exact Hset|]. split; [exact Hfst|exact Hempty].
Defined.

Lemma replays_follow_the_wait_set_witness :
  exists calls,
    replays
      (step example_options (RefreshSettled 0 (inr (Some "new-token")))
         renewing_world)
    = replays renewing_world ++ calls /\
    map replayed calls
    = map request (pendingRequests (closure renewing_world)).
Proof.
  pose proof (replays_follow_the_wait_set example_options 0 example_frame
                (inr (Some "new-token"))
                (RefreshSettled 0 (inr (Some "new-token")))
                (fun token => "Bearer " +:+ token) renewing_world
                renewing_in_flight (or_introl eq_refl)
                (example_observer_returns Status.success)
                (example_observer_returns Status.failed) example_formatter)
    as H.
  cbv beta iota in H. destruct H as (calls & Hrep & Hmap & _).
  exists calls. split; [exact Hrep|exact Hmap].
Defined.

Lemma throwing_classifier_lets_renewals_overlap_witness :
  closure (step picky_options (ResponseError (server_error 1)) picky_world)
  = initial_closure /\
  refreshCalls
    (step picky_options (ResponseError (unauthorized 2))
       (step picky_options (ResponseError (server_error 1)) picky_world))
  = S (refreshCalls picky_world).
Proof.
  assert (Hcls : shouldRefreshToken picky_options (server_error 1)
                   (requests picky_world 1) (host picky_world)
                 = (inl (ThrownError classifier_failure), host picky_world))
    by reflexivity.
  assert (Hr : _retry (requests picky_world 2) = false) by by_computation.
  destruct (throwing_classifier_lets_renewals_overlap picky_options 0
              example_frame (server_error 1) (unauthorized 2) 1 2
              (ThrownError classifier_failure) (host picky_world) picky_world
              picky_in_flight eq_refl Hcls
              (picky_observer_returns Status.error)
              (picky_observer_returns Status.refreshing)
              picky_renewal_starts eq_refl Hr
              (picky_unauthorized_returns 2 _))
    as (_ & Hclo & Hcalls & _).
  split; [exact Hclo|exact Hcalls].
Defined.
